(** * Verb-pair scraper and Anki sync: a shallow embedding

    The development follows the two source files of the repository,
    [scraper.py] and [anki_sync.py].  Python strings are sequences of Unicode
    code points, so a [str] is a list of code points; the literals of the
    source are written as UTF-8 string literals and decoded once. *)

From Stdlib Require Import NArith ZArith List Bool Lia String Ascii.
From stdpp Require Import gmap.
Import ListNotations.

Local Open Scope N_scope.

(** ** Python [str] *)

Module PyStr.

(** A code point, and a string of them. *)
Abbreviation char := N (only parsing).
Abbreviation str := (list N) (only parsing).

(** UTF-8 decoding of the bytes of a literal (well-formed input only). *)
Fixpoint decode_utf8 (bs : list N) : str :=
  match bs with
  | [] => []
  | b :: r =>
    if b <? 0x80 then b :: decode_utf8 r
    else if b <? 0xE0 then
      match r with
      | c1 :: r1 =>
        N.lor (N.shiftl (N.land b 0x1F) 6) (N.land c1 0x3F) :: decode_utf8 r1
      | _ => []
      end
    else if b <? 0xF0 then
      match r with
      | c1 :: c2 :: r2 =>
        N.lor (N.shiftl (N.land b 0x0F) 12)
          (N.lor (N.shiftl (N.land c1 0x3F) 6) (N.land c2 0x3F))
        :: decode_utf8 r2
      | _ => []
      end
    else
      match r with
      | c1 :: c2 :: c3 :: r3 =>
        N.lor (N.shiftl (N.land b 0x07) 18)
          (N.lor (N.shiftl (N.land c1 0x3F) 12)
             (N.lor (N.shiftl (N.land c2 0x3F) 6) (N.land c3 0x3F)))
        :: decode_utf8 r3
      | _ => []
      end
  end.

Definition u (s : string) : str :=
  decode_utf8 (List.map N_of_ascii (list_ascii_of_string s)).

(** A one-character literal. *)
Definition ch (s : string) : char := List.hd 0 (u s).

Arguments u : simpl never.

(** [str.isspace] on one code point: the characters [str.strip] removes. *)
Definition isspace (c : char) : bool :=
  ((0x09 <=? c) && (c <=? 0x0D)) || ((0x1C <=? c) && (c <=? 0x20))
  || (c =? 0x85) || (c =? 0xA0) || (c =? 0x1680)
  || ((0x2000 <=? c) && (c <=? 0x200A))
  || (c =? 0x2028) || (c =? 0x2029) || (c =? 0x202F) || (c =? 0x205F)
  || (c =? 0x3000).

Fixpoint lstrip (s : str) : str :=
  match s with
  | [] => []
  | c :: r => if isspace c then lstrip r else s
  end.

Definition rstrip (s : str) : str := rev (lstrip (rev s)).

(** [s.strip()] *)
Definition strip (s : str) : str := rstrip (lstrip s).

Fixpoint startswith (s p : str) {struct p} : bool :=
  match p, s with
  | [], _ => true
  | _ :: _, [] => false
  | a :: p', b :: s' => (a =? b) && startswith s' p'
  end.

(** [x in s] on strings: [x] occurs in [s] as a contiguous substring. *)
Fixpoint isin (x s : str) : bool :=
  startswith s x ||
  match s with
  | [] => false
  | _ :: r => isin x r
  end.

(** Splitting at every character satisfying [p]: [s.split(sep)] for a
    one-character [sep], and [re.split] on a character class.  The result is
    never empty; [cur] is the piece being read, reversed. *)
Fixpoint split_acc (p : char -> bool) (cur : str) (s : str) : list str :=
  match s with
  | [] => [rev cur]
  | c :: r => if p c then rev cur :: split_acc p [] r
              else split_acc p (c :: cur) r
  end.

Definition split_by (p : char -> bool) (s : str) : list str := split_acc p [] s.

(** [s.split(sep)], every separator of the source being one code point. *)
Definition split (sep : char) (s : str) : list str := split_by (N.eqb sep) s.

(** [s.replace(old, new)] for a one-character [old]. *)
Fixpoint replace (old : char) (new : str) (s : str) : str :=
  match s with
  | [] => []
  | c :: r => (if c =? old then new else [c]) ++ replace old new r
  end.

(** [sep.join(items)] *)
Fixpoint join (sep : str) (items : list str) : str :=
  match items with
  | [] => []
  | [x] => x
  | x :: r => x ++ sep ++ join sep r
  end.

(** [s.endswith(p)] *)
Definition endswith (s p : str) : bool := startswith (rev s) (rev p).

End PyStr.
Export PyStr.

(** ** Effects: state passing with Python exceptions *)

Module Eff.

(** The exceptions the two scripts can meet.  All of them are instances of
    Python's [Exception]. *)
Inductive Exn : Type :=
| RequestException            (* requests: connection failure or error status *)
| URLError                    (* urllib: the server cannot be reached *)
| PyException (msg : str).    (* any other [Exception] *)

Inductive Outcome (A : Type) : Type :=
| Returned (a : A)
| Raised (e : Exn).
Arguments Returned {A} a.
Arguments Raised {A} e.

(** A computation on a state of type [S]. *)
Definition M (S A : Type) : Type := S -> Outcome A * S.

Definition ret {S A} (a : A) : M S A := fun s => (Returned a, s).

Definition bind {S A B} (c : M S A) (k : A -> M S B) : M S B :=
  fun s =>
    match c s with
    | (Returned a, s') => k a s'
    | (Raised e, s') => (Raised e, s')
    end.

Definition raise {S A} (e : Exn) : M S A := fun s => (Raised e, s).

Definition gets {S A} (f : S -> A) : M S A := fun s => (Returned (f s), s).

Definition modify {S} (f : S -> S) : M S unit := fun s => (Returned tt, f s).

(** [try: c  except <class>: h], the class given by the exceptions it
    catches. *)
Definition try_except {S A} (c : M S A) (catches : Exn -> bool)
    (h : Exn -> M S A) : M S A :=
  fun s =>
    match c s with
    | (Raised e, s') => if catches e then h e s' else (Raised e, s')
    | r => r
    end.

Definition is_RequestException (e : Exn) : bool :=
  match e with RequestException => true | _ => false end.

Definition is_URLError (e : Exn) : bool :=
  match e with URLError => true | _ => false end.

Definition is_Exception (e : Exn) : bool := true.

Declare Scope eff_scope.
Delimit Scope eff_scope with eff.

Notation "x <- c ;; k" := (bind c (fun x => k))
  (at level 100, c at next level, right associativity) : eff_scope.
Notation "c ;; k" := (bind c (fun _ => k))
  (at level 100, right associativity) : eff_scope.

End Eff.
Export Eff.

(** ** scraper.py *)

Module Scraper.

(** *** parse_verb_pair_title *)

Definition VBAR_FULL : char := Eval vm_compute in ch "｜".
Definition VBAR : char := Eval vm_compute in ch "|".

(** The character class of [re.split(r"[｜|]", title)]. *)
Definition is_bar (c : char) : bool := (c =? VBAR_FULL) || (c =? VBAR).

Definition SEPARATORS : list char :=
  Eval vm_compute in [ch "・"; ch "／"; ch "/"].

(** The [for sep in ...] loop of [parse_verb_pair_title]: the first separator
    that occurs in the title and splits it into exactly two parts decides. *)
Fixpoint try_separators (seps : list char) (title : str) : option (str * str) :=
  match seps with
  | [] => None
  | sep :: rest =>
    if isin [sep] title then
      match split sep title with
      | [p0; p1] => Some (strip p0, strip p1)
      | _ => try_separators rest title
      end
    else try_separators rest title
  end.

(** [re.split(r"[｜|]", title)[0].strip()]: the title without its category
    suffix. *)
Definition title_head (title : str) : str :=
  strip (List.hd [] (split_by is_bar title)).

Definition parse_verb_pair_title (title : str) : option (str * str) :=
  let title := title_head title in
  try_separators SEPARATORS title.

(** *** The text heuristics of parse_article *)

Definition NEWLINE : char := 0x0A.
Definition GA : str := Eval vm_compute in u "が".
Definition WO : str := Eval vm_compute in u "を".
Definition JIDOUSHI : str := Eval vm_compute in u "自動詞".
Definition TADOUSHI : str := Eval vm_compute in u "他動詞".
Definition LBRACKET : char := Eval vm_compute in ch "【".
Definition RBRACKET : char := Eval vm_compute in ch "】".

Definition null {A} (l : list A) : bool :=
  match l with [] => true | _ => false end.

(** One side of the body of the [for line in lines] loop: the [if]/[elif]
    pair that appends [line] to the list of one side. *)
Definition example_side (particle verb marker line : str) (acc : list str)
  : list str :=
  if isin particle line && isin verb line && isin marker line then acc ++ [line]
  else if isin particle line && isin verb line
          && (length line <? 100)%nat then acc ++ [line]
  else acc.

(** The body of the loop, on the pair
    [(intransitive_examples, transitive_examples)]. *)
Definition example_step (intransitive transitive : str)
    (acc : list str * list str) (line : str) : list str * list str :=
  let line := strip line in
  if null line then acc
  else (example_side GA intransitive JIDOUSHI line (fst acc),
        example_side WO transitive TADOUSHI line (snd acc)).

Definition collect_examples (intransitive transitive text : str)
  : list str * list str :=
  fold_left (example_step intransitive transitive) (split NEWLINE text) ([], []).

Definition circled_numbers : str :=
  Eval vm_compute in u "①②③④⑤⑥⑦⑧⑨⑩⑪⑫⑬⑭⑮".

(** The characters excluded by the class [[^\n①②③④⑤⑥⑦⑧⑨⑩]]. *)
Definition CLASS_GLYPHS : str := Eval vm_compute in u "①②③④⑤⑥⑦⑧⑨⑩".

Definition item_stop (c : char) : bool :=
  (c =? NEWLINE) || existsb (N.eqb c) CLASS_GLYPHS.

(** The longest prefix matched by [[^\n①②③④⑤⑥⑦⑧⑨⑩]*]. *)
Fixpoint item_run (s : str) : str :=
  match s with
  | [] => []
  | c :: r => if item_stop c then [] else c :: item_run r
  end.

(** [re.findall(rf"{c}[^\n①②③④⑤⑥⑦⑧⑨⑩]+", text)]: the scan goes left to
    right, a match is the glyph [c] and the longest non-empty run after it,
    and the scan resumes after the match; [skip] counts the characters of the
    last match still to be passed. *)
Fixpoint findall_item (c : char) (skip : nat) (text : str) : list str :=
  match text with
  | [] => []
  | x :: rest =>
    match skip with
    | S k => findall_item c k rest
    | O =>
      if x =? c then
        match item_run rest with
        | [] => findall_item c 0 rest
        | run => (c :: run) :: findall_item c (length run) rest
        end
      else findall_item c 0 rest
    end
  end.

(** The body of [for m in matches]. *)
Definition question_step (acc : list str) (m : str) : list str :=
  let m := if isin [LBRACKET] m && negb (isin [RBRACKET] m)
           then m ++ [RBRACKET] else m in
  if (5 <? length m)%nat then acc ++ [strip m] else acc.

(** The list [practice_questions] after the loop over [circled_numbers]. *)
Definition collect_practice_questions (text : str) : list str :=
  fold_left (fun acc c => fold_left question_step (findall_item c 0 text) acc)
            circled_numbers [].

Definition ANSWER_MARKER : str := Eval vm_compute in u "【答え】".

(** The lookahead [(?=【|$)]: without MULTILINE, [$] holds at the end of the
    text and just before a newline that ends the text. *)
Definition lookahead_stop (s : str) : bool :=
  match s with
  | [] => true
  | d :: r => (d =? LBRACKET) || ((d =? NEWLINE) && null r)
  end.

(** What the lazy [.+?] takes after its first character (DOTALL: any
    character): the shortest run after which the lookahead holds. *)
Fixpoint lazy_body (s : str) : str :=
  match s with
  | [] => []
  | d :: r => if lookahead_stop s then [] else d :: lazy_body r
  end.

(** Group 1 of [re.search(r"【答え】(.+?)(?=【|$)", text, re.DOTALL)]. *)
Fixpoint search_answer_section (text : str) : option str :=
  match text with
  | [] => None
  | _ :: r =>
    if startswith text ANSWER_MARKER then
      match skipn (length ANSWER_MARKER) text with
      | d :: rest => Some (d :: lazy_body rest)
      | [] => search_answer_section r
      end
    else search_answer_section r
  end.

(** Group 1 of [re.search(rf"{c}([^①②③④⑤⑥⑦⑧⑨⑩\n]+)", answer_text)]. *)
Fixpoint search_item (c : char) (text : str) : option str :=
  match text with
  | [] => None
  | x :: rest =>
    if (x =? c) && negb (null (item_run rest)) then Some (item_run rest)
    else search_item c rest
  end.

Definition answer_step (answer_text : str) (acc : list str) (c : char)
  : list str :=
  match search_item c answer_text with
  | Some g => acc ++ [strip g]
  | None => acc
  end.

Definition collect_answers (text : str) : list str :=
  match search_answer_section text with
  | Some answer_text => fold_left (answer_step answer_text) circled_numbers []
  | None => []
  end.

(** *** extract_readings *)

(** The class [[ぁ-んァ-ン]]. *)
Definition is_kana (c : char) : bool :=
  ((0x3041 <=? c) && (c <=? 0x3093)) || ((0x30A1 <=? c) && (c <=? 0x30F3)).

Fixpoint kana_run (s : str) : str :=
  match s with
  | [] => []
  | c :: r => if is_kana c then c :: kana_run r else []
  end.

(** A match of [verb], an opening character, a non-empty run of kana and a
    closing character at the start of [s]; the closing characters are not
    kana, so only the longest run can be followed by one. *)
Definition match_reading_at (verb : str) (opening closing : list char)
    (s : str) : option str :=
  if startswith s verb then
    match skipn (length verb) s with
    | o :: r =>
      if existsb (N.eqb o) opening then
        match kana_run r, skipn (length (kana_run r)) r with
        | k :: ks, c :: _ =>
          if existsb (N.eqb c) closing then Some (k :: ks) else None
        | _, _ => None
        end
      else None
    | [] => None
    end
  else None.

Fixpoint search_reading (verb : str) (opening closing : list char)
    (text : str) : option str :=
  match match_reading_at verb opening closing text with
  | Some k => Some k
  | None =>
    match text with
    | [] => None
    | _ :: r => search_reading verb opening closing r
    end
  end.

Definition OPEN_PARENS : list char := Eval vm_compute in u "（(".
Definition CLOSE_PARENS : list char := Eval vm_compute in u "）)".

(** [extract_readings], on the text of the whole page. *)
Definition extract_readings (text verb : str) : option str :=
  match search_reading verb OPEN_PARENS CLOSE_PARENS text with
  | Some k => Some k
  | None => search_reading verb [LBRACKET] [RBRACKET] text
  end.

(** *** Records, pages and the world of the scraper *)

Record VerbForm : Type := {
  kanji : str;
  reading : option str;
  examples : list str
}.

Record ImageEntry : Type := {
  filename : str;
  original_url : str;
  alt : str
}.

Record VerbPairRecord : Type := {
  id : str;
  title : str;
  level : str;
  intransitive : VerbForm;
  transitive : VerbForm;
  practice_questions : list str;
  answers : list str;
  images : list ImageEntry;
  source_url : str;
  attribution : str
}.

(** An [<img>] element, with its [src] and [alt] attributes (empty when
    absent). *)
Record Img : Type := { img_src : str; img_alt : str }.

(** What [parse_article] reads from the parsed page. *)
Record Page : Type := {
  (* get_text(strip=True) of the first element the title selectors find *)
  page_title : option str;
  (* get_text() of the content element, or of the page without one *)
  page_content_text : str;
  (* select("img") in that element *)
  page_imgs : list Img;
  (* get_text() of the whole page *)
  page_text : str
}.

(** The documents written under [DATA_DIR]. *)
Inductive JsonDoc : Type :=
| DocRecord (r : VerbPairRecord)
| DocLevel (rs : list VerbPairRecord)
| DocAll (levels : list (str * list VerbPairRecord)).

(** What the script does to the outside, most recent first.  A printed line
    is kept as its fixed words and the values put into it. *)
Inductive Event : Type :=
| Sleep (milliseconds : N)
| HttpGet (url : str)
| Output (line : list str).

Record World : Type := {
  trace : list Event;
  IMAGES_DIR : gmap str (list N);
  DATA_DIR : gmap str JsonDoc
}.

(** The world after some more events (given most recent first). *)
Definition after (events : list Event) (w : World) : World :=
  {| trace := events ++ trace w;
     IMAGES_DIR := IMAGES_DIR w; DATA_DIR := DATA_DIR w |}.

Definition emit (e : Event) : M World unit := modify (after [e]).

(** The two directories of the script. *)
Inductive Folder : Type := Images | Data.

(** The world with one more file, or with a file replaced. *)
Definition with_image (name : str) (content : list N) (w : World) : World :=
  {| trace := trace w; IMAGES_DIR := <[name := content]> (IMAGES_DIR w);
     DATA_DIR := DATA_DIR w |}.

Definition with_json (name : str) (doc : JsonDoc) (w : World) : World :=
  {| trace := trace w; IMAGES_DIR := IMAGES_DIR w;
     DATA_DIR := <[name := doc]> (DATA_DIR w) |}.

(** The delay between requests, 1.0 second, in milliseconds. *)
Definition REQUEST_DELAY : N := 1000.

Definition ATTRIBUTION : str :=
  Eval vm_compute in u "Source: edewakaru.com (絵でわかる日本語)".
Definition HOST_RESIZE : str := Eval vm_compute in u "resize.blogsys.jp".
Definition HOST_LIVEDOOR : str := Eval vm_compute in u "livedoor.blogimg.jp".
Definition UNDERSCORE : str := Eval vm_compute in u "_".
Definition SPACE : char := 0x20.
Definition DOT_JPG : str := Eval vm_compute in u ".jpg".
Definition DOT_JSON : str := Eval vm_compute in u ".json".

Local Open Scope eff_scope.

Section Environment.

(** The libraries and the web, as the scraper sees them. *)

(** [hashlib.md5(s.encode()).hexdigest()] *)
Variable md5_hexdigest : str -> str.
(** [Path(urlparse(url).path).suffix] *)
Variable url_path_suffix : str -> str.
(** The answer of the web to a GET after the events so far: the parsed page,
    or the image bytes; [None] is a failed request or an error status. *)
Variable web_page : list Event -> str -> option Page.
Variable web_image : list Event -> str -> option (list N).
(** Whether [open(folder / name, "w")] (or ["wb"]) succeeds in a world.  It
    does not for a name with a slash that leads into a directory that is not
    there, or for a name that the file system refuses; the [OSError] is
    raised before anything is written. *)
Variable writable : World -> Folder -> str -> bool.

(** [with open(IMAGES_DIR / name, "wb") as f: f.write(content)] *)
Definition write_image (name : str) (content : list N) : M World unit :=
  ok <- gets (fun w => writable w Images name) ;;
  if ok : bool then modify (with_image name content)
  else raise (PyException (u "OSError")).

(** [with open(DATA_DIR / name, "w") as f: json.dump(doc, f)] *)
Definition write_json (name : str) (doc : JsonDoc) : M World unit :=
  ok <- gets (fun w => writable w Data name) ;;
  if ok : bool then modify (with_json name doc)
  else raise (PyException (u "OSError")).

(** [requests.get(url, ...)] followed by [raise_for_status()]. *)
Definition requests_get {A} (web : list Event -> str -> option A) (url : str)
  : M World A :=
  before <- gets trace ;;
  emit (HttpGet url) ;;
  match web before url with
  | Some a => ret a
  | None => raise RequestException
  end.

Definition fetch_page (url : str) : M World (option Page) :=
  try_except
    (emit (Sleep REQUEST_DELAY) ;;
     soup <- requests_get web_page url ;;
     ret (Some soup))
    is_RequestException
    (fun _ => emit (Output [u "Error fetching"; url]) ;; ret None).

(** The local file name of an image: [f"{verb_pair_id}_{url_hash}{ext}"]. *)
Definition image_filename (img_url verb_pair_id : str) : str :=
  let url_hash := firstn 8 (md5_hexdigest img_url) in
  let ext := if null (url_path_suffix img_url) then DOT_JPG
             else url_path_suffix img_url in
  verb_pair_id ++ UNDERSCORE ++ url_hash ++ ext.

Definition download_image (img_url verb_pair_id : str) : M World (option str) :=
  try_except
    (let filename := image_filename img_url verb_pair_id in
     existing <- gets (fun w => IMAGES_DIR w !! filename) ;;
     match existing with
     | Some _ => ret (Some filename)
     | None =>
       emit (Sleep (REQUEST_DELAY / 2)) ;;
       content <- requests_get web_image img_url ;;
       write_image filename content ;;
       ret (Some filename)
     end)
    is_Exception
    (fun _ => emit (Output [u "Error downloading image"; img_url]) ;; ret None).

(** The [for img in img_tags[:5]] loop. *)
Fixpoint download_images (verb_id : str) (imgs : list Img)
    (images : list ImageEntry) : M World (list ImageEntry) :=
  match imgs with
  | [] => ret images
  | img :: rest =>
    let src := img_src img in
    if (negb (null src) && isin HOST_RESIZE src) || isin HOST_LIVEDOOR src then
      got <- download_image src verb_id ;;
      match got with
      | Some name =>
        if null name then download_images verb_id rest images
        else download_images verb_id rest
               (images ++ [{| filename := name; original_url := src;
                              alt := img_alt img |}])
      | None => download_images verb_id rest images
      end
    else download_images verb_id rest images
  end.

(** The record id: the f-string [{intransitive}_{transitive}] with its
    spaces replaced by nothing. *)
Definition make_verb_id (intransitive transitive : str) : str :=
  replace SPACE [] (intransitive ++ UNDERSCORE ++ transitive).

(** The dictionary [parse_article] returns, from the page, the pair of the
    title and the images that were downloaded. *)
Definition article_record (url level title intransitive transitive : str)
    (soup : Page) (images : list ImageEntry) : VerbPairRecord :=
  let verb_id := make_verb_id intransitive transitive in
  let text := page_content_text soup in
  let found := collect_examples intransitive transitive text in
  let practice_questions := collect_practice_questions text in
  let answers := collect_answers text in
  let intransitive_reading := extract_readings (page_text soup) intransitive in
  let transitive_reading := extract_readings (page_text soup) transitive in
  {| id := verb_id;
     title := title;
     level := level;
     intransitive := {| kanji := intransitive;
                        reading := intransitive_reading;
                        examples := firstn 3 (fst found) |};
     transitive := {| kanji := transitive;
                      reading := transitive_reading;
                      examples := firstn 3 (snd found) |};
     practice_questions := firstn 10 practice_questions;
     answers := answers;
     images := images;
     source_url := url;
     attribution := ATTRIBUTION |}.

(** A record that [parse_article] builds for an article of a level: from a
    page whose title parses, with the images of at most five elements. *)
Definition extracted (level : str) (r : VerbPairRecord) : Prop :=
  exists url title a b soup images,
    page_title soup = Some title /\
    parse_verb_pair_title title = Some (a, b) /\
    (length images <= 5)%nat /\
    r = article_record url level title a b soup images.

Definition parse_article (url level : str) : M World (option VerbPairRecord) :=
  emit (Output [u "Parsing:"; url]) ;;
  soup <- fetch_page url ;;
  match soup with
  | None => ret None
  | Some soup =>
    match page_title soup with
    | None => emit (Output [u "Could not find title"]) ;; ret None
    | Some title =>
      match parse_verb_pair_title title with
      | None =>
        emit (Output [u "Could not parse verb pair from:"; title]) ;; ret None
      | Some (intransitive, transitive) =>
        let verb_id := make_verb_id intransitive transitive in
        images <- download_images verb_id (firstn 5 (page_imgs soup)) [] ;;
        ret (Some (article_record url level title intransitive transitive
                                  soup images))
      end
    end
  end.

(** The loop of [scrape_level] over [article_urls], the list that
    [get_article_urls_from_category] returned; each record is written to
    [DATA_DIR / f"{data['id']}.json"]. *)
Fixpoint scrape_articles (level : str) (article_urls : list str)
    (results : list VerbPairRecord) : M World (list VerbPairRecord) :=
  match article_urls with
  | [] => ret results
  | url :: rest =>
    data <- parse_article url level ;;
    match data with
    | Some data =>
      write_json (id data ++ DOT_JSON) (DocRecord data) ;;
      emit (Output [u "Saved:"; id data ++ DOT_JSON]) ;;
      scrape_articles level rest (results ++ [data])
    | None => scrape_articles level rest results
    end
  end.

(** [scrape_level] from the loop on: the banner and the call of the paginator
    before it only produce [article_urls]. *)
Definition scrape_level (level : str) (article_urls : list str)
  : M World (list VerbPairRecord) :=
  scrape_articles level article_urls [].

End Environment.

End Scraper.

(** ** anki_sync.py *)

Module AnkiSync.
Import Scraper.

Definition QUOTE : char := 0x22.

Definition DECK_NAME : str := Eval vm_compute in u "Japanese::Verb Pairs".
Definition MODEL_NAME : str := Eval vm_compute in u "Japanese Verb Pair".
Definition BR : str := Eval vm_compute in u "<br>".
Definition LBRACKET_WIDE : char := Eval vm_compute in ch "［".

(** The message of the exception [anki_request] raises for a [URLError]
    (the text of the error, which the source appends, is left out). *)
Definition CANNOT_CONNECT : str :=
  Eval vm_compute in
    u "Cannot connect to Anki. Is Anki running with AnkiConnect?".

Definition VerbPairID : str := Eval vm_compute in u "VerbPairID".
Definition IntransitiveKanji : str := Eval vm_compute in u "IntransitiveKanji".
Definition IntransitiveReading : str :=
  Eval vm_compute in u "IntransitiveReading".
Definition TransitiveKanji : str := Eval vm_compute in u "TransitiveKanji".
Definition TransitiveReading : str := Eval vm_compute in u "TransitiveReading".
Definition Level : str := Eval vm_compute in u "Level".
Definition Image : str := Eval vm_compute in u "Image".
Definition PracticeQuestions : str := Eval vm_compute in u "PracticeQuestions".
Definition Answers : str := Eval vm_compute in u "Answers".
Definition SourceURL : str := Eval vm_compute in u "SourceURL".
Definition Attribution : str := Eval vm_compute in u "Attribution".

(** A [dict] of note fields, in the order of the literal. *)
Definition Fields : Type := list (str * str).

Fixpoint field (name : str) (fields : Fields) : option str :=
  match fields with
  | [] => None
  | (k, v) :: rest => if bool_decide (k = name) then Some v else field name rest
  end.

(** The actions of AnkiConnect the script uses, each with the type of its
    result.  The style sheet and the card templates of [createModel] are
    constant text and are left out. *)
Inductive Action : Type -> Type :=
| version : Action Z
| deckNames : Action (list str)
| createDeck (deck : str) : Action Z
| modelNames : Action (list str)
| createModel (modelName : str) (inOrderFields : list str) : Action unit
| storeMediaFile (filename data : str) : Action (option str)
| findNotes (query : str) : Action (list Z)
| updateNoteFields (note_id : Z) (fields : Fields) : Action unit
| addNote (deckName modelName : str) (fields : Fields) (tags : list str)
  : Action (option Z).

(** The answer to one request: no connection, a response whose [error] is
    set, or a response with its [result]. *)
Inductive Reply (A : Type) : Type :=
| Unreachable
| ErrorReply (error : str)
| Result (result : A).
Arguments Unreachable {A}.
Arguments ErrorReply {A} error.
Arguments Result {A} result.

Inductive SyncEvent : Type :=
| Sent {A} (action : Action A)
| Printed (line : list str).

(** The state of a sync run: what was sent and printed, most recent first. *)
Record Session : Type := { log : list SyncEvent }.

Definition record (e : SyncEvent) : M Session unit :=
  modify (fun s => {| log := e :: log s |}).

(** [str(n)] for a count. *)
Fixpoint digits (d : Decimal.uint) : str :=
  match d with
  | Decimal.Nil => []
  | Decimal.D0 r => 0x30 :: digits r
  | Decimal.D1 r => 0x31 :: digits r
  | Decimal.D2 r => 0x32 :: digits r
  | Decimal.D3 r => 0x33 :: digits r
  | Decimal.D4 r => 0x34 :: digits r
  | Decimal.D5 r => 0x35 :: digits r
  | Decimal.D6 r => 0x36 :: digits r
  | Decimal.D7 r => 0x37 :: digits r
  | Decimal.D8 r => 0x38 :: digits r
  | Decimal.D9 r => 0x39 :: digits r
  end.

Definition str_of_nat (n : nat) : str := digits (Nat.to_uint n).

Definition str_of_Z (z : Z) : str :=
  match z with
  | Zneg p => 0x2D :: digits (Pos.to_uint p)
  | _ => digits (N.to_uint (Z.to_N z))
  end.

(** [str(e)] of a caught exception. *)
Definition message (e : Exn) : str :=
  match e with
  | PyException msg => msg
  | RequestException => u "RequestException"
  | URLError => u "URLError"
  end.

(** Lexicographic order on code points: [<=] on the names of the files of one
    directory, the order [sorted] uses. *)
Fixpoint str_leb (a b : str) : bool :=
  match a, b with
  | [], _ => true
  | _ :: _, [] => false
  | x :: a', y :: b' => (x <? y) || ((x =? y) && str_leb a' b')
  end.

Fixpoint insert_sorted {V} (kv : str * V) (l : list (str * V))
  : list (str * V) :=
  match l with
  | [] => [kv]
  | kv' :: rest =>
    if str_leb (fst kv) (fst kv') then kv :: l
    else kv' :: insert_sorted kv rest
  end.

Definition sorted {V} (l : list (str * V)) : list (str * V) :=
  fold_right insert_sorted [] l.

(** *** format_practice_questions, format_answers *)

Definition has_choices (q : str) : bool :=
  isin [LBRACKET_WIDE] q || isin [LBRACKET] q.

Definition format_practice_questions (questions : list str) : str :=
  let filtered := List.filter has_choices questions in
  let filtered := if null filtered then firstn 5 questions else filtered in
  join BR (firstn 5 filtered).

Definition format_answers (answers : list str) : str :=
  join BR (firstn 5 answers).

(** The lines [check_anki_connection] prints when the check fails, most
    recent first. *)
Definition diagnostic (error : str) : list SyncEvent :=
  [Printed [u "2. AnkiConnect add-on is installed (Code: 2055492159)"];
   Printed [u "1. Anki is running"];
   Printed [u "Make sure:"];
   Printed [u "Error:"; error]].

Local Open Scope eff_scope.

Section Environment.

(** The files the scraper left, AnkiConnect and [base64.b64encode]. *)
Variable images_dir : gmap str (list N).
(** The names for which [IMAGES_DIR / name] is there and is no file that can
    be read: [exists()] holds and [open(..., "rb")] raises an [OSError].  The
    empty name is one, [IMAGES_DIR / ""] being the directory itself. *)
Variable unreadable : str -> bool.
Variable data_dir : gmap str JsonDoc.
Variable b64encode : list N -> str.
(** The answer of AnkiConnect to a request after the events so far. *)
Variable ankiconnect : forall A, list SyncEvent -> Action A -> Reply A.

Definition anki_request {A} (action : Action A) : M Session A :=
  try_except
    (before <- gets log ;;
     record (Sent action) ;;
     match ankiconnect A before action with
     | Unreachable => raise URLError
     | ErrorReply error =>
       raise (PyException (u "AnkiConnect error: " ++ error))
     | Result result => ret result
     end)
    is_URLError
    (fun _ => raise (PyException CANNOT_CONNECT)).

Definition check_anki_connection : M Session bool :=
  try_except
    (v <- anki_request version ;;
     record (Printed [u "Connected to AnkiConnect version"; str_of_Z v]) ;;
     ret true)
    is_Exception
    (fun e =>
       record (Printed [u "Error:"; message e]) ;;
       record (Printed [u "Make sure:"]) ;;
       record (Printed [u "1. Anki is running"]) ;;
       record (Printed
         [u "2. AnkiConnect add-on is installed (Code: 2055492159)"]) ;;
       ret false).

Definition ensure_deck_exists : M Session unit :=
  decks <- anki_request deckNames ;;
  if negb (bool_decide (DECK_NAME ∈ decks)) then
    anki_request (createDeck DECK_NAME) ;;
    record (Printed [u "Created deck:"; DECK_NAME])
  else record (Printed [u "Deck exists:"; DECK_NAME]).

Definition MODEL_FIELDS : list str :=
  [VerbPairID; IntransitiveKanji; IntransitiveReading; TransitiveKanji;
   TransitiveReading; Level; Image; PracticeQuestions; Answers; SourceURL;
   Attribution].

Definition ensure_model_exists : M Session unit :=
  models <- anki_request modelNames ;;
  if negb (bool_decide (MODEL_NAME ∈ models)) then
    anki_request (createModel MODEL_NAME MODEL_FIELDS) ;;
    record (Printed [u "Created model:"; MODEL_NAME])
  else record (Printed [u "Model exists:"; MODEL_NAME]).

Definition store_image (filename : str) : M Session (option str) :=
  match images_dir !! filename with
  | None =>
    if unreadable filename then raise (PyException (u "OSError"))
    else ret None
  | Some content =>
    let data := b64encode content in
    stored_name <- anki_request (storeMediaFile filename data) ;;
    match stored_name with
    | Some name => if null name then ret (Some filename) else ret (Some name)
    | None => ret (Some filename)
    end
  end.

(** [x or <empty string>] on an optional string. *)
Definition or_empty (x : option str) : str :=
  match x with Some s => s | None => [] end.

(** The [fields] dictionary of [add_or_update_note]. *)
Definition note_fields (verb_data : VerbPairRecord) (image_field : str)
  : Fields :=
  [(VerbPairID, id verb_data);
   (IntransitiveKanji, kanji (intransitive verb_data));
   (IntransitiveReading, or_empty (reading (intransitive verb_data)));
   (TransitiveKanji, kanji (transitive verb_data));
   (TransitiveReading, or_empty (reading (transitive verb_data)));
   (Level, level verb_data);
   (Image, image_field);
   (PracticeQuestions,
    format_practice_questions (practice_questions verb_data));
   (Answers, format_answers (answers verb_data));
   (SourceURL, source_url verb_data);
   (Attribution, attribution verb_data)].

Definition add_or_update_note (verb_data : VerbPairRecord) : M Session bool :=
  let verb_id := id verb_data in
  existing <- anki_request (findNotes
    ([QUOTE] ++ u "deck:" ++ DECK_NAME ++ [QUOTE] ++ u " " ++
     [QUOTE] ++ u "VerbPairID:" ++ verb_id ++ [QUOTE])) ;;
  image_field <-
    match images verb_data with
    | first_image :: _ =>
      stored_name <- store_image (filename first_image) ;;
      match stored_name with
      | Some name =>
        if null name then ret []
        else ret (u "<img src=" ++ [QUOTE] ++ name ++ [QUOTE] ++ u ">")
      | None => ret []
      end
    | [] => ret []
    end ;;
  let fields := note_fields verb_data image_field in
  match existing with
  | note_id :: _ =>
    anki_request (updateNoteFields note_id fields) ;;
    record (Printed [u "Updated:"; verb_id]) ;;
    ret false
  | [] =>
    anki_request (addNote DECK_NAME MODEL_NAME fields
      [u "level:" ++ level verb_data; u "verb-pair"; u "edewakaru"]) ;;
    record (Printed [u "Added:"; verb_id]) ;;
    ret true
  end.

(** [add_or_update_note(data)] on a loaded document: only a record has the
    keys the function reads. *)
Definition add_or_update_doc (doc : JsonDoc) : M Session bool :=
  match doc with
  | DocRecord verb_data => add_or_update_note verb_data
  | DocLevel _ => raise (PyException (u "TypeError"))
  | DocAll _ => raise (PyException (u "KeyError"))
  end.

(** The counting loop of both sync functions. *)
Fixpoint sync_loop (docs : list JsonDoc) (added updated : nat)
  : M Session (nat * nat) :=
  match docs with
  | [] => ret (added, updated)
  | data :: rest =>
    is_new <- add_or_update_doc data ;;
    if is_new : bool then sync_loop rest (S added) updated
    else sync_loop rest added (S updated)
  end.

Definition VERB_PAIRS_JSON : str := Eval vm_compute in u "_verb_pairs.json".

(** [sorted(f for f in DATA_DIR.glob("*.json") if not
    f.name.endswith("_verb_pairs.json"))], with the document of each file. *)
Definition json_files : list (str * JsonDoc) :=
  sorted (List.filter
            (fun f => endswith (fst f) DOT_JSON
                      && negb (endswith (fst f) VERB_PAIRS_JSON))
            (map_to_list data_dir)).

Definition sync_all_verb_pairs : M Session unit :=
  ok <- check_anki_connection ;;
  if negb ok then ret tt
  else
    ensure_deck_exists ;;
    ensure_model_exists ;;
    record (Printed [u "Syncing"; str_of_nat (length json_files)]) ;;
    counts <- sync_loop (List.map snd json_files) 0 0 ;;
    record (Printed [u "Sync complete!"]) ;;
    record (Printed [u "Added:"; str_of_nat (fst counts)]) ;;
    record (Printed [u "Updated:"; str_of_nat (snd counts)]) ;;
    record (Printed [u "Total:"; str_of_nat (fst counts + snd counts)]).

(** [sync_level] from the loaded data on, when the data is a dictionary of
    [keys] keys: [len(data)] is the number of keys and the loop is over the
    keys, strings, on the first of which [verb_data["id"]] raises
    [TypeError] before any request. *)
Definition sync_dict (level : str) (keys : nat) : M Session unit :=
  record (Printed [u "Syncing"; str_of_nat keys; level]) ;;
  match keys with
  | O =>
    record (Printed [u "Sync complete!"]) ;;
    record (Printed [u "Added:"; str_of_nat 0]) ;;
    record (Printed [u "Updated:"; str_of_nat 0])
  | S _ => raise (PyException (u "TypeError"))
  end.

(** The number of keys of the dictionary of a record. *)
Definition RECORD_KEYS : nat := 10.

Definition sync_level (level : str) : M Session unit :=
  ok <- check_anki_connection ;;
  if negb ok then ret tt
  else
    ensure_deck_exists ;;
    ensure_model_exists ;;
    match data_dir !! (level ++ VERB_PAIRS_JSON) with
    | None => record (Printed [u "Level file not found:"; level])
    | Some (DocLevel data) =>
      record (Printed [u "Syncing"; str_of_nat (length data); level]) ;;
      counts <- sync_loop (List.map DocRecord data) 0 0 ;;
      record (Printed [u "Sync complete!"]) ;;
      record (Printed [u "Added:"; str_of_nat (fst counts)]) ;;
      record (Printed [u "Updated:"; str_of_nat (snd counts)])
    | Some (DocRecord _) => sync_dict level RECORD_KEYS
    | Some (DocAll levels) => sync_dict level (length levels)
    end.

(** The request [e] found AnkiConnect unreachable, [history] being the
    events before it. *)
Definition unreachable_at (history : list SyncEvent) (e : SyncEvent) : bool :=
  match e with
  | Sent a =>
    match ankiconnect _ history a with Unreachable => true | _ => false end
  | Printed _ => false
  end.

(** A computation that an unreachable AnkiConnect ends: for every request of
    the computation (the event [e] of its new events) that found it
    unreachable, nothing follows the request and the computation raises. *)
Definition ends_when_unreachable {A} (c : M Session A) : Prop :=
  forall s out s', c s = (out, s') ->
    exists new, log s' = new ++ log s /\
      forall later e before, new = later ++ e :: before ->
        unreachable_at (before ++ log s) e = true ->
        later = [] /\ out = Raised (PyException CANNOT_CONNECT).

End Environment.

(** The fields of a request that writes a note. *)
Definition note_sent (e : SyncEvent) : option Fields :=
  match e with
  | Sent a =>
    match a with
    | updateNoteFields _ fields => Some fields
    | addNote _ _ fields _ => Some fields
    | _ => None
    end
  | Printed _ => None
  end.

(** The questions that go into a note: those with choices if there are any,
    else all of them; the first five. *)
Definition selected_questions (questions : list str) : list str :=
  let preferred := List.filter has_choices questions in
  firstn 5 (if null preferred then questions else preferred).

End AnkiSync.

(** ** The heuristics as the specification words them *)

Module Stated.
Import Scraper.

(** [x] occurs in [s]. *)
Definition contains (x s : str) : Prop := exists pre post, s = pre ++ x ++ post.

(** A line is an example of one side: it holds the kanji of that side and
    its particle, and either the grammar term (strong) or fewer than 100
    characters (weak). *)
Definition is_example (particle verb marker line : str) : bool :=
  isin verb line && isin particle line
  && (isin marker line || (length line <? 100)%nat).

Definition is_glyph (c : char) : bool := existsb (N.eqb c) circled_numbers.

Definition LATE_GLYPHS : str := Eval vm_compute in u "⑪⑫⑬⑭⑮".

(** The glyphs ⑪…⑮, which the class of the patterns does not list. *)
Definition is_late_glyph (c : char) : bool := existsb (N.eqb c) LATE_GLYPHS.

(** The text up to, and without, the next circled glyph of any kind. *)
Fixpoint run_to_glyph (s : str) : str :=
  match s with
  | [] => []
  | x :: r => if is_glyph x then [] else x :: run_to_glyph r
  end.

(** The same, a newline ending the run as well. *)
Fixpoint run_to_glyph_or_newline (s : str) : str :=
  match s with
  | [] => []
  | x :: r =>
    if is_glyph x || (x =? NEWLINE) then [] else x :: run_to_glyph_or_newline r
  end.

(** One item for every occurrence of the glyph [c]: the glyph and the run
    that follows it. *)
Fixpoint glyph_items (run : str -> str) (c : char) (text : str) : list str :=
  match text with
  | [] => []
  | x :: rest =>
    if x =? c then (c :: run rest) :: glyph_items run c rest
    else glyph_items run c rest
  end.

(** A closing bracket is appended to an item with 【 and without 】. *)
Definition repair (m : str) : str :=
  if isin [LBRACKET] m && negb (isin [RBRACKET] m) then m ++ [RBRACKET] else m.

(** The minimal length of an item. *)
Definition long_enough (m : str) : bool := (5 <? length m)%nat.

(** Practice questions as C5 states them: runs end at the next glyph only. *)
Definition practice_questions_stated (text : str) : list str :=
  firstn 10
    (flat_map (fun c =>
       List.filter long_enough (List.map repair (glyph_items run_to_glyph c text)))
       circled_numbers).

(** Practice questions with runs that end at the next glyph or newline, each
    item trimmed after the test of its length. *)
Definition practice_questions_by_line (text : str) : list str :=
  firstn 10
    (flat_map (fun c =>
       List.map strip
         (List.filter long_enough
            (List.map repair (glyph_items run_to_glyph_or_newline c text))))
       circled_numbers).

End Stated.

(** ** Concrete pages and worlds, for the examples *)

Module Examples.
Import Scraper.

Definition ARTICLE_URL : str :=
  Eval vm_compute in u "https://www.edewakaru.com/archives/1.html".
Definition IMAGE_URL : str :=
  Eval vm_compute in
    u "https://livedoor.blogimg.jp/edewakaru/imgs/a/b/ab12cd34.jpg".
Definition BEGINNER : str := Eval vm_compute in u "beginner".

(** The two library functions, tabulated on the image of the examples. *)
Definition md5_hexdigest (s : str) : str :=
  if bool_decide (s = IMAGE_URL) then u "d22ded38383c4f9549ab3ee0743084e6"
  else u "d41d8cd98f00b204e9800998ecf8427e".

Definition url_path_suffix (s : str) : str :=
  if bool_decide (s = IMAGE_URL) then u ".jpg" else [].

Definition BODY : str :=
  Eval vm_compute in
    u "ドアが開く" ++ [NEWLINE] ++ u "ドアを開ける" ++ [NEWLINE]
    ++ u "①ドアが【開く,開ける】うえおか②かきくけこさ" ++ [NEWLINE]
    ++ u "【答え】①開く②開ける【次】".

(** An article with the given heading. *)
Definition page_titled (heading : str) : Page :=
  {| page_title := Some heading;
     page_content_text := BODY;
     page_imgs := [{| img_src := IMAGE_URL; img_alt := u "door" |}];
     page_text := u "開く（あく）" |}.

(** A web that serves one page for every address, and one that is down. *)
Definition serving {A} (a : A) : list Event -> str -> option A :=
  fun _ _ => Some a.
Definition down {A} : list Event -> str -> option A := fun _ _ => None.

(** A file system that refuses the names with a slash: the two directories
    have no directory inside. *)
Definition SLASH : char := 0x2F.
Definition flat : World -> Folder -> str -> bool :=
  fun _ _ name => negb (existsb (N.eqb SLASH) name).

Definition IMAGE_BYTES : list N := [0xFF; 0xD8; 0xFF].

Definition empty_world : World :=
  {| trace := []; IMAGES_DIR := ∅; DATA_DIR := ∅ |}.

Definition DOOR_TITLE : str := Eval vm_compute in u "開く・開ける｜自動詞・他動詞".
Definition DOOR_IMAGE : str := Eval vm_compute in u "開く_開ける_d22ded38.jpg".

(** The record of the article titled [DOOR_TITLE]. *)
Definition door_record : VerbPairRecord :=
  article_record ARTICLE_URL BEGINNER DOOR_TITLE (u "開く") (u "開ける")
    (page_titled DOOR_TITLE)
    [{| filename := DOOR_IMAGE; original_url := IMAGE_URL; alt := u "door" |}].

(** A heading without any separator, and one with two separators. *)
Definition PLAIN_TITLE : str := Eval vm_compute in u "開く開ける".
Definition SLASH_TITLE : str := Eval vm_compute in u "開く・開ける/あける".

(** A world in which the image of that article is already there. *)
Definition world_with_image : World :=
  {| trace := []; IMAGES_DIR := {[ DOOR_IMAGE := IMAGE_BYTES ]};
     DATA_DIR := ∅ |}.

(** The scraper on a web that serves [page_titled heading] everywhere. *)
Definition parse_titled (heading : str)
  : Outcome (option VerbPairRecord) * World :=
  parse_article md5_hexdigest url_path_suffix (serving (page_titled heading))
                (serving IMAGE_BYTES) flat ARTICLE_URL BEGINNER
                empty_world.

Definition scrape_titled (heading : str)
  : Outcome (list VerbPairRecord) * World :=
  scrape_level md5_hexdigest url_path_suffix (serving (page_titled heading))
               (serving IMAGE_BYTES) flat BEGINNER [ARTICLE_URL]
               empty_world.

(** *** The sync side *)

Import AnkiSync.

(** [base64.b64encode] on the image of the examples. *)
Definition b64encode (content : list N) : str := u "/9j/".

(** An image directory in which the empty name alone, the directory itself,
    is there without being a file. *)
Definition only_the_directory (name : str) : bool := null name.

(** An AnkiConnect that accepts everything: no deck, the model is there, no
    note is found. *)
Definition accepting : forall A, list SyncEvent -> Action A -> Reply A :=
  fun A history action =>
    match action in Action T return Reply T with
    | version => Result 6%Z
    | deckNames => Result []
    | createDeck _ => Result 1%Z
    | modelNames => Result [MODEL_NAME]
    | createModel _ _ => Result tt
    | storeMediaFile name _ => Result (Some name)
    | findNotes _ => Result []
    | updateNoteFields _ _ => Result tt
    | addNote _ _ _ _ => Result (Some 1%Z)
    end.

(** One that cannot be reached at all, and one that is lost after [n]
    events of the run. *)
Definition unreachable : forall A, list SyncEvent -> Action A -> Reply A :=
  fun A history action => Unreachable.

Definition reachable_for (n : nat)
  : forall A, list SyncEvent -> Action A -> Reply A :=
  fun A history action =>
    if (length history <? n)%nat then accepting A history action
    else Unreachable.

(** A record with seven questions, the first without choices, and seven
    answers. *)
Definition quiz_record : VerbPairRecord :=
  {| id := u "消える_消す";
     title := u "消える・消す";
     level := BEGINNER;
     intransitive := {| kanji := u "消える"; reading := None; examples := [] |};
     transitive := {| kanji := u "消す"; reading := None; examples := [] |};
     practice_questions :=
       [u "①電気が消える"; u "②電気【が,を】消す"; u "③火【が,を】消える";
        u "④火［が,を］消す"; u "⑤字【が,を】消える"; u "⑥字【が,を】消す";
        u "⑦音【が,を】消える"];
     answers := [u "が"; u "を"; u "が"; u "を"; u "が"; u "を"; u "が"];
     images := [];
     source_url := ARTICLE_URL;
     attribution := ATTRIBUTION |}.

(** A data directory with two records and the combined file of a level. *)
Definition two_records : gmap str JsonDoc :=
  <[u "開く_開ける.json" := DocRecord door_record]>
    (<[u "消える_消す.json" := DocRecord quiz_record]>
       (<[u "beginner_verb_pairs.json" := DocLevel [door_record; quiz_record]]>
          ∅)).

Definition fresh_session : Session := {| log := [] |}.

(** The number of requests in a log that write a note. *)
Definition notes_written (events : list SyncEvent) : nat :=
  length (List.filter
            (fun e => match note_sent e with Some _ => true | None => false end)
            events).

End Examples.

(** ** scraper.py: the category pages and the entry points *)

Module Crawl.
Import Scraper AnkiSync.

Definition BASE_URL : str := Eval vm_compute in u "https://www.edewakaru.com".
Definition BEGINNER : str := Eval vm_compute in u "beginner".
Definition INTERMEDIATE : str := Eval vm_compute in u "intermediate".
Definition ADVANCED : str := Eval vm_compute in u "advanced".
Definition BEGINNER_URL : str :=
  Eval vm_compute in u "https://www.edewakaru.com/archives/cat_116824.html".
Definition INTERMEDIATE_URL : str :=
  Eval vm_compute in u "https://www.edewakaru.com/archives/cat_116825.html".
Definition ADVANCED_URL : str :=
  Eval vm_compute in u "https://www.edewakaru.com/archives/cat_116826.html".

(** The dictionary [CATEGORY_URLS], in the order of its items. *)
Definition CATEGORY_URLS : list (str * str) :=
  [(BEGINNER, BEGINNER_URL); (INTERMEDIATE, INTERMEDIATE_URL);
   (ADVANCED, ADVANCED_URL)].

Definition ARCHIVES : str := Eval vm_compute in u "/archives/".
Definition DOT_HTML : str := Eval vm_compute in u ".html".
Definition CAT : str := Eval vm_compute in u "cat_".
Definition CURRENT : str := Eval vm_compute in u "current".
Definition ALL_VERB_PAIRS_JSON : str :=
  Eval vm_compute in u "all_verb_pairs.json".
Definition BEGINNER_VERB_PAIRS_JSON : str :=
  Eval vm_compute in u "beginner_verb_pairs.json".

(** An anchor of the pager: its [class] attribute and that of its parent
    (empty when absent), its text, and its [href], if it has one. *)
Record PagerLink : Type := {
  link_class : list str;
  parent_class : list str;
  link_text : str;
  link_href : option str
}.

(** The test of the first pager loop:
    ["current" in p.get("class", []) or p.parent.get("class", []) == ["current"]]. *)
Definition is_current (p : PagerLink) : bool :=
  bool_decide (CURRENT ∈ link_class p) || bool_decide (parent_class p = [CURRENT]).

Local Open Scope eff_scope.

Section Environment.

Variable md5_hexdigest : str -> str.
Variable url_path_suffix : str -> str.
Variable web_page : list Event -> str -> option Page.
Variable web_image : list Event -> str -> option (list N).
Variable writable : World -> Folder -> str -> bool.

(** [urljoin(base, url)]; [None] is the [ValueError] that it raises on an
    address it cannot parse. *)
Variable urljoin : str -> str -> option str.
(** [int(s)]; [None] is a [ValueError]. *)
Variable py_int : str -> option Z.
(** The [href] (empty when absent) of the elements that
    [soup.select(".article-title a, h2.article-title a, .article-body a")]
    finds, in their order. *)
Variable article_hrefs : Page -> list str.
(** The [href] (empty when absent) of the element that
    [soup.select_one] finds for the selectors of the next page, if any. *)
Variable next_link : Page -> option str.
(** [soup.select(".pager a, .pagination a")] *)
Variable pager : Page -> list PagerLink.

(** The [for a in articles] loop on the list [urls]; [None] when [urljoin]
    raises on an accepted link. *)
Fixpoint collect_article_urls (hrefs : list str) (urls : list str)
  : option (list str) :=
  match hrefs with
  | [] => Some urls
  | href :: rest =>
    if isin ARCHIVES href && endswith href DOT_HTML && negb (isin CAT href)
    then
      match urljoin BASE_URL href with
      | Some full_url =>
        if bool_decide (full_url ∈ urls) then collect_article_urls rest urls
        else collect_article_urls rest (urls ++ [full_url])
      | None => None
      end
    else collect_article_urls rest urls
  end.

(** The first pager loop: the number of the last current anchor whose text
    is a number. *)
Fixpoint find_current_page (links : list PagerLink) (current_page : option Z)
  : option Z :=
  match links with
  | [] => current_page
  | p :: rest =>
    if is_current p then
      match py_int (strip (link_text p)) with
      | Some n => find_current_page rest (Some n)
      | None => find_current_page rest current_page
      end
    else find_current_page rest current_page
  end.

(** The second pager loop: the [href] of the first anchor whose text is the
    number after [current_page]; [None] also when there is no such anchor. *)
Fixpoint find_next_page_link (links : list PagerLink) (current_page : Z)
  : option str :=
  match links with
  | [] => None
  | p :: rest =>
    match py_int (strip (link_text p)) with
    | Some n =>
      if (n =? current_page + 1)%Z then link_href p
      else find_next_page_link rest current_page
    | None => find_next_page_link rest current_page
    end
  end.

(** The address that is joined to [BASE_URL] for the next value of
    [current_url] at the end of a turn of the loop, for the page of this
    turn; [None] where the source sets [current_url] to [None]. *)
Definition following_href (soup : Page) : option str :=
  match next_link soup with
  | Some href => Some href
  | None =>
    let links := pager soup in
    match find_current_page links None with
    | Some current_page =>
      if (current_page =? 0)%Z then None
      else
        match find_next_page_link links current_page with
        | Some next_page_link =>
          if null next_page_link then None else Some next_page_link
        | None => None
        end
    | None => None
    end
  end.

(** The [while current_url] loop, for at most [fuel] turns; the answer is
    [None] when the loop has not ended by then.  A [ValueError] of [urljoin]
    is not caught. *)
Fixpoint category_pages (fuel : nat) (current_url : option str)
    (urls : list str) : M World (option (list str)) :=
  match current_url with
  | None => ret (Some urls)
  | Some url =>
    if null url then ret (Some urls)
    else
      match fuel with
      | O => ret None
      | S fuel =>
        emit (Output [u "Fetching category page:"; url]) ;;
        soup <- fetch_page web_page url ;;
        match soup with
        | None => ret (Some urls)
        | Some soup =>
          match collect_article_urls (article_hrefs soup) urls with
          | None => raise (PyException (u "ValueError"))
          | Some urls =>
            match following_href soup with
            | None => ret (Some urls)
            | Some href =>
              match urljoin BASE_URL href with
              | None => raise (PyException (u "ValueError"))
              | Some next_url => category_pages fuel (Some next_url) urls
              end
            end
          end
        end
      end
  end.

Definition get_article_urls_from_category (fuel : nat) (category_url : str)
  : M World (option (list str)) :=
  category_pages fuel (Some category_url) [].

(** [scrape_level(level, category_url)], whole. *)
Definition scrape_level (fuel : nat) (level category_url : str)
  : M World (option (list VerbPairRecord)) :=
  emit (Output [u "Scraping"; level; u "level from"; category_url]) ;;
  article_urls <- get_article_urls_from_category fuel category_url ;;
  match article_urls with
  | None => ret None
  | Some article_urls =>
    emit (Output [u "Found"; str_of_nat (length article_urls); u "articles"]) ;;
    results <- Scraper.scrape_level md5_hexdigest url_path_suffix web_page
                 web_image writable level article_urls ;;
    ret (Some results)
  end.

(** The [for level, url in CATEGORY_URLS.items()] loop of [scrape_all]; the
    levels are distinct keys, so that [all_data[level] = data] adds an item. *)
Fixpoint scrape_levels (fuel : nat) (categories : list (str * str))
    (all_data : list (str * list VerbPairRecord))
  : M World (option (list (str * list VerbPairRecord))) :=
  match categories with
  | [] => ret (Some all_data)
  | (level, url) :: rest =>
    data <- scrape_level fuel level url ;;
    match data with
    | None => ret None
    | Some data => scrape_levels fuel rest (all_data ++ [(level, data)])
    end
  end.

(** [sum(len(v) for v in all_data.values())] *)
Definition total_pairs (all_data : list (str * list VerbPairRecord)) : nat :=
  list_sum (List.map (fun item => length (snd item)) all_data).

(** [scrape_all()]; the two directories of [ensure_dirs] are there in every
    world, and a printed path is kept as its file name.  [None]: a loop over
    category pages has not ended in [fuel] turns. *)
Definition scrape_all (fuel : nat) : M World (option unit) :=
  all_data <- scrape_levels fuel CATEGORY_URLS [] ;;
  match all_data with
  | None => ret None
  | Some all_data =>
    write_json writable ALL_VERB_PAIRS_JSON (DocAll all_data) ;;
    emit (Output [u "Scraping complete!"]) ;;
    emit (Output [u "Total verb pairs:"; str_of_nat (total_pairs all_data)]) ;;
    emit (Output [u "Combined data saved to:"; ALL_VERB_PAIRS_JSON]) ;;
    ret (Some tt)
  end.

(** [scrape_beginner_only()] *)
Definition scrape_beginner_only (fuel : nat) : M World (option unit) :=
  data <- scrape_level fuel BEGINNER BEGINNER_URL ;;
  match data with
  | None => ret None
  | Some data =>
    write_json writable BEGINNER_VERB_PAIRS_JSON (DocLevel data) ;;
    emit (Output [u "Beginner scraping complete!"]) ;;
    emit (Output [u "Total verb pairs:"; str_of_nat (length data)]) ;;
    emit (Output [u "Data saved to:"; BEGINNER_VERB_PAIRS_JSON]) ;;
    ret (Some tt)
  end.

End Environment.

End Crawl.

(** ** What a run shows to the outside *)

Module Observed.
Import Scraper.

(** Every request of the events (most recent first) comes right after a delay
    of at least half of [REQUEST_DELAY]. *)
Fixpoint delayed (events : list Event) : bool :=
  match events with
  | [] => true
  | HttpGet _ :: rest =>
    match rest with
    | Sleep d :: _ => (REQUEST_DELAY / 2 <=? d) && delayed rest
    | _ => false
    end
  | _ :: rest => delayed rest
  end.

(** The source of an image is on one of the two hosts [parse_article] keeps. *)
Definition trusted_host (src : str) : bool :=
  (negb (null src) && isin HOST_RESIZE src) || isin HOST_LIVEDOOR src.

(** An entry of the images of the record [verb_id], in the world [w]: it
    comes from one of the elements [imgs], its source is on a trusted host,
    its file has the name derived from the source and is there. *)
Definition entry_of (md5_hexdigest url_path_suffix : str -> str)
    (verb_id : str) (imgs : list Img) (w : World) (e : ImageEntry) : Prop :=
  (exists img, In img imgs /\ img_src img = original_url e /\
               img_alt img = alt e) /\
  trusted_host (original_url e) = true /\
  filename e = image_filename md5_hexdigest url_path_suffix (original_url e)
                              verb_id /\
  is_Some (IMAGES_DIR w !! filename e).

(** The test of the article loop on an [href]. *)
Definition article_link (href : str) : bool :=
  isin Crawl.ARCHIVES href && endswith href Crawl.DOT_HTML
  && negb (isin Crawl.CAT href).

(** A data directory in which every file that is not one record has a name
    that ends in [_verb_pairs.json]. *)
Definition tidy (data_dir : gmap str JsonDoc) : Prop :=
  forall name doc, data_dir !! name = Some doc ->
    (exists r, doc = DocRecord r) \/
    endswith name AnkiSync.VERB_PAIRS_JSON = true.

End Observed.

(** ** What a sync run shows to the outside *)

Module SyncObserved.
Import Scraper AnkiSync.

(** The query by which [add_or_update_note] looks for the note of a record:
    the deck and the [VerbPairID], each between double quotes. *)
Definition find_query (verb_id : str) : str :=
  [QUOTE] ++ u "deck:" ++ DECK_NAME ++ [QUOTE] ++ u " " ++
  [QUOTE] ++ u "VerbPairID:" ++ verb_id ++ [QUOTE].

(** The names of a list of files ascend in the order of [str_leb]. *)
Fixpoint ascending {V} (files : list (str * V)) : bool :=
  match files with
  | a :: rest =>
    match rest with
    | b :: _ => str_leb (fst a) (fst b) && ascending rest
    | [] => true
    end
  | [] => true
  end.

(** An AnkiConnect that answers every request with a result. *)
Definition obliging
    (ankiconnect : forall A, list SyncEvent -> Action A -> Reply A) : Prop :=
  forall A history (action : Action A),
    exists result, ankiconnect A history action = Result result.

(** [store_image] can open the first image of the record, if there is one
    and its file is there: the name is that of a file of the image directory,
    or of nothing in it. *)
Definition image_opens (images_dir : gmap str (list N))
    (unreadable : str -> bool) (verb_data : VerbPairRecord) : bool :=
  match images verb_data with
  | [] => true
  | first_image :: _ =>
    match images_dir !! filename first_image with
    | Some _ => true
    | None => negb (unreadable (filename first_image))
    end
  end.

(** The number of requests in a log that write a note. *)
Definition writes (events : list SyncEvent) : nat :=
  length (List.filter
            (fun e => match note_sent e with Some _ => true | None => false end)
            events).

(** The [Image] field for a stored image: an [<img>] tag with the name
    between double quotes. *)
Definition image_tag (name : str) : str :=
  u "<img src=" ++ [QUOTE] ++ name ++ [QUOTE] ++ u ">".

(** The tags of a new note. *)
Definition note_tags (verb_data : VerbPairRecord) : list str :=
  [u "level:" ++ level verb_data; u "verb-pair"; u "edewakaru"].

End SyncObserved.

(** ** Examples for the category pages *)

Module CrawlExamples.
Import Scraper Crawl Examples.

(** A category page: it has no heading. *)
Definition LISTING : Page :=
  {| page_title := None; page_content_text := []; page_imgs := [];
     page_text := u "category" |}.

(** [urljoin] and [int] on the addresses and numbers of the examples; an
    address that opens with two slashes and a bracket is one that [urljoin]
    cannot parse. *)
Definition urljoin (base url : str) : option str :=
  if startswith url (u "//[") then None
  else if startswith url (u "http") then Some url
  else Some (base ++ url).

Definition py_int (s : str) : option Z :=
  if bool_decide (s = u "1") then Some 1%Z
  else if bool_decide (s = u "2") then Some 2%Z
  else None.

(** The links of the category page: the article twice, the category and a
    page outside the archives. *)
Definition article_hrefs (soup : Page) : list str :=
  match page_title soup with
  | None => [u "/archives/1.html"; u "/archives/cat_116824.html";
             u "/archives/1.html"; u "/about.html"]
  | Some _ => []
  end.

Definition no_next_link (soup : Page) : option str := None.
Definition next_is_beginner (soup : Page) : option str :=
  Some (u "/archives/cat_116824.html").

Definition no_pager (soup : Page) : list PagerLink := [].
Definition SECOND_PAGE : str :=
  Eval vm_compute in u "/archives/cat_116824.html?p=2".
Definition numbered_pager (soup : Page) : list PagerLink :=
  [{| link_class := [u "current"]; parent_class := []; link_text := u " 1 ";
      link_href := None |};
   {| link_class := []; parent_class := []; link_text := u "2";
      link_href := Some SECOND_PAGE |}].

(** A web with the category page of the beginner level and its article. *)
Definition site : list Event -> str -> option Page :=
  fun _ url =>
    if bool_decide (url = BEGINNER_URL) then Some LISTING
    else if bool_decide (url = ARTICLE_URL) then Some (page_titled DOOR_TITLE)
    else None.

(** The category loop and the two entry points on that web. *)
Definition crawl_beginner : Outcome (option (list str)) * World :=
  get_article_urls_from_category site urljoin py_int article_hrefs
    no_next_link no_pager 3 BEGINNER_URL empty_world.

Definition scrape_all_site : Outcome (option unit) * World :=
  scrape_all md5_hexdigest url_path_suffix site (serving IMAGE_BYTES)
    flat urljoin py_int article_hrefs no_next_link no_pager 3
    empty_world.

Definition scrape_beginner_site : Outcome (option unit) * World :=
  scrape_beginner_only md5_hexdigest url_path_suffix site (serving IMAGE_BYTES)
    flat urljoin py_int article_hrefs no_next_link no_pager 3
    empty_world.

End CrawlExamples.

(** * Properties *)

(** ** Facts about Python strings *)

Module PyStrFacts.

Lemma startswith_spec (p s : str) :
  startswith s p = true <-> exists r, s = p ++ r.
Proof.
  revert s; induction p as [|a p IH]; intros s; simpl.
  - split; [intros _; now exists s | reflexivity].
  - destruct s as [|b s]; simpl.
    + split; [discriminate | intros [r Hr]; discriminate].
    + rewrite andb_true_iff, N.eqb_eq, IH. split.
      * intros [-> [r ->]]. now exists r.
      * intros [r Hr]. injection Hr as -> ->. split; [reflexivity | now exists r].
Qed.

Lemma isin_spec (x s : str) :
  isin x s = true <-> exists pre post, s = pre ++ x ++ post.
Proof.
  induction s as [|c s IH]; simpl.
  - rewrite orb_false_r, startswith_spec. split.
    + intros [r Hr]. now exists [], r.
    + intros [pre [post H]]. destruct pre; [now exists post |discriminate].
  - rewrite orb_true_iff, startswith_spec, IH. split.
    + intros [[r Hr] | [pre [post H]]].
      * now exists [], r.
      * exists (c :: pre), post. now rewrite H.
    + intros [[|d pre] [post H]].
      * left. now exists post.
      * right. injection H as -> ->. now exists pre, post.
Qed.

Lemma isin_single (c : char) (s : str) : isin [c] s = true <-> In c s.
Proof.
  rewrite isin_spec. split.
  - intros [pre [post ->]]. apply in_or_app. right. now left.
  - intros H. apply in_split in H as [pre [post ->]]. now exists pre, post.
Qed.

Lemma isin_nil (s : str) : isin [] s = true.
Proof. apply isin_spec. now exists [], s. Qed.

(** The number of pieces of a split is one more than the number of
    separators. *)
Lemma split_acc_length (p : char -> bool) (s cur : str) :
  length (split_acc p cur s) = S (length (List.filter p s)).
Proof.
  revert cur; induction s as [|c s IH]; intros cur; simpl; [reflexivity|].
  destruct (p c); simpl; now rewrite IH.
Qed.

Lemma split_acc_no_sep (p : char -> bool) (s cur : str) :
  Forall (fun c => p c = false) s -> split_acc p cur s = [rev cur ++ s].
Proof.
  revert cur; induction s as [|c s IH]; intros cur H; simpl.
  - now rewrite app_nil_r.
  - inversion H as [|? ? Hc Hs]; subst. rewrite Hc, IH by assumption.
    simpl. now rewrite <- app_assoc.
Qed.

Lemma split_acc_app (p : char -> bool) (x y cur : str) (b : char) :
  Forall (fun c => p c = false) x -> p b = true ->
  split_acc p cur (x ++ b :: y) = (rev cur ++ x) :: split_acc p [] y.
Proof.
  revert cur; induction x as [|c x IH]; intros cur Hx Hb; simpl.
  - now rewrite Hb, app_nil_r.
  - inversion Hx as [|? ? Hc Hx']; subst. rewrite Hc, IH by assumption.
    simpl. now rewrite <- app_assoc.
Qed.

Lemma split_by_head (p : char -> bool) (x y : str) (b : char) :
  Forall (fun c => p c = false) x -> p b = true ->
  List.hd [] (split_by p (x ++ b :: y)) = x.
Proof. intros Hx Hb. unfold split_by. now rewrite split_acc_app. Qed.

Lemma split_two (sep : char) (x y : str) :
  ~ In sep x -> ~ In sep y -> split sep (x ++ sep :: y) = [x; y].
Proof.
  intros Hx Hy. unfold split, split_by.
  assert (Hno : forall l, ~ In sep l -> Forall (fun c => (sep =? c) = false) l).
  { intros l Hl. apply List.Forall_forall. intros c Hc. apply N.eqb_neq.
    intros E. apply Hl. now rewrite E. }
  rewrite split_acc_app; [|now apply Hno | apply N.eqb_refl].
  rewrite split_acc_no_sep by now apply Hno. reflexivity.
Qed.

(** [split] yields exactly two pieces iff the separator occurs once. *)
Lemma split_length_two (sep : char) (s : str) :
  length (split sep s) = 2%nat <-> count_occ N.eq_dec s sep = 1%nat.
Proof.
  unfold split, split_by. rewrite split_acc_length.
  assert (E : length (List.filter (N.eqb sep) s) = count_occ N.eq_dec s sep).
  { induction s as [|c s IH]; simpl; [reflexivity|].
    destruct (N.eq_dec c sep) as [->|Hne].
    - rewrite N.eqb_refl. simpl. now rewrite IH.
    - destruct (N.eqb_spec sep c); [congruence | assumption]. }
  rewrite E. lia.
Qed.

(** Trimming stops at a character that is not a space. *)
Lemma lstrip_app_nonspace (x y : str) (c : char) :
  isspace c = false -> lstrip (x ++ c :: y) = lstrip x ++ c :: y.
Proof.
  intros Hc. induction x as [|a x IH]; simpl.
  - now rewrite Hc.
  - destruct (isspace a); [exact IH | reflexivity].
Qed.

Lemma rstrip_app_nonspace (x y : str) (c : char) :
  isspace c = false -> rstrip (x ++ c :: y) = x ++ c :: rstrip y.
Proof.
  unfold rstrip. intros Hc.
  assert (E : rev (x ++ c :: y) = rev y ++ c :: rev x).
  { rewrite rev_app_distr. simpl. now rewrite <- app_assoc. }
  rewrite E, lstrip_app_nonspace by assumption.
  rewrite rev_app_distr. simpl. now rewrite rev_involutive, <- app_assoc.
Qed.

Lemma lstrip_idempotent (s : str) : lstrip (lstrip s) = lstrip s.
Proof.
  induction s as [|c s IH]; simpl; [reflexivity|].
  destruct (isspace c) eqn:E; [exact IH | simpl; now rewrite E].
Qed.

Lemma lstrip_suffix (s : str) : exists ws, s = ws ++ lstrip s.
Proof.
  induction s as [|c s [ws IH]]; simpl; [now exists []|].
  destruct (isspace c); [|now exists []].
  exists (c :: ws). simpl. now rewrite <- IH.
Qed.

(** What [lstrip] removes is a run of spaces, and what it leaves does not
    begin with one. *)
Lemma lstrip_spaces_suffix (s : str) :
  exists ws, List.Forall (fun c => isspace c = true) ws /\ s = ws ++ lstrip s.
Proof.
  induction s as [|c s (ws & Hws & IH)]; simpl; [now exists []|].
  destruct (isspace c) eqn:E; [|now exists []].
  exists (c :: ws). split; [now constructor|]. simpl. now rewrite <- IH.
Qed.

Lemma lstrip_spaces (ws t : str) :
  List.Forall (fun c => isspace c = true) ws -> lstrip (ws ++ t) = lstrip t.
Proof.
  induction 1 as [|c ws Hc _ IH]; simpl; [reflexivity|]. now rewrite Hc.
Qed.

Lemma lstrip_head (s r : str) (c : char) :
  lstrip s = c :: r -> isspace c = false.
Proof.
  induction s as [|a s IH]; simpl; [discriminate|].
  destruct (isspace a) eqn:E; [exact IH|]. intros H. now injection H as <- _.
Qed.

Lemma rstrip_prefix (s : str) : exists ws, s = rstrip s ++ ws.
Proof.
  unfold rstrip. destruct (lstrip_suffix (rev s)) as [ws H].
  exists (rev ws). rewrite <- rev_app_distr, <- H. now rewrite rev_involutive.
Qed.

Lemma rstrip_idempotent (s : str) : rstrip (rstrip s) = rstrip s.
Proof. unfold rstrip. now rewrite rev_involutive, lstrip_idempotent. Qed.

(** The two ends are trimmed independently. *)
Lemma lstrip_rstrip_comm (s : str) : lstrip (rstrip s) = rstrip (lstrip s).
Proof.
  destruct (lstrip_spaces_suffix s) as (ws & Hws & Hs).
  destruct (lstrip s) as [|c r] eqn:E.
  - rewrite app_nil_r in Hs. subst s. unfold rstrip.
    assert (Hrev : List.Forall (fun c => isspace c = true) (rev ws)).
    { apply List.Forall_forall. intros c Hc. apply List.in_rev in Hc.
      revert c Hc. now apply List.Forall_forall. }
    pose proof (lstrip_spaces (rev ws) [] Hrev) as H.
    rewrite app_nil_r in H. now rewrite H.
  - pose proof (lstrip_head _ _ _ E) as Hc.
    rewrite Hs, rstrip_app_nonspace, lstrip_spaces by assumption.
    simpl lstrip. rewrite Hc.
    symmetry. exact (rstrip_app_nonspace [] r c Hc).
Qed.

Lemma strip_lstrip (s : str) : strip (lstrip s) = strip s.
Proof. unfold strip. now rewrite lstrip_idempotent. Qed.

Lemma strip_rstrip (s : str) : strip (rstrip s) = strip s.
Proof.
  unfold strip. now rewrite lstrip_rstrip_comm, rstrip_idempotent.
Qed.

Lemma strip_idempotent (s : str) : strip (strip s) = strip s.
Proof.
  unfold strip.
  now rewrite lstrip_rstrip_comm, lstrip_idempotent, rstrip_idempotent.
Qed.

(** Removing a one-character string is a filter. *)
Lemma replace_remove (old : char) (s : str) :
  replace old [] s = List.filter (fun c => negb (c =? old)) s.
Proof.
  induction s as [|c s IH]; simpl; [reflexivity|].
  destruct (c =? old); simpl; now rewrite IH.
Qed.

Lemma replace_app (old : char) (new x y : str) :
  replace old new (x ++ y) = replace old new x ++ replace old new y.
Proof.
  induction x as [|c x IH]; simpl; [reflexivity|].
  now rewrite IH, app_assoc.
Qed.

Lemma replace_absent (old : char) (new s : str) :
  ~ In old s -> replace old new s = s.
Proof.
  induction s as [|c s IH]; simpl; [reflexivity|]. intros H.
  destruct (N.eqb_spec c old) as [->|Hne]; [tauto|].
  simpl. rewrite IH; tauto.
Qed.

End PyStrFacts.

(** ** scraper.py: titles *)

Module TitleFacts.
Import Scraper PyStrFacts.

Lemma separators_not_space (sep : char) :
  In sep SEPARATORS -> isspace sep = false.
Proof. intros [<- | [<- | [<- | []]]]; reflexivity. Qed.

Lemma separators_not_bar (sep : char) : In sep SEPARATORS -> is_bar sep = false.
Proof. intros [<- | [<- | [<- | []]]]; reflexivity. Qed.

Lemma separators_distinct : List.NoDup SEPARATORS.
Proof.
  repeat constructor; simpl; intuition discriminate.
Qed.

Lemma not_in_count (c : char) (s : str) :
  ~ In c s -> count_occ N.eq_dec s c = 0%nat.
Proof. apply count_occ_not_In. Qed.

(** One step of the loop: a separator decides iff it occurs exactly once. *)
Lemma separator_decides (sep : char) (t : str) :
  count_occ N.eq_dec t sep = 1%nat ->
  isin [sep] t = true /\ exists p0 p1, split sep t = [p0; p1].
Proof.
  intros H. split.
  - apply isin_single. apply (count_occ_In N.eq_dec). lia.
  - apply split_length_two in H.
    destruct (split sep t) as [|p0 [|p1 [|p2 l]]]; try discriminate.
    now exists p0, p1.
Qed.

Lemma separator_passes (sep : char) (seps : list char) (t : str) :
  count_occ N.eq_dec t sep <> 1%nat ->
  try_separators (sep :: seps) t = try_separators seps t.
Proof.
  intros H. simpl. destruct (isin [sep] t); [|reflexivity].
  rewrite <- split_length_two in H.
  destruct (split sep t) as [|p0 [|p1 [|p2 l]]]; try reflexivity.
  now contradict H.
Qed.

Lemma try_separators_none (seps : list char) (t : str) :
  try_separators seps t = None <->
  forall sep, In sep seps -> count_occ N.eq_dec t sep <> 1%nat.
Proof.
  induction seps as [|sep seps IH].
  - simpl. split; [intros _ sep [] | reflexivity].
  - destruct (Nat.eq_dec (count_occ N.eq_dec t sep) 1%nat) as [E|E].
    + destruct (separator_decides _ _ E) as [Hin [p0 [p1 Hs]]].
      simpl. rewrite Hin, Hs. split; [discriminate|].
      intros H. exfalso. apply (H sep); [now left | assumption].
    + rewrite separator_passes, IH by assumption. split.
      * intros H s [<- | Hs]; [assumption | now apply H].
      * intros H s Hs. apply H. now right.
Qed.

(** The separator that decides splits the head where it stands. *)
Lemma try_separators_at (pre post : list char) (sep : char) (x y : str) :
  (forall s, In s pre -> count_occ N.eq_dec (x ++ sep :: y) s <> 1%nat) ->
  ~ In sep x -> ~ In sep y ->
  try_separators (pre ++ sep :: post) (x ++ sep :: y)
  = Some (strip x, strip y).
Proof.
  intros Hpre Hx Hy. induction pre as [|s pre IH]; simpl app.
  - simpl. rewrite split_two by assumption.
    replace (isin [sep] (x ++ sep :: y)) with true; [reflexivity|].
    symmetry. apply isin_single, in_or_app. right. now left.
  - rewrite separator_passes by (apply Hpre; now left).
    apply IH. intros s' Hs'. apply Hpre. now right.
Qed.

(** The two parts the parser returns are trimmed. *)
Lemma try_separators_trimmed (seps : list char) (t a b : str) :
  try_separators seps t = Some (a, b) -> strip a = a /\ strip b = b.
Proof.
  induction seps as [|sep seps IH]; simpl; [discriminate|].
  destruct (isin [sep] t); [|exact IH].
  destruct (split sep t) as [|p0 [|p1 [|p2 l]]]; try exact IH.
  intros H. injection H as <- <-. split; apply strip_idempotent.
Qed.

(** The titles in which no separator occurs exactly once are the unparseable
    ones. *)
Lemma parse_none_iff (title : str) :
  parse_verb_pair_title title = None <->
  forall sep, In sep SEPARATORS ->
              count_occ N.eq_dec (title_head title) sep <> 1%nat.
Proof. apply try_separators_none. Qed.

(** C3: a title [A sep B ｜ category], where [sep] is the first of the
    separators ・, ／, / to occur in the pair (so neither [sep] nor a
    separator before it in that order occurs inside [A] or [B]; later ones
    may) and the two forms hold no bar: the parser splits at [sep] and yields
    the two forms without the space around them, the suffix gone; for forms
    that carry no such space this is exactly [(A, B)]. *)
Theorem title_with_category_yields_pair
    (A B category : str) (sep bar : char) (earlier later : list char) :
  SEPARATORS = earlier ++ sep :: later ->
  (forall s, In s (earlier ++ [sep]) -> ~ In s A /\ ~ In s B) ->
  (forall c, In c (A ++ B) -> is_bar c = false) ->
  is_bar bar = true ->
  parse_verb_pair_title (A ++ [sep] ++ B ++ [bar] ++ category)
  = Some (strip A, strip B) /\
  (strip A = A -> strip B = B ->
   parse_verb_pair_title (A ++ [sep] ++ B ++ [bar] ++ category) = Some (A, B)).
Proof.
  intros Hseps Hfree Hbars Hbar.
  assert (Hsep : In sep SEPARATORS).
  { rewrite Hseps. apply in_or_app. right. now left. }
  destruct (Hfree sep) as [HsA HsB]; [apply in_or_app; right; now left|].
  assert (Hparse : parse_verb_pair_title (A ++ [sep] ++ B ++ [bar] ++ category)
                   = Some (strip A, strip B)).
  { unfold parse_verb_pair_title, title_head.
    replace (A ++ [sep] ++ B ++ [bar] ++ category)
      with ((A ++ sep :: B) ++ bar :: category)
      by (rewrite <- app_assoc; reflexivity).
    rewrite split_by_head; [| |assumption].
    2:{ apply List.Forall_forall. intros c Hc.
        apply in_app_or in Hc as [Hc | [<- | Hc]].
        - apply Hbars, in_or_app. now left.
        - now apply separators_not_bar.
        - apply Hbars, in_or_app. now right. }
    pose proof (separators_not_space sep Hsep) as Hspace.
    unfold strip at 1.
    rewrite lstrip_app_nonspace, rstrip_app_nonspace by assumption.
    assert (HlA : ~ In sep (lstrip A)).
    { intros Hin. apply HsA. destruct (lstrip_suffix A) as [ws ->].
      apply in_or_app. now right. }
    assert (HrB : ~ In sep (rstrip B)).
    { intros Hin. apply HsB. destruct (rstrip_prefix B) as [ws ->].
      apply in_or_app. now left. }
    rewrite Hseps, try_separators_at; try assumption.
    - now rewrite strip_lstrip, strip_rstrip.
    - intros s Hs. destruct (Hfree s) as [H1 H2].
      { apply in_or_app. now left. }
      assert (H1' : ~ In s (lstrip A)).
      { intros Hin. apply H1. destruct (lstrip_suffix A) as [ws ->].
        apply in_or_app. now right. }
      assert (H2' : ~ In s (rstrip B)).
      { intros Hin. apply H2. destruct (rstrip_prefix B) as [ws ->].
        apply in_or_app. now left. }
      rewrite count_occ_app. simpl.
      destruct (N.eq_dec sep s) as [<-|_].
      + pose proof separators_distinct as Hnd. rewrite Hseps in Hnd.
        apply List.NoDup_remove_2 in Hnd. contradict Hnd.
        apply in_or_app. now left.
      + rewrite !not_in_count by assumption. discriminate. }
  split; [exact Hparse|]. intros HA HB. now rewrite Hparse, HA, HB.
Qed.

Lemma title_with_category_yields_pair_witness :
  parse_verb_pair_title (u "開く・開ける｜自動詞・他動詞")
  = Some (u "開く", u "開ける").
Proof.
  apply (title_with_category_yields_pair (u "開く") (u "開ける")
           (u "自動詞・他動詞") (ch "・") (ch "｜") [] [ch "／"; ch "/"]).
  - reflexivity.
  - intros s [<- | []]. split; vm_compute; intuition discriminate.
  - intros c Hc. vm_compute in Hc.
    repeat (destruct Hc as [<- | Hc]; [reflexivity|]). destruct Hc.
  - reflexivity.
  - reflexivity.
  - reflexivity.
Defined.

End TitleFacts.

(** ** scraper.py: examples, practice questions and answers *)

Module ExtractFacts.
Import Scraper Stated PyStrFacts.

(** *** Example sentences *)

Lemma is_example_spec (particle verb marker line : str) :
  is_example particle verb marker line = true <->
  contains verb line /\ contains particle line /\
  (contains marker line \/ (length line < 100)%nat).
Proof.
  unfold is_example, contains.
  rewrite !andb_true_iff, orb_true_iff, !isin_spec, Nat.ltb_lt. tauto.
Qed.

Lemma in_classified (particle verb marker line : str) (lines : list str) :
  In line (List.filter (is_example particle verb marker) lines) <->
  In line lines /\ contains verb line /\ contains particle line /\
  (contains marker line \/ (length line < 100)%nat).
Proof. rewrite List.filter_In, is_example_spec. tauto. Qed.

(** The [if]/[elif] pair of one side appends the line iff it is an example. *)
Lemma example_side_eq (particle verb marker line : str) (acc : list str) :
  example_side particle verb marker line acc
  = acc ++ (if is_example particle verb marker line then [line] else []).
Proof.
  unfold example_side, is_example.
  destruct (isin particle line), (isin verb line), (isin marker line),
    (length line <? 100)%nat; simpl; now rewrite ?app_nil_r.
Qed.

Lemma is_example_empty (particle verb marker : str) :
  null particle = false -> is_example particle verb marker [] = false.
Proof.
  destruct particle; [discriminate|]. intros _.
  unfold is_example. simpl. now rewrite andb_false_r.
Qed.

(** The loop over the lines is a filter of the trimmed lines, on each side. *)
Lemma example_loop (a b : str) (lines : list str) :
  forall acc,
    fold_left (example_step a b) lines acc
    = (fst acc ++ List.filter (is_example GA a JIDOUSHI) (List.map strip lines),
       snd acc ++ List.filter (is_example WO b TADOUSHI) (List.map strip lines)).
Proof.
  induction lines as [|line lines IH]; intros [ie te]; simpl.
  - now rewrite !app_nil_r.
  - rewrite IH. unfold example_step.
    destruct (strip line) as [|c l] eqn:E.
    + simpl null. cbv iota. now rewrite !is_example_empty by reflexivity.
    + simpl null. cbv iota. simpl fst. simpl snd.
      rewrite !example_side_eq.
      destruct (is_example GA a JIDOUSHI (c :: l)),
        (is_example WO b TADOUSHI (c :: l)); simpl;
        now rewrite <- ?app_assoc, ?app_nil_r.
Qed.

Lemma collect_examples_eq (a b text : str) :
  collect_examples a b text
  = (List.filter (is_example GA a JIDOUSHI)
       (List.map strip (split NEWLINE text)),
     List.filter (is_example WO b TADOUSHI)
       (List.map strip (split NEWLINE text))).
Proof. unfold collect_examples. now rewrite example_loop. Qed.

(** *** Practice questions *)

Lemma question_step_eq (acc : list str) (m : str) :
  question_step acc m
  = acc ++ (if long_enough (repair m) then [strip (repair m)] else []).
Proof.
  unfold question_step, long_enough, repair.
  destruct (isin [LBRACKET] m && negb (isin [RBRACKET] m));
    match goal with |- context [(5 <? ?n)%nat] => destruct (5 <? n)%nat end;
    now rewrite ?app_nil_r.
Qed.

(** The loop over the matches of one glyph. *)
Lemma question_loop (ms : list str) :
  forall acc,
    fold_left question_step ms acc
    = acc ++ List.map strip (List.filter long_enough (List.map repair ms)).
Proof.
  induction ms as [|m ms IH]; intros acc; simpl.
  - now rewrite app_nil_r.
  - rewrite IH, question_step_eq.
    destruct (long_enough (repair m)); simpl;
      now rewrite <- ?app_assoc, ?app_nil_r.
Qed.

(** The loop over the glyphs: the items of ① first, then those of ②, ... *)
Lemma glyph_loop (text : str) (glyphs : list char) :
  forall acc,
    fold_left (fun acc c => fold_left question_step (findall_item c 0 text) acc)
              glyphs acc
    = acc ++ flat_map (fun c =>
        List.map strip
          (List.filter long_enough (List.map repair (findall_item c 0 text))))
        glyphs.
Proof.
  induction glyphs as [|c glyphs IH]; intros acc; simpl.
  - now rewrite app_nil_r.
  - now rewrite IH, question_loop, <- app_assoc.
Qed.

Lemma item_run_cons (x : char) (s : str) :
  item_stop x = false -> item_run (x :: s) = x :: item_run s.
Proof. intros H. simpl. now rewrite H. Qed.

(** A glyph alone is too short to be kept. *)
Lemma glyph_alone_is_short (c : char) : long_enough (repair [c]) = false.
Proof.
  unfold long_enough, repair.
  destruct (isin [LBRACKET] [c] && negb (isin [RBRACKET] [c])); reflexivity.
Qed.

(** For a glyph of the class, which ends every run, the scan that skips the
    matched text finds the run after every occurrence of the glyph. *)
Lemma findall_item_occurrences (c : char) (text : str) :
  item_stop c = true ->
  forall k, (k <= length (item_run text))%nat ->
    List.filter long_enough (List.map repair (findall_item c k text))
    = List.filter long_enough (List.map repair (glyph_items item_run c text)).
Proof.
  intros Hc. induction text as [|x rest IH]; intros k Hk; [reflexivity|].
  destruct k as [|k].
  - simpl. destruct (N.eqb_spec x c) as [->|Hne].
    + destruct (item_run rest) as [|y run] eqn:Hrun.
      * simpl. rewrite glyph_alone_is_short. apply IH. simpl. lia.
      * cbn [List.map List.filter length].
        rewrite (IH (S (length run))); [reflexivity | simpl; lia].
    + apply IH. lia.
  - assert (Hx : item_stop x = false).
    { destruct (item_stop x) eqn:E; [|reflexivity].
      simpl in Hk. rewrite E in Hk. simpl in Hk. lia. }
    rewrite item_run_cons in Hk by assumption. simpl in Hk.
    simpl. destruct (N.eqb_spec x c) as [->|Hne]; [congruence|].
    apply IH. lia.
Qed.

Lemma findall_item_absent (c : char) (text : str) :
  ~ In c text -> forall k, findall_item c k text = [].
Proof.
  induction text as [|x rest IH]; intros Hc k; [reflexivity|].
  simpl. destruct k; [|apply IH; simpl in Hc; tauto].
  destruct (N.eqb_spec x c) as [->|_]; [simpl in Hc; tauto|].
  apply IH. simpl in Hc. tauto.
Qed.

Lemma glyph_items_absent (run : str -> str) (c : char) (text : str) :
  ~ In c text -> glyph_items run c text = [].
Proof.
  induction text as [|x rest IH]; intros Hc; [reflexivity|].
  simpl. destruct (N.eqb_spec x c) as [->|_]; [simpl in Hc; tauto|].
  apply IH. simpl in Hc. tauto.
Qed.

(** Without one of ⑪…⑮ the class of the pattern ends a run exactly at a
    newline or a circled glyph. *)
Lemma item_stop_glyph (x : char) :
  is_late_glyph x = false ->
  item_stop x = is_glyph x || (x =? NEWLINE).
Proof.
  intros H. unfold item_stop, is_glyph.
  change circled_numbers with (CLASS_GLYPHS ++ LATE_GLYPHS).
  rewrite existsb_app. unfold is_late_glyph in H. rewrite H.
  now rewrite orb_false_r, orb_comm.
Qed.

Lemma item_run_by_line (s : str) :
  (forall x, In x s -> is_late_glyph x = false) ->
  item_run s = run_to_glyph_or_newline s.
Proof.
  induction s as [|x r IH]; intros H; [reflexivity|].
  simpl. rewrite item_stop_glyph by (apply H; now left).
  destruct (is_glyph x || (x =? NEWLINE)); [reflexivity|].
  f_equal. apply IH. intros y Hy. apply H. now right.
Qed.

Lemma glyph_items_by_line (c : char) (text : str) :
  (forall x, In x text -> is_late_glyph x = false) ->
  glyph_items item_run c text = glyph_items run_to_glyph_or_newline c text.
Proof.
  induction text as [|x rest IH]; intros H; [reflexivity|].
  assert (Hrest : forall y, In y rest -> is_late_glyph y = false).
  { intros y Hy. apply H. now right. }
  simpl. rewrite IH, item_run_by_line by assumption. reflexivity.
Qed.

Lemma flat_map_ext_in {A B} (f g : A -> list B) (l : list A) :
  (forall a, In a l -> f a = g a) -> flat_map f l = flat_map g l.
Proof.
  induction l as [|a l IH]; intros H; [reflexivity|].
  simpl. rewrite H by now left. f_equal. apply IH.
  intros b Hb. apply H. now right.
Qed.

(** Every circled glyph is of the class or one of ⑪…⑮. *)
Lemma circled_glyph_cases (c : char) :
  In c circled_numbers -> item_stop c = true \/ is_late_glyph c = true.
Proof.
  intros H. vm_compute in H.
  repeat (destruct H as [<- | H]; [(now left) || (now right)|]). destruct H.
Qed.

Lemma collect_practice_questions_by_line (text : str) :
  (forall x, In x text -> is_late_glyph x = false) ->
  firstn 10 (collect_practice_questions text) = practice_questions_by_line text.
Proof.
  intros Hlate. unfold collect_practice_questions, practice_questions_by_line.
  rewrite glyph_loop, app_nil_l. f_equal.
  apply flat_map_ext_in. intros c Hc. f_equal.
  destruct (circled_glyph_cases c Hc) as [Hstop | Hl].
  - rewrite (findall_item_occurrences c text Hstop 0%nat) by lia.
    now rewrite glyph_items_by_line.
  - assert (Hno : ~ In c text).
    { intros Hin. apply Hlate in Hin. congruence. }
    now rewrite findall_item_absent, glyph_items_absent.
Qed.

End ExtractFacts.

(** ** scraper.py: fetching, images and articles *)

Module ScraperFacts.
Import Scraper Stated PyStrFacts TitleFacts ExtractFacts.

Section Environment.

Variable md5_hexdigest : str -> str.
Variable url_path_suffix : str -> str.
Variable web_page : list Event -> str -> option Page.
Variable web_image : list Event -> str -> option (list N).
Variable writable : World -> Folder -> str -> bool.

Local Abbreviation fetch_page := (fetch_page web_page).
Local Abbreviation image_filename := (image_filename md5_hexdigest url_path_suffix).
Local Abbreviation download_image :=
  (download_image md5_hexdigest url_path_suffix web_image writable).
Local Abbreviation download_images :=
  (download_images md5_hexdigest url_path_suffix web_image writable).
Local Abbreviation parse_article :=
  (parse_article md5_hexdigest url_path_suffix web_page web_image writable).
Local Abbreviation scrape_articles :=
  (scrape_articles md5_hexdigest url_path_suffix web_page web_image writable).
Local Abbreviation scrape_level :=
  (scrape_level md5_hexdigest url_path_suffix web_page web_image writable).

(** [fetch_page] catches the failure of its request. *)
Lemma fetch_page_eq (url : str) (w : World) :
  fetch_page url w =
  match web_page (Sleep REQUEST_DELAY :: trace w) url with
  | Some soup =>
    (Returned (Some soup), after [HttpGet url; Sleep REQUEST_DELAY] w)
  | None =>
    (Returned None,
     after [Output [u "Error fetching"; url]; HttpGet url; Sleep REQUEST_DELAY] w)
  end.
Proof.
  unfold Scraper.fetch_page, try_except, requests_get, bind, emit, modify, gets.
  simpl. destruct (web_page _ url); reflexivity.
Qed.

(** The four ways of [download_image]: the file is there, the download
    succeeds and the file is written, the file cannot be written, the
    download fails. *)
Lemma download_image_eq (img_url verb_pair_id : str) (w : World) :
  download_image img_url verb_pair_id w =
  let filename := image_filename img_url verb_pair_id in
  match IMAGES_DIR w !! filename with
  | Some _ => (Returned (Some filename), w)
  | None =>
    match web_image (Sleep (REQUEST_DELAY / 2) :: trace w) img_url with
    | Some content =>
      if writable (after [HttpGet img_url; Sleep (REQUEST_DELAY / 2)] w)
                  Images filename
      then
        (Returned (Some filename),
         {| trace := HttpGet img_url :: Sleep (REQUEST_DELAY / 2) :: trace w;
            IMAGES_DIR := <[filename := content]> (IMAGES_DIR w);
            DATA_DIR := DATA_DIR w |})
      else
        (Returned None,
         after [Output [u "Error downloading image"; img_url]; HttpGet img_url;
                Sleep (REQUEST_DELAY / 2)] w)
    | None =>
      (Returned None,
       after [Output [u "Error downloading image"; img_url]; HttpGet img_url;
              Sleep (REQUEST_DELAY / 2)] w)
    end
  end.
Proof.
  unfold Scraper.download_image, write_image, try_except, requests_get, bind,
    emit, modify, gets, ret, raise.
  cbv zeta. destruct (IMAGES_DIR w !! _); [reflexivity|].
  cbn [trace after app]. destruct (web_image _ img_url); [|reflexivity].
  change (after [HttpGet img_url] (after [Sleep (REQUEST_DELAY / 2)] w))
    with (after [HttpGet img_url; Sleep (REQUEST_DELAY / 2)] w).
  destruct (writable _ Images _); reflexivity.
Qed.

Lemma parse_article_eq (url level : str) (w : World) :
  parse_article url level w =
  match web_page (Sleep REQUEST_DELAY :: Output [u "Parsing:"; url] :: trace w)
                 url with
  | None =>
    (Returned None,
     after [Output [u "Error fetching"; url]; HttpGet url; Sleep REQUEST_DELAY;
            Output [u "Parsing:"; url]] w)
  | Some soup =>
    let w2 := after [HttpGet url; Sleep REQUEST_DELAY;
                     Output [u "Parsing:"; url]] w in
    match page_title soup with
    | None => (Returned None, after [Output [u "Could not find title"]] w2)
    | Some title =>
      match parse_verb_pair_title title with
      | None =>
        (Returned None,
         after [Output [u "Could not parse verb pair from:"; title]] w2)
      | Some (a, b) =>
        match download_images (make_verb_id a b) (firstn 5 (page_imgs soup))
                              [] w2 with
        | (Returned images, w3) =>
          (Returned (Some (article_record url level title a b soup images)), w3)
        | (Raised e, w3) => (Raised e, w3)
        end
      end
    end
  end.
Proof.
  unfold Scraper.parse_article. unfold bind at 1. unfold emit at 1, modify.
  unfold bind at 1. rewrite fetch_page_eq. cbn [trace after app].
  destruct (web_page _ url) as [soup|]; [|reflexivity].
  destruct (page_title soup) as [title|]; [|reflexivity].
  destruct (parse_verb_pair_title title) as [[a b]|]; [|reflexivity].
  unfold bind. cbv zeta.
  destruct (Scraper.download_images _ _ _ _ _ _ _) as [[images|e] w3];
    reflexivity.
Qed.

(** Apply the induction hypothesis of the image loop to the call in the goal
    and offer its result. *)
Ltac next_images IH :=
  match goal with
  | |- context [Scraper.download_images _ _ _ _ _ _ ?a ?w0] =>
    let images := fresh "images" in
    let w' := fresh "w'" in
    destruct (IH a w0) as (images & w' & ? & ? & ? & ?);
    exists images, w'; simpl in *; rewrite ?length_app in *; simpl in *
  end.

(** The image loop always returns: a failed download only leaves its image
    out.  It never touches [DATA_DIR] and never replaces an image file. *)
Lemma download_images_returns (verb_id : str) (imgs : list Img)
    (acc : list ImageEntry) (w : World) :
  exists images w',
    download_images verb_id imgs acc w = (Returned images, w') /\
    DATA_DIR w' = DATA_DIR w /\
    IMAGES_DIR w ⊆ IMAGES_DIR w' /\
    (length images <= length acc + length imgs)%nat.
Proof.
  revert acc w. induction imgs as [|img rest IH]; intros acc w.
  - exists acc, w. simpl. repeat split; [reflexivity | lia].
  - simpl Scraper.download_images.
    destruct (_ || _).
    2:{ next_images IH. repeat split; try assumption. lia. }
    unfold bind. rewrite download_image_eq. cbv zeta.
    destruct (IMAGES_DIR w !! _) eqn:Hfile.
    + destruct (null _); cbv iota beta; next_images IH;
        repeat split; try assumption; lia.
    + destruct (web_image _ (img_src img)) as [content|].
      * destruct (writable _ Images _).
        -- destruct (null _); cbv iota beta; next_images IH;
             (repeat split; try assumption;
              [etransitivity; [apply insert_subseteq; exact Hfile | eassumption]
              |lia]).
        -- next_images IH. repeat split; try assumption. lia.
      * next_images IH. repeat split; try assumption. lia.
Qed.

(** [parse_article] always returns, with the not-extractable result or with
    an extracted record, and writes no record itself. *)
Lemma parse_article_returns (url level : str) (w : World) :
  exists out w',
    parse_article url level w = (Returned out, w') /\
    DATA_DIR w' = DATA_DIR w /\
    IMAGES_DIR w ⊆ IMAGES_DIR w' /\
    match out with
    | None => True
    | Some r => extracted level r /\ source_url r = url
    end.
Proof.
  rewrite parse_article_eq.
  destruct (web_page _ url) as [soup|].
  2:{ eexists _, _. repeat split; reflexivity. }
  cbv zeta. destruct (page_title soup) as [title|] eqn:Ht.
  2:{ eexists _, _. repeat split; reflexivity. }
  destruct (parse_verb_pair_title title) as [[a b]|] eqn:Hp.
  2:{ eexists _, _. repeat split; reflexivity. }
  match goal with
  | |- context [download_images ?i ?l ?a ?w0] =>
    destruct (download_images_returns i l a w0)
      as (images & w' & E & Hd & Hi & Hl)
  end.
  rewrite E. eexists _, w'. split; [reflexivity|].
  split; [exact Hd|]. split; [exact Hi|]. split; [|reflexivity].
  exists url, title, a, b, soup, images. repeat split; try assumption.
  pose proof (List.firstn_le_length 5 (page_imgs soup)). simpl in Hl. lia.
Qed.

(** One turn of the loop over the articles: the record of the article is
    written and added, or the write is refused and the [OSError] ends the
    loop, or the article is skipped. *)
Lemma scrape_articles_cons (level url : str) (rest : list str)
    (acc : list VerbPairRecord) (w : World) :
  scrape_articles level (url :: rest) acc w =
  match parse_article url level w with
  | (Returned (Some data), w1) =>
    if writable w1 Data (id data ++ DOT_JSON) then
      scrape_articles level rest (acc ++ [data])
        (after [Output [u "Saved:"; id data ++ DOT_JSON]]
               (with_json (id data ++ DOT_JSON) (DocRecord data) w1))
    else (Raised (PyException (u "OSError")), w1)
  | (Returned None, w1) => scrape_articles level rest acc w1
  | (Raised e, w1) => (Raised e, w1)
  end.
Proof.
  simpl Scraper.scrape_articles. unfold bind at 1.
  destruct (parse_article url level w) as [[[data|]|e] w1]; try reflexivity.
  unfold write_json, bind, gets, emit, modify, raise.
  destruct (writable w1 Data _); reflexivity.
Qed.

(** The loop only adds to the records it was given. *)
Lemma scrape_articles_keeps (level : str) (urls : list str) :
  forall acc w results w',
    scrape_articles level urls acc w = (Returned results, w') ->
    forall r, In r acc -> In r results.
Proof.
  induction urls as [|url rest IH]; intros acc w results w' H r Hr.
  - simpl in H. injection H as <- _. exact Hr.
  - rewrite scrape_articles_cons in H.
    destruct (parse_article_returns url level w) as (out & w1 & E & _).
    rewrite E in H. destruct out as [data|].
    + destruct (writable w1 Data _); [|discriminate].
      apply (IH _ _ _ _ H). apply in_or_app. now left.
    + apply (IH _ _ _ _ H). exact Hr.
Qed.

(** However the loop over the articles ends, the files it leaves under
    [DATA_DIR] are those that were there and one per record it has added,
    the records it adds are extracted ones, and the only exception that ends
    it is the [OSError] of a write that was refused. *)
Lemma scrape_articles_files (level : str) (urls : list str) :
  forall acc w out w',
    scrape_articles level urls acc w = (out, w') ->
    (forall results, out = Returned results ->
       forall r, In r results -> In r acc \/ extracted level r) /\
    (forall e, out = Raised e -> e = PyException (u "OSError")) /\
    (forall name doc, DATA_DIR w' !! name = Some doc ->
       DATA_DIR w !! name = Some doc \/
       exists r, doc = DocRecord r /\ name = id r ++ DOT_JSON /\
                 extracted level r /\
                 forall results, out = Returned results -> In r results).
Proof.
  induction urls as [|url rest IH]; intros acc w out w' H.
  - simpl in H. injection H as <- <-. split; [|split].
    + intros results E. injection E as <-. now left.
    + discriminate.
    + now left.
  - rewrite scrape_articles_cons in H.
    destruct (parse_article_returns url level w)
      as (o & w1 & E & Hd & _ & Hout).
    rewrite E in H. destruct o as [r|].
    + destruct Hout as [Hr _].
      destruct (writable w1 Data _).
      * destruct (IH _ _ _ _ H) as (Hres & Hexn & Hfiles).
        split; [|split; [exact Hexn|]].
        -- intros results Eo r' Hr'.
           destruct (Hres results Eo r' Hr') as [Hin | Hex]; [|now right].
           apply in_app_or in Hin as [Hin | [<- | []]]; [now left | now right].
        -- intros name doc Hdoc.
           destruct (Hfiles name doc Hdoc) as [Hold | Hnew]; [|now right].
           simpl in Hold.
           apply lookup_insert_Some in Hold as [[<- <-] | [_ Hold]].
           ++ right. exists r. repeat split; try assumption.
              intros results ->.
              apply (scrape_articles_keeps _ _ _ _ _ _ H).
              apply in_or_app. right. now left.
           ++ left. now rewrite <- Hd.
      * injection H as <- <-. split; [discriminate|]. split.
        -- intros e He. now injection He as <-.
        -- intros name doc Hdoc. left. now rewrite <- Hd.
    + destruct (IH _ _ _ _ H) as (Hres & Hexn & Hfiles).
      split; [exact Hres|]. split; [exact Hexn|].
      intros name doc Hdoc. destruct (Hfiles name doc Hdoc) as [Hold | Hnew].
      * left. now rewrite <- Hd.
      * now right.
Qed.

(** With a file system that lets every record be written, the loop over the
    articles returns. *)
Lemma scrape_articles_returns (level : str) (urls : list str) :
  (forall w name, writable w Data name = true) ->
  forall acc w, exists results w',
    scrape_articles level urls acc w = (Returned results, w').
Proof.
  intros Hwrite. induction urls as [|url rest IH]; intros acc w.
  - now exists acc, w.
  - rewrite scrape_articles_cons.
    destruct (parse_article_returns url level w) as (o & w1 & E & _).
    rewrite E. destruct o as [r|]; [rewrite Hwrite|]; apply IH.
Qed.

(** What an extracted record holds. *)
Lemma extracted_pair (level : str) (r : VerbPairRecord) :
  extracted level r ->
  parse_verb_pair_title (title r)
  = Some (kanji (intransitive r), kanji (transitive r)) /\
  strip (kanji (intransitive r)) = kanji (intransitive r) /\
  strip (kanji (transitive r)) = kanji (transitive r) /\
  id r = make_verb_id (kanji (intransitive r)) (kanji (transitive r)).
Proof.
  intros (url & t & a & b & soup & images & Ht & Hp & Hl & ->). simpl.
  split; [exact Hp|].
  destruct (try_separators_trimmed _ _ _ _ Hp) as [Ha Hb].
  repeat split; assumption.
Qed.

Lemma extracted_bounds (level : str) (r : VerbPairRecord) :
  extracted level r ->
  (length (examples (intransitive r)) <= 3)%nat /\
  (length (examples (transitive r)) <= 3)%nat /\
  (length (practice_questions r) <= 10)%nat /\
  (length (images r) <= 5)%nat.
Proof.
  intros (url & t & a & b & soup & images & Ht & Hp & Hl & ->). simpl.
  repeat split; try apply List.firstn_le_length. exact Hl.
Qed.

Lemma make_verb_id_eq (a b : str) :
  make_verb_id a b =
  List.filter (fun c => negb (c =? SPACE)) a ++ UNDERSCORE
  ++ List.filter (fun c => negb (c =? SPACE)) b.
Proof.
  unfold make_verb_id. rewrite !replace_app, !replace_remove. reflexivity.
Qed.

(** An article whose page cannot be fetched is skipped: the loop goes on
    with the other articles and the same records. *)
Lemma failed_article_is_skipped (level url : str) (rest : list str)
    (acc : list VerbPairRecord) (w : World) :
  web_page (Sleep REQUEST_DELAY :: Output [u "Parsing:"; url] :: trace w) url
  = None ->
  scrape_articles level (url :: rest) acc w
  = scrape_articles level rest acc
      (after [Output [u "Error fetching"; url]; HttpGet url; Sleep REQUEST_DELAY;
              Output [u "Parsing:"; url]] w).
Proof.
  intros H. rewrite scrape_articles_cons. now rewrite parse_article_eq, H.
Qed.

(** An image whose download fails is skipped: the loop goes on with the
    other images and the same entries. *)
Lemma failed_image_is_skipped (verb_id : str) (img : Img) (rest : list Img)
    (acc : list ImageEntry) (w : World) :
  (negb (null (img_src img)) && isin HOST_RESIZE (img_src img))
  || isin HOST_LIVEDOOR (img_src img) = true ->
  IMAGES_DIR w !! image_filename (img_src img) verb_id = None ->
  web_image (Sleep (REQUEST_DELAY / 2) :: trace w) (img_src img) = None ->
  download_images verb_id (img :: rest) acc w
  = download_images verb_id rest acc
      (after [Output [u "Error downloading image"; img_src img];
              HttpGet (img_src img); Sleep (REQUEST_DELAY / 2)] w).
Proof.
  intros Hhost Hfile Hweb. simpl Scraper.download_images. rewrite Hhost.
  unfold bind. rewrite download_image_eq. cbv zeta.
  now rewrite Hfile, Hweb.
Qed.

(** A record comes from the page that was fetched for its article. *)
Lemma parse_article_some (url level : str) (w w' : World) (r : VerbPairRecord) :
  parse_article url level w = (Returned (Some r), w') ->
  exists soup t a b images,
    web_page (Sleep REQUEST_DELAY :: Output [u "Parsing:"; url] :: trace w) url
    = Some soup /\
    page_title soup = Some t /\
    parse_verb_pair_title t = Some (a, b) /\
    r = article_record url level t a b soup images.
Proof.
  rewrite parse_article_eq. intros H.
  destruct (web_page _ url) as [soup|]; [|discriminate].
  cbv zeta in H. destruct (page_title soup) as [t|] eqn:Ht; [|discriminate].
  destruct (parse_verb_pair_title t) as [[a b]|] eqn:Hp; [|discriminate].
  destruct (Scraper.download_images _ _ _ _ _ _ _) as [[images|e] w3];
    [|discriminate].
  injection H as <- <-. exists soup, t, a, b, images. auto.
Qed.

(** C4: the lines of the body, trimmed, are collected on the intransitive
    side iff they hold the intransitive kanji and が and either 自動詞 or
    fewer than 100 characters, and on the transitive side iff they hold the
    transitive kanji and を and either 他動詞 or fewer than 100 characters;
    the lines are collected in the order of the text and the record keeps the
    first three of each side. *)
Theorem examples_are_the_classified_lines
    (url level : str) (w w' : World) (r : VerbPairRecord) :
  parse_article url level w = (Returned (Some r), w') ->
  exists soup,
    web_page (Sleep REQUEST_DELAY :: Output [u "Parsing:"; url] :: trace w) url
    = Some soup /\
    let text := page_content_text soup in
    let lines := List.map strip (split NEWLINE text) in
    let found :=
      collect_examples (kanji (intransitive r)) (kanji (transitive r)) text in
    (forall line, In line (fst found) <->
       In line lines /\ contains (kanji (intransitive r)) line /\
       contains GA line /\
       (contains JIDOUSHI line \/ (length line < 100)%nat)) /\
    (forall line, In line (snd found) <->
       In line lines /\ contains (kanji (transitive r)) line /\
       contains WO line /\
       (contains TADOUSHI line \/ (length line < 100)%nat)) /\
    fst found
    = List.filter (is_example GA (kanji (intransitive r)) JIDOUSHI) lines /\
    snd found
    = List.filter (is_example WO (kanji (transitive r)) TADOUSHI) lines /\
    examples (intransitive r) = firstn 3 (fst found) /\
    examples (transitive r) = firstn 3 (snd found).
Proof.
  intros H. destruct (parse_article_some _ _ _ _ _ H)
    as (soup & t & a & b & images & Hweb & _ & _ & ->).
  exists soup. split; [exact Hweb|]. cbv zeta. simpl.
  rewrite collect_examples_eq. cbn [fst snd].
  split; [intros line; apply in_classified|].
  split; [intros line; apply in_classified|].
  repeat split.
Qed.

(** C5, amended: on a body text without the glyphs ⑪…⑮ the practice
    questions are, for each circled glyph in the order ①, ②, ... and for each
    of its occurrences in the order of the text, the run from the glyph up to,
    and without, the next circled glyph or newline; 】 is appended to an item
    with 【 and without 】; items of at most 5 characters are dropped; the
    items are trimmed and the first 10 are kept. *)
Theorem practice_questions_end_at_glyph_or_newline
    (url level : str) (w w' : World) (r : VerbPairRecord) :
  parse_article url level w = (Returned (Some r), w') ->
  exists soup,
    web_page (Sleep REQUEST_DELAY :: Output [u "Parsing:"; url] :: trace w) url
    = Some soup /\
    ((forall x, In x (page_content_text soup) -> is_late_glyph x = false) ->
     practice_questions r = practice_questions_by_line (page_content_text soup)).
Proof.
  intros H. destruct (parse_article_some _ _ _ _ _ H)
    as (soup & t & a & b & images & Hweb & _ & _ & ->).
  exists soup. split; [exact Hweb|]. intros Hlate. simpl.
  now apply collect_practice_questions_by_line.
Qed.

(** C1, amended: the id of the record of a parsed pair [(A, B)] is
    [A + "_" + B] with every space character U+0020 removed: an underscore
    stands between the two forms, and without spaces inside them the id is
    exactly [A_B]. *)
Theorem record_id_joins_pair_with_underscore
    (url level : str) (w w' : World) (r : VerbPairRecord) :
  parse_article url level w = (Returned (Some r), w') ->
  parse_verb_pair_title (title r)
  = Some (kanji (intransitive r), kanji (transitive r)) /\
  id r = List.filter (fun c => negb (c =? SPACE)) (kanji (intransitive r))
         ++ UNDERSCORE
         ++ List.filter (fun c => negb (c =? SPACE)) (kanji (transitive r)) /\
  (~ In SPACE (kanji (intransitive r)) -> ~ In SPACE (kanji (transitive r)) ->
   id r = kanji (intransitive r) ++ UNDERSCORE ++ kanji (transitive r)).
Proof.
  intros H.
  destruct (parse_article_returns url level w) as (out & w1 & E & _ & _ & Hout).
  rewrite E in H. injection H as -> ->. destruct Hout as [Hex _].
  destruct (extracted_pair _ _ Hex) as (Hp & _ & _ & Hid).
  split; [exact Hp|]. split.
  - rewrite Hid. apply make_verb_id_eq.
  - intros Ha Hb. rewrite Hid. unfold make_verb_id.
    rewrite !replace_app, !replace_absent; try assumption; try reflexivity.
    vm_compute. intuition discriminate.
Qed.

(** C2, amended: a title whose head (the text before the first bar, trimmed)
    holds none of the separators ・, ／, / exactly once is not extractable, and
    no file is written for its article; these are the only unparseable
    titles: a head in which a separator occurs exactly once, and no separator
    before it in the order ・, ／, / does, is split at that separator,
    whatever else the two parts hold and whether or not one is empty, and the
    article is extracted with the two parts, trimmed. *)
Theorem title_without_single_separator_not_extractable
    (url level title : str) (w : World) (soup : Page) :
  web_page (Sleep REQUEST_DELAY :: Output [u "Parsing:"; url] :: trace w) url
  = Some soup ->
  page_title soup = Some title ->
  (parse_verb_pair_title title = None <->
   forall sep, In sep SEPARATORS ->
               count_occ N.eq_dec (title_head title) sep <> 1%nat) /\
  ((forall sep, In sep SEPARATORS ->
                count_occ N.eq_dec (title_head title) sep <> 1%nat) ->
   exists w', parse_article url level w = (Returned None, w') /\
              IMAGES_DIR w' = IMAGES_DIR w /\ DATA_DIR w' = DATA_DIR w) /\
  (forall earlier sep later x y,
     SEPARATORS = earlier ++ sep :: later ->
     title_head title = x ++ sep :: y -> ~ In sep x -> ~ In sep y ->
     (forall s, In s earlier ->
                count_occ N.eq_dec (title_head title) s <> 1%nat) ->
     parse_verb_pair_title title = Some (strip x, strip y) /\
     exists r w',
       parse_article url level w = (Returned (Some r), w') /\
       kanji (intransitive r) = strip x /\ kanji (transitive r) = strip y).
Proof.
  intros Hweb Htitle. split; [apply parse_none_iff|]. split.
  - intros Hnone. apply parse_none_iff in Hnone.
    rewrite parse_article_eq, Hweb. cbv zeta. rewrite Htitle, Hnone.
    eexists. repeat split.
  - intros earlier sep later x y Hseps Hhead Hx Hy Hearlier.
    assert (Hp : parse_verb_pair_title title = Some (strip x, strip y)).
    { unfold parse_verb_pair_title. cbv zeta. rewrite Hseps, Hhead.
      apply try_separators_at; [|assumption|assumption].
      rewrite <- Hhead. exact Hearlier. }
    split; [exact Hp|].
    rewrite parse_article_eq, Hweb. cbv zeta. rewrite Htitle, Hp.
    match goal with
    | |- context [download_images ?i ?l ?a ?w0] =>
      destruct (download_images_returns i l a w0) as (images & w' & E & _)
    end.
    rewrite E. eexists _, w'. split; [reflexivity|]. split; reflexivity.
Qed.

(** C7, amended: however a scrape run ends, every file it leaves under
    [DATA_DIR] was there before or holds a record that extraction returned,
    stored under its id (and returned by the run, when the run returns); the
    two kanji fields of such a record, as of every record that extraction
    returns, are the two parts of its title, trimmed (either may be empty),
    its id is derived from them, and it has at most 3 examples a side, 10
    questions and 5 images. *)
Theorem persisted_records_are_extracted
    (level : str) (urls : list str) (w w' : World)
    (out : Outcome (list VerbPairRecord)) :
  scrape_level level urls w = (out, w') ->
  (forall name doc, DATA_DIR w' !! name = Some doc ->
     DATA_DIR w !! name = Some doc \/
     exists r, doc = DocRecord r /\ name = id r ++ DOT_JSON /\
       (forall results, out = Returned results -> In r results) /\
       parse_verb_pair_title (title r)
       = Some (kanji (intransitive r), kanji (transitive r)) /\
       strip (kanji (intransitive r)) = kanji (intransitive r) /\
       strip (kanji (transitive r)) = kanji (transitive r) /\
       id r = make_verb_id (kanji (intransitive r)) (kanji (transitive r)) /\
       (length (examples (intransitive r)) <= 3)%nat /\
       (length (examples (transitive r)) <= 3)%nat /\
       (length (practice_questions r) <= 10)%nat /\
       (length (images r) <= 5)%nat) /\
  (forall url w0 w1 r,
     parse_article url level w0 = (Returned (Some r), w1) ->
     parse_verb_pair_title (title r)
     = Some (kanji (intransitive r), kanji (transitive r)) /\
     strip (kanji (intransitive r)) = kanji (intransitive r) /\
     strip (kanji (transitive r)) = kanji (transitive r) /\
     id r = make_verb_id (kanji (intransitive r)) (kanji (transitive r)) /\
     (length (examples (intransitive r)) <= 3)%nat /\
     (length (examples (transitive r)) <= 3)%nat /\
     (length (practice_questions r) <= 10)%nat /\
     (length (images r) <= 5)%nat).
Proof.
  unfold Scraper.scrape_level. intros H.
  assert (Hfacts : forall r, extracted level r ->
    parse_verb_pair_title (title r)
    = Some (kanji (intransitive r), kanji (transitive r)) /\
    strip (kanji (intransitive r)) = kanji (intransitive r) /\
    strip (kanji (transitive r)) = kanji (transitive r) /\
    id r = make_verb_id (kanji (intransitive r)) (kanji (transitive r)) /\
    (length (examples (intransitive r)) <= 3)%nat /\
    (length (examples (transitive r)) <= 3)%nat /\
    (length (practice_questions r) <= 10)%nat /\
    (length (images r) <= 5)%nat).
  { intros r Hex.
    destruct (extracted_pair _ _ Hex) as (Hp & Ha & Hb & Hid).
    destruct (extracted_bounds _ _ Hex) as (H1 & H2 & H3 & H4).
    repeat split; assumption. }
  split.
  - intros name doc Hdoc.
    destruct (scrape_articles_files _ _ _ _ _ _ H) as (_ & _ & Hfiles).
    destruct (Hfiles name doc Hdoc) as [Hold | (r & Hr & Hn & Hex & Hin)];
      [now left|].
    right. exists r. split; [exact Hr|]. split; [exact Hn|].
    split; [exact Hin|]. now apply Hfacts.
  - intros url w0 w1 r E.
    destruct (parse_article_returns url level w0) as (o & w2 & E' & _ & _ & Ho).
    rewrite E in E'. injection E' as <- _. destruct Ho as [Hex _].
    now apply Hfacts.
Qed.

(** C8: the local name of an image is
    [{record_id}_{first 8 hex characters of the MD5 of the URL}{extension}],
    the extension being the suffix of the URL path, or ".jpg" without one.
    When a file of that name exists, [download_image] returns the name and
    leaves the world as it is: no request, no delay, no file written.  Hence a
    second call after a download that succeeded does nothing more. *)
Theorem download_image_skips_existing_file
    (img_url verb_pair_id : str) (w : World) :
  let filename :=
    verb_pair_id ++ UNDERSCORE ++ firstn 8 (md5_hexdigest img_url)
    ++ (if null (url_path_suffix img_url) then DOT_JPG
        else url_path_suffix img_url) in
  (forall content, IMAGES_DIR w !! filename = Some content ->
     download_image img_url verb_pair_id w = (Returned (Some filename), w)) /\
  (forall name w1,
     download_image img_url verb_pair_id w = (Returned (Some name), w1) ->
     name = filename /\
     download_image img_url verb_pair_id w1 = (Returned (Some name), w1)).
Proof.
  intros filename.
  assert (Hname : image_filename img_url verb_pair_id = filename) by reflexivity.
  split.
  - intros content Hfile. rewrite download_image_eq. cbv zeta.
    rewrite Hname, Hfile. reflexivity.
  - intros name w1 H. rewrite download_image_eq in H. cbv zeta in H.
    rewrite Hname in H. rewrite download_image_eq. cbv zeta. rewrite Hname.
    destruct (IMAGES_DIR w !! filename) as [content|] eqn:Hfile.
    + injection H as <- <-. now rewrite Hfile.
    + destruct (web_image _ img_url) as [content|]; [|discriminate].
      destruct (writable _ Images filename); [|discriminate].
      injection H as <- <-. simpl. now rewrite lookup_insert_eq.
Qed.

End Environment.

Import Examples.

Lemma record_id_joins_pair_with_underscore_witness :
  parse_titled DOOR_TITLE
  = (Returned (Some door_record), snd (parse_titled DOOR_TITLE)) /\
  id door_record = u "開く" ++ UNDERSCORE ++ u "開ける".
Proof.
  assert (E : parse_titled DOOR_TITLE
              = (Returned (Some door_record), snd (parse_titled DOOR_TITLE)))
    by (vm_compute; reflexivity).
  split; [exact E|].
  apply (record_id_joins_pair_with_underscore _ _ _ _ _ _ _ _ _ _ E);
    vm_compute; intuition discriminate.
Defined.

(** C1 fails as stated: the id of the pair (開く, 開ける) is 開く_開ける, with
    an underscore between the forms, and not their concatenation. *)
Lemma record_id_is_not_concatenation :
  exists r w',
    parse_titled DOOR_TITLE = (Returned (Some r), w') /\
    kanji (intransitive r) = u "開く" /\ kanji (transitive r) = u "開ける" /\
    id r = u "開く_開ける" /\
    id r <> kanji (intransitive r) ++ kanji (transitive r).
Proof.
  exists door_record, (snd (parse_titled DOOR_TITLE)).
  split; [vm_compute; reflexivity|].
  repeat split; vm_compute; try reflexivity. discriminate.
Qed.

Lemma title_without_single_separator_not_extractable_witness :
  (parse_verb_pair_title PLAIN_TITLE = None /\
   exists w', parse_titled PLAIN_TITLE = (Returned None, w') /\
              IMAGES_DIR w' = ∅ /\ DATA_DIR w' = ∅) /\
  parse_verb_pair_title SLASH_TITLE
  = Some (strip (u "開く"), strip (u "開ける/あける")).
Proof.
  split.
  - assert (Hnone : forall sep, In sep SEPARATORS ->
              count_occ N.eq_dec (title_head PLAIN_TITLE) sep <> 1%nat).
    { intros sep [<- | [<- | [<- | []]]]; vm_compute; discriminate. }
    destruct (title_without_single_separator_not_extractable
                md5_hexdigest url_path_suffix
                (serving (page_titled PLAIN_TITLE)) (serving IMAGE_BYTES) flat
                ARTICLE_URL BEGINNER PLAIN_TITLE empty_world
                (page_titled PLAIN_TITLE) eq_refl eq_refl)
      as (Hiff & Hart & _).
    split; [apply Hiff, Hnone | apply Hart, Hnone].
  - destruct (title_without_single_separator_not_extractable
                md5_hexdigest url_path_suffix
                (serving (page_titled SLASH_TITLE)) (serving IMAGE_BYTES) flat
                ARTICLE_URL BEGINNER SLASH_TITLE empty_world
                (page_titled SLASH_TITLE) eq_refl eq_refl)
      as (_ & _ & Hsplit).
    apply (Hsplit [] (ch "・") [ch "／"; ch "/"] (u "開く") (u "開ける/あける")).
    + reflexivity.
    + vm_compute. reflexivity.
    + vm_compute. intuition discriminate.
    + vm_compute. intuition discriminate.
    + intros s0 [].
Defined.

(** C2 fails as stated: a title with two recognised separators is extracted
    when one of them occurs once, and an empty part is accepted. *)
Lemma two_separators_or_empty_part_are_extracted :
  (length (List.filter (fun c => existsb (N.eqb c) SEPARATORS)
                       (u "開く・開ける/あける")) = 2%nat /\
   exists r w',
     parse_titled (u "開く・開ける/あける") = (Returned (Some r), w') /\
     kanji (intransitive r) = u "開く" /\
     kanji (transitive r) = u "開ける/あける") /\
  parse_verb_pair_title (u "・開ける") = Some ([], u "開ける").
Proof.
  split; [split|]; [reflexivity | | reflexivity].
  eexists _, _. split; [vm_compute; reflexivity|]. split; reflexivity.
Qed.

Lemma persisted_records_are_extracted_witness :
  exists r,
    DATA_DIR (snd (scrape_titled DOOR_TITLE)) !! u "開く_開ける.json"
    = Some (DocRecord r) /\
    In r [door_record] /\
    parse_verb_pair_title (title r)
    = Some (kanji (intransitive r), kanji (transitive r)).
Proof.
  assert (E : scrape_titled DOOR_TITLE
              = (Returned [door_record], snd (scrape_titled DOOR_TITLE)))
    by (vm_compute; reflexivity).
  destruct (persisted_records_are_extracted
              md5_hexdigest url_path_suffix (serving (page_titled DOOR_TITLE))
              (serving IMAGE_BYTES) flat BEGINNER [ARTICLE_URL] empty_world
              _ _ E)
    as (Hfiles & _).
  destruct (Hfiles (u "開く_開ける.json") (DocRecord door_record))
    as [Hold | (r & Hdoc & _ & Hin & Hp & _)].
  - vm_compute. reflexivity.
  - vm_compute in Hold. discriminate.
  - exists r. split; [|split; [now apply Hin | exact Hp]].
    rewrite <- Hdoc. vm_compute. reflexivity.
Defined.

(** C7 fails as stated: the title ・開ける has nothing before its separator,
    and the record with the empty intransitive kanji is written. *)
Lemma record_with_empty_kanji_is_persisted :
  exists results w' r,
    scrape_titled (u "・開ける") = (Returned results, w') /\
    DATA_DIR w' !! u "_開ける.json" = Some (DocRecord r) /\
    In r results /\
    kanji (intransitive r) = [].
Proof.
  eexists _, _, _. split; [vm_compute; reflexivity|].
  split; [vm_compute; reflexivity|]. split; [now left | reflexivity].
Qed.

(** A title with a slash in its second form: the record cannot be written
    under its id, and the [OSError] ends the run with no file written. *)
Lemma record_with_slash_ends_the_run :
  fst (scrape_titled SLASH_TITLE) = Raised (PyException (u "OSError")) /\
  DATA_DIR (snd (scrape_titled SLASH_TITLE)) = ∅ /\
  IMAGES_DIR (snd (scrape_titled SLASH_TITLE)) = ∅.
Proof. repeat split; vm_compute; reflexivity. Qed.

Lemma download_image_skips_existing_file_witness :
  download_image md5_hexdigest url_path_suffix down flat IMAGE_URL
                 (u "開く_開ける") world_with_image
  = (Returned (Some DOOR_IMAGE), world_with_image) /\
  forall w1,
    download_image md5_hexdigest url_path_suffix (serving IMAGE_BYTES) flat
                   IMAGE_URL (u "開く_開ける") empty_world
    = (Returned (Some DOOR_IMAGE), w1) ->
    download_image md5_hexdigest url_path_suffix (serving IMAGE_BYTES) flat
                   IMAGE_URL (u "開く_開ける") w1
    = (Returned (Some DOOR_IMAGE), w1).
Proof.
  split.
  - apply (proj1 (download_image_skips_existing_file
                    md5_hexdigest url_path_suffix down flat IMAGE_URL
                    (u "開く_開ける") world_with_image) IMAGE_BYTES).
    vm_compute. reflexivity.
  - intros w1 H.
    apply (proj2 (download_image_skips_existing_file
                    md5_hexdigest url_path_suffix (serving IMAGE_BYTES) flat
                    IMAGE_URL (u "開く_開ける") empty_world) _ _ H).
Defined.

Lemma examples_are_the_classified_lines_witness :
  examples (intransitive door_record)
  = [u "ドアが開く"; u "①ドアが【開く,開ける】うえおか②かきくけこさ"] /\
  examples (transitive door_record) = [u "ドアを開ける"].
Proof.
  assert (E : parse_titled DOOR_TITLE
              = (Returned (Some door_record), snd (parse_titled DOOR_TITLE)))
    by (vm_compute; reflexivity).
  destruct (examples_are_the_classified_lines _ _ _ _ _ _ _ _ _ _ E)
    as (soup & Hweb & _ & _ & Hi & Ht & Hei & Het).
  injection Hweb as <-. rewrite Hei, Het. split; vm_compute; reflexivity.
Defined.

Lemma practice_questions_end_at_glyph_or_newline_witness :
  practice_questions door_record
  = [u "①ドアが【開く,開ける】うえおか"; u "②かきくけこさ"; u "②開ける【次】"].
Proof.
  assert (E : parse_titled DOOR_TITLE
              = (Returned (Some door_record), snd (parse_titled DOOR_TITLE)))
    by (vm_compute; reflexivity).
  destruct (practice_questions_end_at_glyph_or_newline _ _ _ _ _ _ _ _ _ _ E)
    as (soup & Hweb & Hq).
  injection Hweb as <-. rewrite Hq; [vm_compute; reflexivity|].
  intros x Hx. apply (proj1 (List.forallb_forall
    (fun c => negb (is_late_glyph c)) BODY) eq_refl) in Hx.
  now apply negb_true_iff in Hx.
Defined.

(** C5 fails as stated: a newline ends the run of ①, which does not reach
    the next glyph. *)
Lemma run_of_question_ends_at_newline :
  let text := u "①あいうえお" ++ [NEWLINE] ++ u "かきくけこ②さしすせそた" in
  firstn 10 (collect_practice_questions text)
  = [u "①あいうえお"; u "②さしすせそた"] /\
  practice_questions_stated text
  = [u "①あいうえお" ++ [NEWLINE] ++ u "かきくけこ"; u "②さしすせそた"] /\
  firstn 10 (collect_practice_questions text) <> practice_questions_stated text.
Proof.
  cbv zeta. split; [|split].
  - vm_compute. reflexivity.
  - vm_compute. reflexivity.
  - vm_compute. discriminate.
Qed.

(** C6 on the code: in the answer block ①まる⑪ばつ the text of ① runs past
    the glyph ⑪, which the class of the pattern does not list. *)
Theorem answer_runs_past_late_glyph :
  collect_answers (u "【答え】①まる⑪ばつ") = [u "まる⑪ばつ"; u "ばつ"].
Proof. vm_compute. reflexivity. Qed.

(** The example of the specification: the block ends before 【次】, whatever
    follows. *)
Lemma answers_of_marked_block (rest : str) :
  collect_answers (u "【答え】①まる②ばつ【次】" ++ rest) = [u "まる"; u "ばつ"].
Proof. reflexivity. Qed.

End ScraperFacts.

(** ** anki_sync.py *)

Module AnkiSyncFacts.
Import Scraper AnkiSync PyStrFacts.

Section Environment.

Variable images_dir : gmap str (list N).
Variable unreadable : str -> bool.
Variable data_dir : gmap str JsonDoc.
Variable b64encode : list N -> str.
Variable ankiconnect : forall A, list SyncEvent -> Action A -> Reply A.

Local Abbreviation anki_request := (@anki_request ankiconnect).
Local Abbreviation check_anki_connection := (check_anki_connection ankiconnect).
Local Abbreviation ensure_deck_exists := (ensure_deck_exists ankiconnect).
Local Abbreviation ensure_model_exists := (ensure_model_exists ankiconnect).
Local Abbreviation store_image := (store_image images_dir unreadable b64encode ankiconnect).
Local Abbreviation add_or_update_note :=
  (add_or_update_note images_dir unreadable b64encode ankiconnect).
Local Abbreviation add_or_update_doc :=
  (add_or_update_doc images_dir unreadable b64encode ankiconnect).
Local Abbreviation sync_loop := (sync_loop images_dir unreadable b64encode ankiconnect).
Local Abbreviation sync_all_verb_pairs :=
  (sync_all_verb_pairs images_dir unreadable data_dir b64encode ankiconnect).
Local Abbreviation unreachable_at := (unreachable_at ankiconnect).
Local Abbreviation ends_when_unreachable := (@ends_when_unreachable ankiconnect).

(** [anki_request] logs the request and turns a missing connection and an
    error of the response into exceptions. *)
Lemma anki_request_eq {A} (action : Action A) (s : Session) :
  anki_request action s =
  match ankiconnect A (log s) action with
  | Unreachable =>
    (Raised (PyException CANNOT_CONNECT), {| log := Sent action :: log s |})
  | ErrorReply error =>
    (Raised (PyException (u "AnkiConnect error: " ++ error)),
     {| log := Sent action :: log s |})
  | Result result => (Returned result, {| log := Sent action :: log s |})
  end.
Proof.
  unfold AnkiSync.anki_request, try_except, bind, gets, record, modify.
  simpl. destruct (ankiconnect A (log s) action); reflexivity.
Qed.

Lemma singleton_split {A} (later before : list A) (e x : A) :
  later ++ e :: before = [x] -> later = [] /\ e = x /\ before = [].
Proof.
  destruct later as [|y later]; simpl; intros H.
  - injection H as -> ->. auto.
  - injection H as _ H. now destruct later.
Qed.

Lemma ends_ret {A} (a : A) : ends_when_unreachable (ret a).
Proof.
  intros s out s' H. injection H as <- <-. exists []. split; [reflexivity|].
  intros later e before H. now destruct later.
Qed.

Lemma ends_raise {A} (e : Exn) : ends_when_unreachable (@raise Session A e).
Proof.
  intros s out s' H. injection H as <- <-. exists []. split; [reflexivity|].
  intros later e' before H. now destruct later.
Qed.

Lemma ends_print (line : list str) :
  ends_when_unreachable (record (Printed line)).
Proof.
  intros s out s' H. injection H as <- <-. exists [Printed line].
  split; [reflexivity|]. intros later e before H.
  symmetry in H. apply singleton_split in H as (-> & -> & ->). discriminate.
Qed.

Lemma ends_request {A} (action : Action A) :
  ends_when_unreachable (anki_request action).
Proof.
  intros s out s' H. rewrite anki_request_eq in H.
  exists [Sent action]. split.
  - destruct (ankiconnect A (log s) action); now injection H as <- <-.
  - intros later e before Hsplit. symmetry in Hsplit.
    apply singleton_split in Hsplit as (-> & -> & ->). simpl.
    destruct (ankiconnect A (log s) action); try discriminate.
    intros _. now injection H as <- <-.
Qed.

Lemma ends_bind {A B} (c : M Session A) (k : A -> M Session B) :
  ends_when_unreachable c -> (forall a, ends_when_unreachable (k a)) ->
  ends_when_unreachable (bind c k).
Proof.
  intros Hc Hk s out s' H. unfold bind in H.
  destruct (c s) as [[a|e1] s1] eqn:E1.
  - destruct (Hc _ _ _ E1) as (new1 & L1 & H1).
    destruct (Hk a _ _ _ H) as (new2 & L2 & H2).
    exists (new2 ++ new1). split; [now rewrite L2, L1, app_assoc|].
    intros later e before Hsplit Hun. symmetry in Hsplit.
    apply app_eq_app in Hsplit as [l [[-> ->] | [-> Hl]]].
    + destruct (H1 _ _ _ eq_refl Hun) as [_ Hout]. discriminate.
    + destruct l as [|e' l]; simpl in Hl.
      * subst new1. destruct (H1 [] e before eq_refl Hun) as [_ Hout].
        discriminate.
      * injection Hl as <- ->. apply (H2 _ _ _ eq_refl).
        now rewrite L1, app_assoc.
  - injection H as <- <-. destruct (Hc _ _ _ E1) as (new1 & L1 & H1).
    exists new1. split; [exact L1|]. intros later e before Hsplit Hun.
    destruct (H1 _ _ _ Hsplit Hun) as [-> Hout]. now injection Hout as ->.
Qed.

Ltac ends :=
  repeat first
    [ apply ends_ret | apply ends_raise | apply ends_print | apply ends_request
    | apply ends_bind; [|intros ?]
    | match goal with
      | |- ends_when_unreachable (if ?b then _ else _) => destruct b
      | |- ends_when_unreachable (match ?x with _ => _ end) => destruct x
      end ].

Lemma ends_ensure_deck_exists : ends_when_unreachable ensure_deck_exists.
Proof. unfold AnkiSync.ensure_deck_exists. ends. Qed.

Lemma ends_ensure_model_exists : ends_when_unreachable ensure_model_exists.
Proof. unfold AnkiSync.ensure_model_exists. ends. Qed.

Lemma ends_store_image (filename : str) :
  ends_when_unreachable (store_image filename).
Proof. unfold AnkiSync.store_image. ends. Qed.

Lemma ends_add_or_update_note (verb_data : VerbPairRecord) :
  ends_when_unreachable (add_or_update_note verb_data).
Proof.
  unfold AnkiSync.add_or_update_note. ends; apply ends_store_image.
Qed.

Lemma ends_add_or_update_doc (doc : JsonDoc) :
  ends_when_unreachable (add_or_update_doc doc).
Proof.
  destruct doc; simpl; [apply ends_add_or_update_note | ends | ends].
Qed.

Lemma ends_sync_loop (docs : list JsonDoc) :
  forall added updated, ends_when_unreachable (sync_loop docs added updated).
Proof.
  induction docs as [|doc docs IH]; intros added updated; simpl.
  - ends.
  - apply ends_bind; [apply ends_add_or_update_doc|].
    intros [|]; apply IH.
Qed.

(** The check of the connection never raises: it answers [False] after its
    diagnostic. *)
Lemma check_anki_connection_eq (s : Session) :
  check_anki_connection s =
  match ankiconnect Z (log s) version with
  | Result v =>
    (Returned true,
     {| log := Printed [u "Connected to AnkiConnect version"; str_of_Z v]
               :: Sent version :: log s |})
  | Unreachable =>
    (Returned false,
     {| log := diagnostic CANNOT_CONNECT ++ Sent version :: log s |})
  | ErrorReply error =>
    (Returned false,
     {| log := diagnostic (u "AnkiConnect error: " ++ error)
               ++ Sent version :: log s |})
  end.
Proof.
  unfold AnkiSync.check_anki_connection, try_except. unfold bind at 1.
  rewrite anki_request_eq.
  destruct (ankiconnect Z (log s) version); reflexivity.
Qed.

(** The run after a check that succeeded. *)
Lemma sync_all_connected (s : Session) (v : Z) :
  ankiconnect Z (log s) version = Result v ->
  exists rest : M Session unit,
    ends_when_unreachable rest /\
    sync_all_verb_pairs s
    = rest {| log := Printed [u "Connected to AnkiConnect version"; str_of_Z v]
                     :: Sent version :: log s |}.
Proof.
  intros Hv. unfold AnkiSync.sync_all_verb_pairs. unfold bind at 1.
  rewrite check_anki_connection_eq, Hv. cbn [negb].
  eexists. split; [|reflexivity].
  ends; try apply ends_ensure_deck_exists; try apply ends_ensure_model_exists;
    apply ends_sync_loop.
Qed.

(** Unreachable at the check: the run returns after the diagnostic, and the
    check is the only request it has sent. *)
Lemma sync_all_unreachable_at_startup (s : Session) :
  ankiconnect Z (log s) version = Unreachable ->
  sync_all_verb_pairs s
  = (Returned tt, {| log := diagnostic CANNOT_CONNECT ++ Sent version :: log s |}).
Proof.
  intros Hv. unfold AnkiSync.sync_all_verb_pairs. unfold bind at 1.
  now rewrite check_anki_connection_eq, Hv.
Qed.

Lemma split_tail {A} (new later before tail : list A) (e : A) :
  new ++ tail = later ++ e :: before ++ tail -> new = later ++ e :: before.
Proof.
  change (later ++ e :: before ++ tail) with (later ++ (e :: before) ++ tail).
  rewrite app_assoc. apply app_inv_tail.
Qed.

Lemma split_not_last {A} (later before : list A) (e : A) :
  before <> [] -> In e (removelast (later ++ e :: before)).
Proof.
  intros H. rewrite removelast_app by discriminate.
  apply in_or_app. right. destruct before; [congruence | now left].
Qed.

Lemma diagnostic_not_unreachable (error : str) (history : list SyncEvent)
    (e : SyncEvent) :
  In e (diagnostic error) -> unreachable_at history e = false.
Proof. intros [<- | [<- | [<- | [<- | []]]]]; reflexivity. Qed.

(** A run whose check failed has sent nothing after the check. *)
Lemma failed_check_sends_nothing (error : str) (s : Session)
    (later before : list SyncEvent) (e : SyncEvent) :
  diagnostic error ++ Sent version :: log s = later ++ e :: before ++ log s ->
  before <> [] ->
  unreachable_at (before ++ log s) e = false.
Proof.
  intros Hlog Hbefore.
  change (diagnostic error ++ Sent version :: log s)
    with ((diagnostic error ++ [Sent version]) ++ log s) in Hlog.
  apply split_tail in Hlog.
  pose proof (split_not_last later before e Hbefore) as Hin.
  rewrite <- Hlog, removelast_app in Hin by discriminate.
  simpl removelast in Hin. rewrite app_nil_r in Hin.
  now apply (diagnostic_not_unreachable error).
Qed.

(** Unreachable at a later request: the run ends there with the exception. *)
Lemma sync_all_unreachable_later (s s' : Session) (out : Outcome unit)
    (later before : list SyncEvent) (e : SyncEvent) :
  sync_all_verb_pairs s = (out, s') ->
  log s' = later ++ e :: before ++ log s ->
  before <> [] ->
  unreachable_at (before ++ log s) e = true ->
  later = [] /\ out = Raised (PyException CANNOT_CONNECT).
Proof.
  intros Hrun Hlog Hbefore Hun.
  destruct (ankiconnect Z (log s) version) as [|error|v] eqn:Hv.
  - rewrite sync_all_unreachable_at_startup in Hrun by assumption.
    injection Hrun as <- <-. simpl log in Hlog.
    rewrite (failed_check_sends_nothing _ _ _ _ _ Hlog Hbefore) in Hun.
    discriminate.
  - unfold AnkiSync.sync_all_verb_pairs in Hrun. unfold bind at 1 in Hrun.
    rewrite check_anki_connection_eq, Hv in Hrun. cbn [negb] in Hrun.
    injection Hrun as <- <-. simpl log in Hlog.
    rewrite (failed_check_sends_nothing _ _ _ _ _ Hlog Hbefore) in Hun.
    discriminate.
  - destruct (sync_all_connected s v Hv) as (rest & Hrest & Erun).
    rewrite Erun in Hrun. destruct (Hrest _ _ _ Hrun) as (new & Hnew & Hends).
    simpl log in Hnew. rewrite Hlog in Hnew.
    match type of Hnew with
    | _ = new ++ ?p :: ?v :: log s =>
      change (new ++ p :: v :: log s) with (new ++ [p; v] ++ log s) in Hnew;
      rewrite (app_assoc new) in Hnew
    end.
    symmetry in Hnew. apply split_tail in Hnew.
    apply app_eq_app in Hnew as [l [[Hnew Hl] | [Hl Hb]]].
    + destruct l as [|x l]; simpl in Hl.
      * injection Hl as He Hb. subst e. discriminate.
      * injection Hl as He Hb. subst x before.
        apply (Hends later e l); [exact Hnew|].
        simpl log. now rewrite <- app_assoc in Hun.
    + exfalso. destruct l as [|x [|y l]]; simpl in Hb.
      * injection Hb as He Hb. subst e. discriminate.
      * injection Hb as _ He Hb. now apply Hbefore.
      * injection Hb as _ _ Hb. now destruct l.
Qed.

(** *** The fields of a note *)

Lemma format_practice_questions_eq (questions : list str) :
  format_practice_questions questions = join BR (selected_questions questions).
Proof.
  unfold format_practice_questions, selected_questions.
  destruct (null (List.filter has_choices questions)); [|reflexivity].
  now rewrite List.firstn_firstn.
Qed.

Lemma has_choices_spec (q : str) :
  has_choices q = true <-> In LBRACKET_WIDE q \/ In LBRACKET q.
Proof. unfold has_choices. now rewrite orb_true_iff, !isin_single. Qed.

Lemma in_firstn {A} (n : nat) (l : list A) (x : A) :
  In x (firstn n l) -> In x l.
Proof.
  revert l. induction n as [|n IH]; intros [|y l]; simpl; try tauto.
  intros [-> | H]; [now left | right; now apply IH].
Qed.

Lemma selected_questions_spec (questions : list str) :
  (length (selected_questions questions) <= 5)%nat /\
  (forall q, In q (selected_questions questions) -> In q questions) /\
  (List.filter has_choices questions <> [] ->
   selected_questions questions
   = firstn 5 (List.filter has_choices questions) /\
   forall q, In q (selected_questions questions) ->
             In LBRACKET_WIDE q \/ In LBRACKET q) /\
  (List.filter has_choices questions = [] ->
   selected_questions questions = firstn 5 questions).
Proof.
  unfold selected_questions. split; [apply List.firstn_le_length|].
  destruct (List.filter has_choices questions) as [|p preferred] eqn:E; simpl null;
    cbv iota.
  - split; [intros q; apply in_firstn|]. split; [congruence | reflexivity].
  - split; [|split; [|discriminate]].
    + intros q Hq. apply in_firstn in Hq. rewrite <- E in Hq.
      now apply List.filter_In in Hq.
    + intros _. split; [reflexivity|]. intros q Hq. apply in_firstn in Hq.
      rewrite <- E in Hq. apply List.filter_In in Hq as [_ Hq].
      now apply has_choices_spec.
Qed.

(** C10: the note that [add_or_update_note] sends holds, in PracticeQuestions,
    at most 5 questions joined by [<br>] (the first five of those with ［ or
    【 when there are any, else the first five of all) and, in Answers, the
    first 5 answers at most; what lies beyond is not sent. *)
Theorem synced_note_holds_five_questions_and_answers
    (verb_data : VerbPairRecord) (s s' : Session) (is_new : bool) :
  add_or_update_note verb_data s = (Returned is_new, s') ->
  exists line e rest fields,
    log s' = Printed line :: e :: rest /\
    note_sent e = Some fields /\
    let questions := practice_questions verb_data in
    let preferred := List.filter has_choices questions in
    field PracticeQuestions fields
    = Some (join BR (selected_questions questions)) /\
    field Answers fields = Some (join BR (firstn 5 (answers verb_data))) /\
    (length (selected_questions questions) <= 5)%nat /\
    (length (firstn 5 (answers verb_data)) <= 5)%nat /\
    (forall q, In q (selected_questions questions) -> In q questions) /\
    (preferred <> [] ->
     selected_questions questions = firstn 5 preferred /\
     forall q, In q (selected_questions questions) ->
               In LBRACKET_WIDE q \/ In LBRACKET q) /\
    (preferred = [] -> selected_questions questions = firstn 5 questions).
Proof.
  unfold AnkiSync.add_or_update_note. unfold bind at 1.
  rewrite anki_request_eq.
  destruct (ankiconnect _ (log s) (findNotes _)) as [| |existing];
    try discriminate.
  unfold bind at 1.
  match goal with
  | |- context [match ?c ?s0 with _ => _ end] =>
    destruct (c s0) as [[image_field|e0] s1]
  end; [|discriminate].
  assert (Hfields : forall f,
    f = note_fields verb_data image_field ->
    field PracticeQuestions f
    = Some (join BR (selected_questions (practice_questions verb_data))) /\
    field Answers f = Some (join BR (firstn 5 (answers verb_data)))).
  { intros f ->. split; [|reflexivity].
    rewrite <- format_practice_questions_eq. reflexivity. }
  destruct (selected_questions_spec (practice_questions verb_data))
    as (Hlen & Hsub & Hpref & Hall).
  destruct existing as [|note_id existing].
  - unfold bind at 1. rewrite anki_request_eq.
    destruct (ankiconnect _ (log s1) (addNote _ _ _ _)); try discriminate.
    intros H. injection H as <- <-.
    destruct (Hfields _ eq_refl) as [Hq Ha].
    eexists _, _, _, _. split; [reflexivity|]. split; [reflexivity|].
    cbv zeta. repeat split; try assumption;
      try apply List.firstn_le_length; apply Hpref; assumption.
  - unfold bind at 1. rewrite anki_request_eq.
    destruct (ankiconnect _ (log s1) (updateNoteFields _ _)); try discriminate.
    intros H. injection H as <- <-.
    destruct (Hfields _ eq_refl) as [Hq Ha].
    eexists _, _, _, _. split; [reflexivity|]. split; [reflexivity|].
    cbv zeta. repeat split; try assumption;
      try apply List.firstn_le_length; apply Hpref; assumption.
Qed.

End Environment.

Import Examples ScraperFacts.

Lemma synced_note_holds_five_questions_and_answers_witness :
  exists line e rest fields,
    log (snd (add_or_update_note ∅ only_the_directory b64encode accepting quiz_record
                fresh_session))
    = Printed line :: e :: rest /\
    note_sent e = Some fields /\
    field PracticeQuestions fields
    = Some (u "②電気【が,を】消す<br>③火【が,を】消える<br>④火［が,を］消す<br>⑤字【が,を】消える<br>⑥字【が,を】消す") /\
    field Answers fields = Some (u "が<br>を<br>が<br>を<br>が").
Proof.
  destruct (synced_note_holds_five_questions_and_answers
              ∅ only_the_directory b64encode accepting quiz_record fresh_session
              (snd (add_or_update_note ∅ only_the_directory b64encode accepting quiz_record
                      fresh_session)) true)
    as (line & e & rest & fields & Hlog & Hsent & Hq & Ha & _).
  - vm_compute. reflexivity.
  - exists line, e, rest, fields. repeat split; assumption.
Defined.

(** C9, amended: a page that cannot be fetched and an image that cannot be
    downloaded are skipped, and the loops go on with the articles and images
    that are left;
    a sync run that finds AnkiConnect unreachable at its check returns after
    the diagnostic with nothing else sent; a request of a sync run after the
    check that finds AnkiConnect unreachable ends the run with the exception,
    and nothing is sent or printed after it. *)
Theorem connectivity_failures_skip_or_end_the_sync :
  (forall md5 suffix web_page web_image writable level url rest acc w,
     web_page (Sleep REQUEST_DELAY :: Output [u "Parsing:"; url] :: trace w) url
     = None ->
     scrape_articles md5 suffix web_page web_image writable level
                     (url :: rest) acc w
     = scrape_articles md5 suffix web_page web_image writable level rest acc
         (after [Output [u "Error fetching"; url]; HttpGet url;
                 Sleep REQUEST_DELAY; Output [u "Parsing:"; url]] w)) /\
  (forall md5 suffix web_image writable verb_id img rest acc w,
     (negb (null (img_src img)) && isin HOST_RESIZE (img_src img))
     || isin HOST_LIVEDOOR (img_src img) = true ->
     IMAGES_DIR w !! image_filename md5 suffix (img_src img) verb_id = None ->
     web_image (Sleep (REQUEST_DELAY / 2) :: trace w) (img_src img) = None ->
     download_images md5 suffix web_image writable verb_id (img :: rest) acc w
     = download_images md5 suffix web_image writable verb_id rest acc
         (after [Output [u "Error downloading image"; img_src img];
                 HttpGet (img_src img); Sleep (REQUEST_DELAY / 2)] w)) /\
  (forall images_dir unreadable data_dir b64
          (ankiconnect : forall A, list SyncEvent -> Action A -> Reply A) s,
     ankiconnect Z (log s) version = Unreachable ->
     sync_all_verb_pairs images_dir unreadable data_dir b64 ankiconnect s
     = (Returned tt,
        {| log := diagnostic CANNOT_CONNECT ++ Sent version :: log s |})) /\
  (forall images_dir unreadable data_dir b64
          (ankiconnect : forall A, list SyncEvent -> Action A -> Reply A)
          s out s' later e before,
     sync_all_verb_pairs images_dir unreadable data_dir b64 ankiconnect s
     = (out, s') ->
     log s' = later ++ e :: before ++ log s ->
     before <> [] ->
     unreachable_at ankiconnect (before ++ log s) e = true ->
     later = [] /\ out = Raised (PyException CANNOT_CONNECT)).
Proof.
  split; [|split; [|split]].
  - intros. now apply failed_article_is_skipped.
  - intros. now apply failed_image_is_skipped.
  - intros. now apply sync_all_unreachable_at_startup.
  - intros. eapply sync_all_unreachable_later; eassumption.
Qed.

Lemma connectivity_failures_skip_or_end_the_sync_witness :
  scrape_articles md5_hexdigest url_path_suffix down down flat BEGINNER
                  [ARTICLE_URL] [] empty_world
  = (Returned [],
     after [Output [u "Error fetching"; ARTICLE_URL]; HttpGet ARTICLE_URL;
            Sleep REQUEST_DELAY; Output [u "Parsing:"; ARTICLE_URL]]
           empty_world) /\
  sync_all_verb_pairs ∅ only_the_directory two_records b64encode unreachable fresh_session
  = (Returned tt, {| log := diagnostic CANNOT_CONNECT ++ [Sent version] |}) /\
  fst (sync_all_verb_pairs ∅ only_the_directory two_records b64encode (reachable_for 11)
                           fresh_session)
  = Raised (PyException CANNOT_CONNECT).
Proof.
  destruct connectivity_failures_skip_or_end_the_sync
    as (Hpage & _ & Hstart & Hlater).
  split; [|split].
  - rewrite Hpage by reflexivity. reflexivity.
  - apply Hstart. reflexivity.
  - pose (run := sync_all_verb_pairs ∅ only_the_directory two_records b64encode (reachable_for 11)
                                     fresh_session).
    apply (Hlater ∅ only_the_directory two_records b64encode (reachable_for 11) fresh_session
             (fst run) (snd run) []
             (List.hd (Printed []) (log (snd run))) (List.tl (log (snd run)))).
    + unfold run. now destruct (sync_all_verb_pairs _ _ _ _ _).
    + vm_compute. reflexivity.
    + vm_compute. discriminate.
    + vm_compute. reflexivity.
Defined.

(** C9 fails as stated: AnkiConnect answers the check and the requests for
    the first of two records, and is unreachable for the second; the run is
    ended by the exception and the second record is not synced. *)
Lemma store_lost_after_startup_ends_the_run :
  let run := sync_all_verb_pairs ∅ only_the_directory two_records b64encode (reachable_for 11)
                                 fresh_session in
  length (json_files two_records) = 2%nat /\
  reachable_for 11 Z [] version = Result 6%Z /\
  fst run = Raised (PyException CANNOT_CONNECT) /\
  notes_written (log (snd run)) = 1%nat.
Proof. cbv zeta. repeat split; vm_compute; reflexivity. Qed.

(** A record whose first image has the empty file name: [store_image] finds
    the image directory itself and cannot open it; the [OSError] ends
    [add_or_update_note] after the look-up, before any note is written. *)
Lemma image_without_name_ends_the_note :
  add_or_update_note ∅ only_the_directory b64encode accepting
    (article_record ARTICLE_URL BEGINNER DOOR_TITLE (u "開く") (u "開ける")
       (page_titled DOOR_TITLE)
       [{| filename := []; original_url := IMAGE_URL; alt := [] |}])
    fresh_session
  = (Raised (PyException (u "OSError")),
     {| log := [Sent (findNotes
                        ([QUOTE] ++ u "deck:" ++ DECK_NAME ++ [QUOTE] ++ u " "
                         ++ [QUOTE] ++ u "VerbPairID:" ++ u "開く_開ける"
                         ++ [QUOTE]))] |}).
Proof. vm_compute. reflexivity. Qed.

(** [sync_level] on a level file that holds the dictionary of a record: the
    line with the number of its keys is printed, and the [TypeError] of the
    first key ends the run; on an empty dictionary the run returns. *)
Lemma level_file_with_a_dictionary :
  let run doc level :=
    sync_level ∅ only_the_directory {[ level ++ VERB_PAIRS_JSON := doc ]}
               b64encode accepting level fresh_session in
  fst (run (DocRecord quiz_record) BEGINNER)
  = Raised (PyException (u "TypeError")) /\
  List.hd (Printed []) (log (snd (run (DocRecord quiz_record) BEGINNER)))
  = Printed [u "Syncing"; u "10"; BEGINNER] /\
  fst (run (DocAll []) BEGINNER) = Returned tt.
Proof. cbv zeta. repeat split; vm_compute; reflexivity. Qed.

End AnkiSyncFacts.

(** ** More on titles, readings, questions and answers *)

Module TextFacts.
Import Scraper Stated PyStrFacts TitleFacts ExtractFacts.

(** *** The category suffix of a title *)

Lemma title_head_plain (h : str) :
  (forall c, In c h -> is_bar c = false) -> title_head h = strip h.
Proof.
  intros H. unfold title_head, split_by.
  rewrite split_acc_no_sep; [reflexivity|].
  now apply List.Forall_forall.
Qed.

(** X1: what follows the first bar of a title has no part in the pair: the
    title parses as its head alone does. *)
Theorem suffix_of_title_is_ignored (h suffix : str) (bar : char) :
  (forall c, In c h -> is_bar c = false) ->
  is_bar bar = true ->
  parse_verb_pair_title (h ++ bar :: suffix) = parse_verb_pair_title h.
Proof.
  intros Hh Hbar. unfold parse_verb_pair_title.
  rewrite (title_head_plain h Hh). unfold title_head.
  rewrite split_by_head; [reflexivity | | assumption].
  now apply List.Forall_forall.
Qed.

Lemma suffix_of_title_is_ignored_witness :
  parse_verb_pair_title (u "開く・開ける｜自動詞・他動詞")
  = parse_verb_pair_title (u "開く・開ける").
Proof.
  apply (suffix_of_title_is_ignored (u "開く・開ける") (u "自動詞・他動詞")
           (ch "｜")).
  - intros c Hc. vm_compute in Hc.
    repeat (destruct Hc as [<- | Hc]; [reflexivity|]). destruct Hc.
  - reflexivity.
Defined.

(** *** Readings *)

Lemma kana_run_kana (s : str) : List.Forall (fun c => is_kana c = true) (kana_run s).
Proof.
  induction s as [|c s IH]; simpl; [constructor|].
  destruct (is_kana c) eqn:E; [now constructor | constructor].
Qed.

Lemma kana_run_prefix (s : str) :
  s = kana_run s ++ skipn (length (kana_run s)) s.
Proof.
  induction s as [|c s IH]; simpl; [reflexivity|].
  destruct (is_kana c); simpl; [now f_equal | reflexivity].
Qed.

Lemma kana_run_app (k rest : str) (c : char) :
  List.Forall (fun c => is_kana c = true) k -> is_kana c = false ->
  kana_run (k ++ c :: rest) = k.
Proof.
  induction 1 as [|a k Ha _ IH]; intros Hc; simpl.
  - now rewrite Hc.
  - rewrite Ha. f_equal. now apply IH.
Qed.

Lemma skipn_app_length {A} (x y : list A) : skipn (length x) (x ++ y) = y.
Proof. induction x as [|a x IH]; simpl; [reflexivity | exact IH]. Qed.

Lemma existsb_eqb_in (c : char) (l : list char) :
  existsb (N.eqb c) l = true <-> In c l.
Proof.
  rewrite existsb_exists. split.
  - intros (x & Hx & E). apply N.eqb_eq in E. now subst.
  - intros H. exists c. split; [exact H | apply N.eqb_refl].
Qed.

(** A match at the start of [s]: the verb, an opening character, the
    reading, a closing character. *)
Lemma match_reading_at_spec (verb : str) (opening closing : list char)
    (s k : str) :
  match_reading_at verb opening closing s = Some k ->
  k <> [] /\ List.Forall (fun c => is_kana c = true) k /\
  exists o c rest, In o opening /\ In c closing /\
                   s = verb ++ o :: k ++ c :: rest.
Proof.
  unfold match_reading_at. destruct (startswith s verb) eqn:Hs; [|discriminate].
  apply startswith_spec in Hs as [r ->]. rewrite skipn_app_length.
  destruct r as [|o r]; [discriminate|].
  destruct (existsb (N.eqb o) opening) eqn:Ho; [|discriminate].
  pose proof (kana_run_kana r) as Hk. pose proof (kana_run_prefix r) as Hr.
  destruct (kana_run r) as [|a ks]; [discriminate|].
  destruct (skipn _ r) as [|c rest]; [discriminate|].
  destruct (existsb (N.eqb c) closing) eqn:Hc; [|discriminate].
  intros H. injection H as <-. split; [discriminate|]. split; [exact Hk|].
  exists o, c, rest. rewrite existsb_eqb_in in Ho, Hc.
  repeat split; try assumption. now rewrite Hr at 1.
Qed.

Lemma search_reading_spec (verb : str) (opening closing : list char)
    (text k : str) :
  search_reading verb opening closing text = Some k ->
  k <> [] /\ List.Forall (fun c => is_kana c = true) k /\
  exists pre o c rest, In o opening /\ In c closing /\
                       text = pre ++ verb ++ o :: k ++ c :: rest.
Proof.
  induction text as [|x text IH]; simpl.
  - destruct (match_reading_at verb opening closing []) eqn:E; [|discriminate].
    intros H. injection H as ->.
    destruct (match_reading_at_spec _ _ _ _ _ E) as (H1 & H2 & o & c & r & Ho & Hc & Hs).
    split; [exact H1|]. split; [exact H2|]. now exists [], o, c, r.
  - destruct (match_reading_at verb opening closing (x :: text)) eqn:E.
    + intros H. injection H as ->.
      destruct (match_reading_at_spec _ _ _ _ _ E)
        as (H1 & H2 & o & c & r & Ho & Hc & Hs).
      split; [exact H1|]. split; [exact H2|]. now exists [], o, c, r.
    + intros H. destruct (IH H) as (H1 & H2 & pre & o & c & r & Ho & Hc & Hs).
      split; [exact H1|]. split; [exact H2|].
      exists (x :: pre), o, c, r. repeat split; try assumption.
      simpl. now rewrite Hs.
Qed.

(** X2: a reading that [extract_readings] returns is a non-empty run of
    hiragana and katakana that stands in the text right after the verb,
    between （ or ( and ） or ), or between 【 and 】. *)
Theorem reading_stands_after_the_verb (text verb k : str) :
  extract_readings text verb = Some k ->
  k <> [] /\ List.Forall (fun c => is_kana c = true) k /\
  exists pre o c rest,
    text = pre ++ verb ++ o :: k ++ c :: rest /\
    ((In o OPEN_PARENS /\ In c CLOSE_PARENS) \/
     (o = LBRACKET /\ c = RBRACKET)).
Proof.
  unfold extract_readings.
  destruct (search_reading verb OPEN_PARENS CLOSE_PARENS text) as [k0|] eqn:E.
  - intros H. injection H as ->.
    destruct (search_reading_spec _ _ _ _ _ E)
      as (H1 & H2 & pre & o & c & r & Ho & Hc & Hs).
    split; [exact H1|]. split; [exact H2|]. exists pre, o, c, r. auto.
  - intros H.
    destruct (search_reading_spec _ _ _ _ _ H)
      as (H1 & H2 & pre & o & c & r & Ho & Hc & Hs).
    split; [exact H1|]. split; [exact H2|]. exists pre, o, c, r.
    split; [exact Hs|]. right.
    destruct Ho as [<- | []]. destruct Hc as [<- | []]. auto.
Qed.

Lemma reading_stands_after_the_verb_witness :
  exists pre o c rest,
    u "ドアが開く（あく）。" = pre ++ u "開く" ++ o :: u "あく" ++ c :: rest.
Proof.
  destruct (reading_stands_after_the_verb (u "ドアが開く（あく）。") (u "開く")
              (u "あく") eq_refl) as (_ & _ & pre & o & c & rest & H & _).
  now exists pre, o, c, rest.
Defined.

Lemma match_reading_at_found (verb : str) (opening closing : list char)
    (k rest : str) (o c : char) :
  existsb (N.eqb o) opening = true -> existsb (N.eqb c) closing = true ->
  is_kana c = false ->
  k <> [] -> List.Forall (fun c => is_kana c = true) k ->
  match_reading_at verb opening closing (verb ++ o :: k ++ c :: rest) = Some k.
Proof.
  intros Ho Hc Hnk Hk Hkana. unfold match_reading_at.
  replace (startswith (verb ++ o :: k ++ c :: rest) verb) with true
    by (symmetry; apply startswith_spec; now eexists).
  rewrite skipn_app_length, Ho, kana_run_app by assumption.
  rewrite skipn_app_length, Hc. destruct k; [congruence | reflexivity].
Qed.

Lemma search_reading_found (verb : str) (opening closing : list char)
    (pre s k : str) :
  match_reading_at verb opening closing s = Some k ->
  exists k', search_reading verb opening closing (pre ++ s) = Some k'.
Proof.
  intros H. induction pre as [|x pre [k' IH]].
  - exists k. destruct s; simpl; now rewrite H.
  - simpl app. simpl search_reading.
    destruct (match_reading_at verb opening closing (x :: pre ++ s)) as [k0|].
    + now exists k0.
    + now exists k'.
Qed.

Lemma closing_not_kana (c : char) :
  In c CLOSE_PARENS \/ c = RBRACKET -> is_kana c = false.
Proof. intros [[<- | [<- | []]] | ->]; reflexivity. Qed.

(** X3: where the text holds the verb followed by a reading in parentheses
    or in 【】, [extract_readings] finds a reading. *)
Theorem reading_in_brackets_is_found (pre verb k rest : str) (o c : char) :
  (In o OPEN_PARENS /\ In c CLOSE_PARENS) \/ (o = LBRACKET /\ c = RBRACKET) ->
  k <> [] -> List.Forall (fun c => is_kana c = true) k ->
  exists k', extract_readings (pre ++ verb ++ o :: k ++ c :: rest) verb
             = Some k'.
Proof.
  intros Hoc Hk Hkana. unfold extract_readings.
  destruct (search_reading verb OPEN_PARENS CLOSE_PARENS
              (pre ++ verb ++ o :: k ++ c :: rest)) as [k0|] eqn:E.
  - now exists k0.
  - destruct Hoc as [[Ho Hc] | [-> ->]].
    + exfalso.
      destruct (search_reading_found verb OPEN_PARENS CLOSE_PARENS pre
                  (verb ++ o :: k ++ c :: rest) k) as [k' Hk'].
      * apply match_reading_at_found; try assumption;
          try (now apply existsb_eqb_in).
        apply closing_not_kana. now left.
      * congruence.
    + apply (search_reading_found verb [LBRACKET] [RBRACKET] pre
               (verb ++ LBRACKET :: k ++ RBRACKET :: rest) k).
      now apply match_reading_at_found.
Qed.

Lemma reading_in_brackets_is_found_witness :
  exists k', extract_readings (u "ドアを開ける【あける】") (u "開ける") = Some k'.
Proof.
  apply (reading_in_brackets_is_found (u "ドアを") (u "開ける") (u "あける") []
           (ch "【") (ch "】")).
  - right. split; reflexivity.
  - discriminate.
  - repeat constructor.
Defined.

(** *** What trimming keeps *)

Lemma rstrip_spaces_prefix (s : str) :
  exists ws, List.Forall (fun c => isspace c = true) ws /\ s = rstrip s ++ ws.
Proof.
  unfold rstrip. destruct (lstrip_spaces_suffix (rev s)) as (ws & Hws & H).
  exists (rev ws). split.
  - apply List.Forall_forall. intros c Hc. apply List.in_rev in Hc.
    revert c Hc. now apply List.Forall_forall.
  - rewrite <- rev_app_distr, <- H. now rewrite rev_involutive.
Qed.

(** A string is its trimmed form between two runs of spaces. *)
Lemma strip_between_spaces (s : str) :
  exists ws1 ws2,
    List.Forall (fun c => isspace c = true) ws1 /\
    List.Forall (fun c => isspace c = true) ws2 /\
    s = ws1 ++ strip s ++ ws2.
Proof.
  destruct (lstrip_spaces_suffix s) as (ws1 & H1 & E1).
  destruct (rstrip_spaces_prefix (lstrip s)) as (ws2 & H2 & E2).
  exists ws1, ws2. repeat split; try assumption.
  unfold strip. now rewrite <- E2.
Qed.

Lemma strip_incl (s : str) (c : char) : In c (strip s) -> In c s.
Proof.
  intros H. destruct (strip_between_spaces s) as (ws1 & ws2 & _ & _ & E).
  rewrite E. apply in_or_app. right. apply in_or_app. now left.
Qed.

Lemma strip_keeps (s : str) (c : char) :
  isspace c = false -> In c s -> In c (strip s).
Proof.
  intros Hc H. destruct (strip_between_spaces s) as (ws1 & ws2 & H1 & H2 & E).
  rewrite E in H. apply in_app_or in H as [H | H].
  - rewrite List.Forall_forall in H1. apply H1 in H. congruence.
  - apply in_app_or in H as [H | H]; [exact H|].
    rewrite List.Forall_forall in H2. apply H2 in H. congruence.
Qed.

Lemma strip_cons_nonspace (c : char) (s : str) :
  isspace c = false -> strip (c :: s) = c :: rstrip s.
Proof.
  intros Hc. unfold strip. simpl lstrip. rewrite Hc.
  exact (rstrip_app_nonspace [] s c Hc).
Qed.

(** *** Answers *)

Lemma item_run_no_stop (s : str) :
  List.Forall (fun c => item_stop c = false) (item_run s).
Proof.
  induction s as [|c s IH]; simpl; [constructor|].
  destruct (item_stop c) eqn:E; [constructor | now constructor].
Qed.

Lemma search_item_run (c : char) (text g : str) :
  search_item c text = Some g ->
  g <> [] /\ List.Forall (fun x => item_stop x = false) g.
Proof.
  induction text as [|x rest IH]; simpl; [discriminate|].
  destruct ((x =? c) && negb (null (item_run rest))) eqn:E; [|exact IH].
  intros H. injection H as <-. apply andb_true_iff in E as [_ E].
  split; [|apply item_run_no_stop]. now destruct (item_run rest).
Qed.

(** The loop over the glyphs gives at most one answer a glyph. *)
Lemma answer_loop (answer_text : str) (glyphs : list char) :
  forall acc,
    fold_left (answer_step answer_text) glyphs acc
    = acc ++ flat_map (fun c => match search_item c answer_text with
                                | Some g => [strip g]
                                | None => []
                                end) glyphs.
Proof.
  induction glyphs as [|c glyphs IH]; intros acc; simpl.
  - now rewrite app_nil_r.
  - rewrite IH. unfold answer_step.
    destruct (search_item c answer_text); simpl;
      now rewrite <- ?app_assoc.
Qed.

Lemma flat_map_short {A B} (f : A -> list B) (l : list A) :
  (forall a, (length (f a) <= 1)%nat) ->
  (length (flat_map f l) <= length l)%nat.
Proof.
  intros H. induction l as [|a l IH]; simpl; [lia|].
  rewrite length_app. specialize (H a). lia.
Qed.

(** X4: there are at most 15 answers, one for a glyph; an answer is trimmed
    and holds no newline and none of the glyphs ①…⑩. *)
Theorem answers_are_few_and_clean (text : str) :
  (length (collect_answers text) <= 15)%nat /\
  forall a, In a (collect_answers text) ->
    strip a = a /\ ~ In NEWLINE a /\ forall c, In c a -> item_stop c = false.
Proof.
  unfold collect_answers.
  destruct (search_answer_section text) as [answer_text|];
    [|split; [simpl; lia | intros a []]].
  rewrite answer_loop, app_nil_l. split.
  - change 15%nat with (length circled_numbers). apply flat_map_short.
    intros c. destruct (search_item c answer_text); simpl; lia.
  - intros a Ha. apply in_flat_map in Ha as (c & _ & Ha).
    destruct (search_item c answer_text) as [g|] eqn:E; [|destruct Ha].
    destruct Ha as [<- | []]. apply search_item_run in E as [_ Hg].
    rewrite List.Forall_forall in Hg.
    assert (Hclean : forall x, In x (strip g) -> item_stop x = false).
    { intros x Hx. apply Hg. now apply strip_incl. }
    split; [apply strip_idempotent|]. split; [|exact Hclean].
    intros Hn. apply Hclean in Hn. discriminate.
Qed.

Lemma answers_are_few_and_clean_witness :
  strip (u "ばつ") = u "ばつ" /\ ~ In NEWLINE (u "ばつ").
Proof.
  destruct (answers_are_few_and_clean (u "【答え】①まる②ばつ【次】")) as [_ H].
  destruct (H (u "ばつ")) as (H1 & H2 & _); [right; now left|].
  now split.
Defined.

Lemma search_answer_section_marker (text block : str) :
  search_answer_section text = Some block -> isin ANSWER_MARKER text = true.
Proof.
  induction text as [|x text IH]; [discriminate|].
  cbn [search_answer_section]. unfold isin; fold isin.
  destruct (startswith (x :: text) ANSWER_MARKER); [reflexivity|].
  intros H. now rewrite (IH H).
Qed.

(** X5: a text without the marker 【答え】 gives no answers. *)
Theorem no_marker_no_answers (text : str) :
  isin ANSWER_MARKER text = false -> collect_answers text = [].
Proof.
  intros H. unfold collect_answers.
  destruct (search_answer_section text) as [block|] eqn:E; [|reflexivity].
  apply search_answer_section_marker in E. congruence.
Qed.

Lemma no_marker_no_answers_witness :
  collect_answers (u "①まる②ばつ【次】") = [].
Proof. apply no_marker_no_answers. reflexivity. Defined.

(** *** Practice questions *)

Lemma findall_item_shape (c : char) (text : str) :
  forall k m, In m (findall_item c k text) ->
    exists run, m = c :: run /\ run <> [] /\
                List.Forall (fun x => item_stop x = false) run.
Proof.
  induction text as [|x rest IH]; intros k m; simpl; [intros []|].
  destruct k as [|k]; [|apply IH].
  destruct (x =? c); [|apply IH].
  pose proof (item_run_no_stop rest) as Hrun.
  destruct (item_run rest) as [|y run]; [apply IH|].
  intros [<- | H]; [|exact (IH _ _ H)].
  exists (y :: run). split; [reflexivity|]. split; [discriminate | exact Hrun].
Qed.

Lemma glyph_not_space (g : char) : In g circled_numbers -> isspace g = false.
Proof.
  intros H. vm_compute in H.
  repeat (destruct H as [<- | H]; [reflexivity|]). destruct H.
Qed.

Lemma glyph_not_newline (g : char) : In g circled_numbers -> g <> NEWLINE.
Proof.
  intros H. vm_compute in H.
  repeat (destruct H as [<- | H]; [discriminate|]). destruct H.
Qed.

Lemma repair_cases (m : str) :
  (repair m = m /\ (In LBRACKET m -> In RBRACKET m)) \/
  repair m = m ++ [RBRACKET].
Proof.
  unfold repair.
  destruct (isin [LBRACKET] m) eqn:El; destruct (isin [RBRACKET] m) eqn:Er;
    simpl; auto; left; split; try reflexivity.
  - intros _. now apply isin_single.
  - intros H. apply isin_single in H. congruence.
  - intros H. apply isin_single in H. congruence.
Qed.

(** X6: a practice question begins with one of the glyphs ①…⑮, holds no
    newline, and holds 】 whenever it holds 【. *)
Theorem questions_begin_with_glyph_and_close_brackets (text q : str) :
  In q (collect_practice_questions text) ->
  (exists g rest, q = g :: rest /\ In g circled_numbers) /\
  ~ In NEWLINE q /\
  (In LBRACKET q -> In RBRACKET q).
Proof.
  unfold collect_practice_questions. rewrite glyph_loop, app_nil_l.
  intros H. apply in_flat_map in H as (g & Hg & H).
  apply in_map_iff in H as (m' & <- & H).
  apply List.filter_In in H as [H _].
  apply in_map_iff in H as (m & <- & H).
  apply findall_item_shape in H as (run & -> & Hne & Hrun).
  rewrite List.Forall_forall in Hrun.
  pose proof (glyph_not_space g Hg) as Hspace.
  assert (Hhead : exists x, repair (g :: run) = g :: x).
  { destruct (repair_cases (g :: run)) as [[-> _] | ->]; now eexists. }
  destruct Hhead as [x Hx].
  assert (Hnl : ~ In NEWLINE (repair (g :: run))).
  { intros Hin.
    assert (Hm : In NEWLINE (g :: run)).
    { destruct (repair_cases (g :: run)) as [[E _] | E]; rewrite E in Hin;
        [exact Hin|].
      apply in_app_or in Hin as [Hin | [Hin | []]]; [exact Hin | discriminate]. }
    destruct Hm as [Hm | Hm].
    - now apply (glyph_not_newline g Hg).
    - apply Hrun in Hm. discriminate. }
  split; [|split].
  - rewrite Hx, strip_cons_nonspace by assumption. now eexists _, _.
  - intros Hin. apply Hnl. now apply strip_incl.
  - intros Hin. apply strip_incl in Hin. apply strip_keeps; [reflexivity|].
    destruct (repair_cases (g :: run)) as [[E Hb] | E]; rewrite E in *.
    + now apply Hb.
    + apply in_or_app. right. now left.
Qed.

Lemma questions_begin_with_glyph_and_close_brackets_witness :
  In RBRACKET (u "①ドア【開く" ++ [RBRACKET]).
Proof.
  destruct (questions_begin_with_glyph_and_close_brackets
              (u "①ドア【開く②ドアを開ける。") (u "①ドア【開く" ++ [RBRACKET]))
    as (_ & _ & H).
  - vm_compute. now left.
  - apply H. vm_compute. tauto.
Defined.

End TextFacts.

(** ** More on a scrape run *)

Module RunFacts.
Import Scraper Stated Observed PyStrFacts TitleFacts ExtractFacts ScraperFacts.

Lemma delayed_app (new old : list Event) :
  delayed new = true -> delayed old = true -> delayed (new ++ old) = true.
Proof.
  intros Hn Ho. induction new as [|e new IH]; [exact Ho|].
  destruct e as [d|url|line]; cbn [delayed app] in *; try now apply IH.
  destruct new as [|e' new]; [discriminate|].
  destruct e' as [d| |]; try discriminate.
  apply andb_true_iff in Hn as [Hd Hn]. cbn [app].
  apply andb_true_iff. split; [exact Hd | exact (IH Hn)].
Qed.

Section Environment.

Variable md5_hexdigest : str -> str.
Variable url_path_suffix : str -> str.
Variable web_page : list Event -> str -> option Page.
Variable web_image : list Event -> str -> option (list N).
Variable writable : World -> Folder -> str -> bool.

Local Abbreviation image_filename := (image_filename md5_hexdigest url_path_suffix).
Local Abbreviation download_image :=
  (download_image md5_hexdigest url_path_suffix web_image writable).
Local Abbreviation download_images :=
  (download_images md5_hexdigest url_path_suffix web_image writable).
Local Abbreviation parse_article :=
  (parse_article md5_hexdigest url_path_suffix web_page web_image writable).
Local Abbreviation scrape_articles :=
  (scrape_articles md5_hexdigest url_path_suffix web_page web_image writable).
Local Abbreviation scrape_level :=
  (scrape_level md5_hexdigest url_path_suffix web_page web_image writable).

Local Abbreviation entry_of := (entry_of md5_hexdigest url_path_suffix).

(** The image loop: what it adds are entries of trusted images whose files
    are there when it returns, and its events are delayed requests. *)
Lemma download_images_entries (verb_id : str) (imgs : list Img) :
  forall acc w, exists added w' new,
    download_images verb_id imgs acc w = (Returned (acc ++ added), w') /\
    trace w' = new ++ trace w /\ delayed new = true /\
    IMAGES_DIR w ⊆ IMAGES_DIR w' /\
    forall e, In e added -> entry_of verb_id imgs w' e.
Proof.
  induction imgs as [|img rest IH]; intros acc w.
  - exists [], w, []. simpl. rewrite app_nil_r.
    repeat (split; [reflexivity|]). intros e [].
  - assert (Hlift : forall acc0 w0 pre new0,
      trace w0 = new0 ++ trace w -> delayed new0 = true ->
      IMAGES_DIR w ⊆ IMAGES_DIR w0 ->
      (forall w', IMAGES_DIR w0 ⊆ IMAGES_DIR w' ->
         forall e, In e pre -> entry_of verb_id (img :: rest) w' e) ->
      acc0 = acc ++ pre ->
      exists added w' new,
        download_images verb_id rest acc0 w0 = (Returned (acc ++ added), w') /\
        trace w' = new ++ trace w /\ delayed new = true /\
        IMAGES_DIR w ⊆ IMAGES_DIR w' /\
        forall e, In e added -> entry_of verb_id (img :: rest) w' e).
    { intros acc0 w0 pre new0 Ht Hd Hi Hpre ->.
      destruct (IH (acc ++ pre) w0) as (added & w' & new & E & Ht' & Hd' & Hi' & He).
      exists (pre ++ added), w', (new ++ new0).
      split; [now rewrite app_assoc|].
      split; [now rewrite Ht', Ht, app_assoc|].
      split; [now apply delayed_app|].
      split; [now transitivity (IMAGES_DIR w0)|].
      intros e Hin. apply in_app_or in Hin as [Hin | Hin].
      - now apply Hpre.
      - destruct (He e Hin) as ((i & Hi1 & Hi2) & H2 & H3 & H4).
        split; [exists i; split; [now right | exact Hi2]|]. auto. }
    simpl Scraper.download_images.
    destruct ((negb (null (img_src img)) && isin HOST_RESIZE (img_src img))
              || isin HOST_LIVEDOOR (img_src img)) eqn:Hhost.
    2:{ apply (Hlift acc w [] []); try reflexivity.
        - intros w' _ e []. - now rewrite app_nil_r. }
    unfold bind. rewrite download_image_eq. cbv zeta.
    assert (Hentry : forall w0, is_Some (IMAGES_DIR w0 !! image_filename (img_src img) verb_id) ->
      forall w', IMAGES_DIR w0 ⊆ IMAGES_DIR w' ->
      forall e, In e [{| filename := image_filename (img_src img) verb_id;
                         original_url := img_src img; alt := img_alt img |}] ->
                entry_of verb_id (img :: rest) w' e).
    { intros w0 [content Hc] w' Hsub e [<- | []]. simpl.
      split; [exists img; split; [now left | now split]|].
      split; [exact Hhost|]. split; [reflexivity|].
      exists content. simpl. eapply lookup_weaken; eassumption. }
    destruct (IMAGES_DIR w !! image_filename (img_src img) verb_id)
      as [content|] eqn:Hfile.
    + destruct (null (image_filename (img_src img) verb_id)); cbv iota beta.
      * apply (Hlift acc w [] []); try reflexivity.
        -- intros w' _ e []. -- now rewrite app_nil_r.
      * eapply (Hlift _ w _ []); try reflexivity.
        apply Hentry. rewrite Hfile. now eexists.
    + destruct (web_image _ (img_src img)) as [content|].
      * destruct (writable _ Images _).
        -- destruct (null (image_filename (img_src img) verb_id));
             cbv iota beta.
           ++ eapply (Hlift acc _ [] [_; _]); try reflexivity.
              ** now apply insert_subseteq.
              ** intros w' _ e []. ** now rewrite app_nil_r.
           ++ eapply (Hlift _ _ _ [_; _]); try reflexivity.
              ** now apply insert_subseteq.
              ** apply Hentry. simpl. rewrite lookup_insert_eq. now eexists.
        -- eapply (Hlift acc _ [] [_; _; _]); try reflexivity.
           ++ intros w' _ e []. ++ now rewrite app_nil_r.
      * eapply (Hlift acc _ [] [_; _; _]); try reflexivity.
        -- intros w' _ e []. -- now rewrite app_nil_r.
Qed.

(** One article: its events are delayed requests, no image file is replaced,
    no record is written, and the images of the record are entries. *)
Lemma parse_article_run (url level : str) (w : World) :
  exists out w' new,
    parse_article url level w = (Returned out, w') /\
    trace w' = new ++ trace w /\ delayed new = true /\
    IMAGES_DIR w ⊆ IMAGES_DIR w' /\ DATA_DIR w' = DATA_DIR w /\
    match out with
    | None => True
    | Some r =>
      exists soup,
        web_page (Sleep REQUEST_DELAY :: Output [u "Parsing:"; url] :: trace w)
                 url = Some soup /\
        forall e, In e (images r) ->
                  entry_of (id r) (firstn 5 (page_imgs soup)) w' e
    end.
Proof.
  rewrite parse_article_eq.
  destruct (web_page _ url) as [soup|] eqn:Hweb.
  2:{ eexists None, _, [_; _; _; _]. repeat (split; [reflexivity|]). exact I. }
  cbv zeta. destruct (page_title soup) as [title|].
  2:{ eexists None, _, [_; _; _; _]. repeat (split; [reflexivity|]). exact I. }
  destruct (parse_verb_pair_title title) as [[a b]|].
  2:{ eexists None, _, [_; _; _; _]. repeat (split; [reflexivity|]). exact I. }
  match goal with
  | |- context [Scraper.download_images _ _ _ _ ?i ?l ?a ?w0] =>
    destruct (download_images_entries i l a w0)
      as (added & w' & new & E & Ht & Hd & Hi & He)
  end.
  rewrite E. eexists (Some _), w', (new ++ [_; _; _]).
  split; [reflexivity|]. split; [rewrite Ht; simpl; now rewrite <- app_assoc|].
  split; [now apply delayed_app|]. split; [exact Hi|].
  split.
  - pose proof (download_images_returns md5_hexdigest url_path_suffix web_image
                  writable (make_verb_id a b) (firstn 5 (page_imgs soup)) []
                  (after [HttpGet url; Sleep REQUEST_DELAY;
                          Output [u "Parsing:"; url]] w))
      as (images & w2 & E2 & Hdata & _).
    rewrite E in E2. injection E2 as _ <-. exact Hdata.
  - exists soup. split; [reflexivity|]. exact He.
Qed.


(** The loop over the articles, however it ends: its events are delayed
    requests and no image file is replaced; when it returns, there is one
    file for every record it has added, holding the last record with that
    id, the other files stay, and the image files of the records are
    there. *)
Lemma scrape_articles_run (level : str) (urls : list str) :
  forall acc w, exists out w' new,
    scrape_articles level urls acc w = (out, w') /\
    trace w' = new ++ trace w /\ delayed new = true /\
    IMAGES_DIR w ⊆ IMAGES_DIR w' /\
    forall results, out = Returned results ->
      exists added, results = acc ++ added /\
        (forall before r later, added = before ++ r :: later ->
           (forall x, In x later -> id x <> id r) ->
           DATA_DIR w' !! (id r ++ DOT_JSON) = Some (DocRecord r)) /\
        (forall name, (forall r, In r added -> name <> id r ++ DOT_JSON) ->
           DATA_DIR w' !! name = DATA_DIR w !! name) /\
        (forall r e, In r added -> In e (images r) ->
           is_Some (IMAGES_DIR w' !! filename e)).
Proof.
  induction urls as [|url rest IH]; intros acc w.
  - exists (Returned acc), w, []. repeat (split; [reflexivity|]).
    intros results H. injection H as <-. exists []. rewrite app_nil_r.
    split; [reflexivity|]. split; [|split; [reflexivity|]].
    + intros before r later H. now destruct before.
    + intros r e [].
  - rewrite scrape_articles_cons.
    destruct (parse_article_run url level w)
      as (out & w1 & new1 & E & Ht & Hd & Hi & Hdata & Hout).
    rewrite E. destruct out as [r0|].
    + destruct (writable w1 Data _).
      * match goal with
        | |- context [Scraper.scrape_articles _ _ _ _ _ _ _ ?a ?w2] =>
          destruct (IH a w2) as (out & w' & new & E' & Ht' & Hd' & Hi' & Hres)
        end.
        exists out, w', (new ++ Output [u "Saved:"; id r0 ++ DOT_JSON] :: new1).
        split; [exact E'|].
        split; [rewrite Ht'; simpl; now rewrite Ht, <- app_assoc|].
        split; [apply delayed_app; [exact Hd' | exact Hd]|].
        split; [now transitivity (IMAGES_DIR w1)|].
        intros results Eo.
        destruct (Hres results Eo) as (added & -> & Hlast & Hother & Himg).
        exists (r0 :: added). split; [now rewrite <- app_assoc|].
        split; [|split].
        -- intros before r later Hsplit Hlater.
           destruct before as [|x before]; simpl in Hsplit.
           ++ injection Hsplit as <- <-. rewrite Hother.
              ** simpl. apply lookup_insert_eq.
              ** intros x Hx Heq. apply (Hlater x Hx).
                 apply app_inv_tail in Heq. now symmetry.
           ++ injection Hsplit as _ ->. now apply (Hlast before r later).
        -- intros name Hname. rewrite Hother.
           ++ simpl. rewrite lookup_insert_ne; [now rewrite Hdata|].
              intros Heq. apply (Hname r0); [now left | now symmetry].
           ++ intros r Hr. apply Hname. now right.
        -- intros r e [<- | Hr] He; [|now apply (Himg r e)].
           destruct Hout as (soup & _ & Hentries).
           destruct (Hentries e He) as (_ & _ & _ & [content Hc]).
           exists content. eapply lookup_weaken; [|exact Hi']. exact Hc.
      * exists (Raised (PyException (u "OSError"))), w1, new1.
        split; [reflexivity|]. split; [exact Ht|]. split; [exact Hd|].
        split; [exact Hi|]. discriminate.
    + destruct (IH acc w1) as (out & w' & new & E' & Ht' & Hd' & Hi' & Hres).
      exists out, w', (new ++ new1).
      split; [exact E'|].
      split; [now rewrite Ht', Ht, app_assoc|].
      split; [now apply delayed_app|].
      split; [now transitivity (IMAGES_DIR w1)|].
      intros results Eo.
      destruct (Hres results Eo) as (added & -> & Hlast & Hother & Himg).
      exists added. split; [reflexivity|]. split; [exact Hlast|].
      split; [|exact Himg].
      intros name Hname. rewrite Hother by assumption. now rewrite Hdata.
Qed.



End Environment.

Import Examples.




End RunFacts.

(** ** More on a sync run *)

Module SyncRunFacts.
Import Scraper AnkiSync SyncObserved PyStrFacts AnkiSyncFacts.

(** *** The files a sync run reads *)

Lemma endswith_spec (s p : str) :
  endswith s p = true <-> exists pre, s = pre ++ p.
Proof.
  unfold endswith. rewrite startswith_spec. split.
  - intros [r H]. exists (rev r). apply (f_equal (@rev _)) in H.
    now rewrite rev_involutive, rev_app_distr, rev_involutive in H.
  - intros [pre ->]. exists (rev pre). now rewrite rev_app_distr.
Qed.

Lemma in_insert_sorted {V} (kv x : str * V) (l : list (str * V)) :
  In x (insert_sorted kv l) <-> x = kv \/ In x l.
Proof.
  induction l as [|y l IH]; simpl; [intuition|].
  destruct (str_leb (fst kv) (fst y)); simpl; [intuition|].
  rewrite IH. intuition.
Qed.

Lemma in_sorted {V} (x : str * V) (l : list (str * V)) :
  In x (sorted l) <-> In x l.
Proof.
  induction l as [|y l IH]; simpl; [tauto|].
  rewrite in_insert_sorted, IH. intuition.
Qed.

Lemma sorted_length {V} (l : list (str * V)) : length (sorted l) = length l.
Proof.
  induction l as [|y l IH]; simpl; [reflexivity|]. rewrite <- IH.
  generalize (sorted l). clear. intros l.
  induction l as [|z l IH]; simpl; [reflexivity|].
  destruct (str_leb (fst y) (fst z)); simpl; [reflexivity | now rewrite IH].
Qed.

(** The order of [str_leb] is total. *)
Lemma str_leb_total (a b : str) : str_leb a b = false -> str_leb b a = true.
Proof.
  revert b. induction a as [|x a IH]; intros [|y b]; simpl; try discriminate;
    try reflexivity.
  intros H. apply orb_false_iff in H as [Hlt H].
  apply N.ltb_ge in Hlt.
  destruct (N.eqb_spec x y) as [->|Hne].
  - simpl in H. rewrite N.eqb_refl, (IH _ H). now rewrite orb_true_r.
  - replace (y <? x) with true; [reflexivity|].
    symmetry. apply N.ltb_lt. lia.
Qed.

Lemma ascending_cons {V} (a b : str * V) (l : list (str * V)) :
  ascending (a :: b :: l) = str_leb (fst a) (fst b) && ascending (b :: l).
Proof. reflexivity. Qed.

Lemma ascending_tail {V} (a : str * V) (l : list (str * V)) :
  ascending (a :: l) = true -> ascending l = true.
Proof.
  destruct l as [|b l]; [reflexivity|]. rewrite ascending_cons.
  intros H. now apply andb_true_iff in H.
Qed.

Lemma insert_sorted_head {V} (kv h : str * V) (l t : list (str * V)) :
  insert_sorted kv l = h :: t -> h = kv \/ exists l', l = h :: l'.
Proof.
  destruct l as [|z l]; simpl.
  - intros H. injection H as <- _. now left.
  - destruct (str_leb (fst kv) (fst z)); intros H; injection H as <- _;
      [now left | right; now eexists].
Qed.

Lemma ascending_insert {V} (kv : str * V) (l : list (str * V)) :
  ascending l = true -> ascending (insert_sorted kv l) = true.
Proof.
  induction l as [|y l IH]; intros H; [reflexivity|].
  simpl insert_sorted. destruct (str_leb (fst kv) (fst y)) eqn:E.
  - now rewrite ascending_cons, E, H.
  - apply str_leb_total in E. specialize (IH (ascending_tail _ _ H)).
    destruct (insert_sorted kv l) as [|h t] eqn:Ei; [reflexivity|].
    rewrite ascending_cons, IH, andb_true_r.
    destruct (insert_sorted_head _ _ _ _ Ei) as [-> | [l' ->]]; [exact E|].
    rewrite ascending_cons in H. now apply andb_true_iff in H.
Qed.

Lemma ascending_sorted {V} (l : list (str * V)) : ascending (sorted l) = true.
Proof.
  induction l as [|y l IH]; [reflexivity|]. simpl. now apply ascending_insert.
Qed.

Lemma nodup_insert_sorted {V} (kv : str * V) (l : list (str * V)) :
  ~ In (fst kv) (List.map fst l) -> List.NoDup (List.map fst l) ->
  List.NoDup (List.map fst (insert_sorted kv l)).
Proof.
  induction l as [|y l IH]; intros Hin Hnd; simpl.
  - constructor; [intros [] | constructor].
  - destruct (str_leb (fst kv) (fst y)); simpl.
    + now constructor.
    + simpl in Hnd. inversion Hnd as [|? ? Hy Hl]; subst. constructor.
      * intros H. apply in_map_iff in H as (x & Ex & Hx).
        apply in_insert_sorted in Hx as [-> | Hx].
        -- apply Hin. left. now symmetry.
        -- apply Hy. apply in_map_iff. now exists x.
      * apply IH; [|exact Hl]. intros H. apply Hin. now right.
Qed.

Lemma nodup_sorted {V} (l : list (str * V)) :
  List.NoDup (List.map fst l) -> List.NoDup (List.map fst (sorted l)).
Proof.
  induction l as [|y l IH]; intros H; [constructor|].
  simpl in H. inversion H as [|? ? Hy Hl]; subst. simpl.
  apply nodup_insert_sorted.
  - intros Hin. apply Hy. apply in_map_iff in Hin as (x & Ex & Hx).
    apply (proj1 (in_sorted _ _)) in Hx. apply in_map_iff. now exists x.
  - now apply IH.
Qed.

Lemma nodup_filter_fst {V} (p : str * V -> bool) (l : list (str * V)) :
  List.NoDup (List.map fst l) -> List.NoDup (List.map fst (List.filter p l)).
Proof.
  induction l as [|y l IH]; intros H; [constructor|].
  simpl in H. inversion H as [|? ? Hy Hl]; subst. simpl.
  destruct (p y); simpl; [|now apply IH]. constructor; [|now apply IH].
  intros Hin. apply Hy. apply in_map_iff in Hin as (x & Ex & Hx).
  apply List.filter_In in Hx as [Hx _]. apply in_map_iff. now exists x.
Qed.

Lemma in_json_files (data_dir : gmap str JsonDoc) (name : str) (doc : JsonDoc) :
  In (name, doc) (json_files data_dir) <->
  data_dir !! name = Some doc /\ endswith name DOT_JSON = true /\
  endswith name VERB_PAIRS_JSON = false.
Proof.
  unfold json_files. rewrite in_sorted, List.filter_In.
  rewrite <- list_elem_of_In, elem_of_map_to_list. simpl.
  rewrite andb_true_iff, negb_true_iff. tauto.
Qed.

(** X10: a sync run reads every file of the data directory whose name ends
    in ".json" and not in "_verb_pairs.json", each once, in the order of
    their names; the combined files of the levels are never read as
    records. *)
Theorem json_files_are_the_record_files (data_dir : gmap str JsonDoc) :
  (forall name doc,
     In (name, doc) (json_files data_dir) <->
     data_dir !! name = Some doc /\ endswith name DOT_JSON = true /\
     endswith name VERB_PAIRS_JSON = false) /\
  ascending (json_files data_dir) = true /\
  List.NoDup (List.map fst (json_files data_dir)).
Proof.
  split; [|split].
  - intros name doc. apply in_json_files.
  - apply ascending_sorted.
  - unfold json_files. apply nodup_sorted, nodup_filter_fst.
    apply NoDup_ListNoDup, NoDup_fst_map_to_list.
Qed.

(** *** One note *)

Lemma writes_app (a b : list SyncEvent) : writes (a ++ b) = (writes a + writes b)%nat.
Proof. unfold writes. now rewrite List.filter_app, length_app. Qed.

Section Environment.

Variable images_dir : gmap str (list N).
Variable unreadable : str -> bool.
Variable data_dir : gmap str JsonDoc.
Variable b64encode : list N -> str.
Variable ankiconnect : forall A, list SyncEvent -> Action A -> Reply A.

Local Abbreviation anki_request := (@anki_request ankiconnect).
Local Abbreviation check_anki_connection := (check_anki_connection ankiconnect).
Local Abbreviation ensure_deck_exists := (ensure_deck_exists ankiconnect).
Local Abbreviation ensure_model_exists := (ensure_model_exists ankiconnect).
Local Abbreviation store_image := (store_image images_dir unreadable b64encode ankiconnect).
Local Abbreviation add_or_update_note :=
  (add_or_update_note images_dir unreadable b64encode ankiconnect).
Local Abbreviation add_or_update_doc :=
  (add_or_update_doc images_dir unreadable b64encode ankiconnect).
Local Abbreviation sync_loop := (sync_loop images_dir unreadable b64encode ankiconnect).
Local Abbreviation sync_all_verb_pairs :=
  (sync_all_verb_pairs images_dir unreadable data_dir b64encode ankiconnect).
Local Abbreviation sync_level :=
  (sync_level images_dir unreadable data_dir b64encode ankiconnect).

Lemma store_image_eq (filename : str) (s : Session) :
  store_image filename s =
  match images_dir !! filename with
  | None =>
    if unreadable filename then (Raised (PyException (u "OSError")), s)
    else (Returned None, s)
  | Some content =>
    match ankiconnect _ (log s) (storeMediaFile filename (b64encode content)) with
    | Unreachable =>
      (Raised (PyException CANNOT_CONNECT),
       {| log := Sent (storeMediaFile filename (b64encode content)) :: log s |})
    | ErrorReply error =>
      (Raised (PyException (u "AnkiConnect error: " ++ error)),
       {| log := Sent (storeMediaFile filename (b64encode content)) :: log s |})
    | Result stored_name =>
      (Returned (Some match stored_name with
                      | Some name => if null name then filename else name
                      | None => filename
                      end),
       {| log := Sent (storeMediaFile filename (b64encode content)) :: log s |})
    end
  end.
Proof.
  unfold AnkiSync.store_image.
  destruct (images_dir !! filename) as [content|];
    [|now destruct (unreadable filename)].
  unfold bind. rewrite anki_request_eq.
  destruct (ankiconnect _ (log s) (storeMediaFile _ _)) as [| |[name|]];
    try reflexivity.
  now destruct (null name).
Qed.

(** The end of [add_or_update_note], after the events [media] of the
    image. *)
Ltac note_tail media :=
  match goal with
  | |- context [match ?existing with [] => _ | _ :: _ => _ end] =>
    destruct existing as [|note_id rest]
  end;
  unfold bind at 1; rewrite anki_request_eq;
  match goal with
  | |- context [ankiconnect ?A ?h ?a] => destruct (ankiconnect A h a)
  end; try discriminate;
  (let H := fresh in
   intros H; injection H as <- <-;
   eexists _, media, _, _, _;
   split; [reflexivity|]; split; [reflexivity|];
   split; [first [now left | right; now eexists _, _]|];
   split; [|now split];
   first [intros Hx; discriminate Hx | intros _; now split]).

(** What [add_or_update_note] has done when it returns: it has looked for
    the note, stored at most one image, and written the note once. *)
Lemma add_or_update_note_run (verb_data : VerbPairRecord) (s s' : Session)
    (is_new : bool) :
  add_or_update_note verb_data s = (Returned is_new, s') ->
  exists existing media image_field line e,
    ankiconnect _ (log s) (findNotes (find_query (id verb_data)))
    = Result existing /\
    log s' = Printed line :: e :: media
             ++ Sent (findNotes (find_query (id verb_data))) :: log s /\
    (media = [] \/ exists name data, media = [Sent (storeMediaFile name data)]) /\
    (match images verb_data with
     | [] => True
     | first_image :: _ => images_dir !! filename first_image = None
     end -> media = [] /\ image_field = []) /\
    match existing with
    | [] =>
      is_new = true /\
      e = Sent (addNote DECK_NAME MODEL_NAME
                        (note_fields verb_data image_field)
                        (note_tags verb_data))
    | note_id :: _ =>
      is_new = false /\
      e = Sent (updateNoteFields note_id (note_fields verb_data image_field))
    end.
Proof.
  unfold AnkiSync.add_or_update_note. unfold bind at 1.
  rewrite anki_request_eq.
  change ([QUOTE] ++ u "deck:" ++ DECK_NAME ++ [QUOTE] ++ u " " ++
          [QUOTE] ++ u "VerbPairID:" ++ id verb_data ++ [QUOTE])
    with (find_query (id verb_data)).
  destruct (ankiconnect _ (log s) (findNotes _)) as [| |existing] eqn:Hfind;
    try discriminate.
  destruct (images verb_data) as [|first_image others].
  - unfold bind at 1. unfold ret at 1. note_tail (@nil SyncEvent).
  - unfold bind at 1. unfold bind at 1. rewrite store_image_eq.
    destruct (images_dir !! filename first_image) as [content|] eqn:Hfile.
    + destruct (ankiconnect _ _ (storeMediaFile _ _)) as [| |stored];
        try discriminate.
      destruct (null _); unfold ret at 1;
        note_tail [Sent (storeMediaFile (filename first_image)
                                        (b64encode content))].
    + destruct (unreadable _); [discriminate|].
      unfold ret at 1. note_tail (@nil SyncEvent).
Qed.

(** X11: [add_or_update_note] is an upsert by id: when it returns it has
    written the note exactly once, with [updateNoteFields] on the first note
    that [findNotes] gave for the id of the record, or with [addNote] when
    there was none, and it answers [True] only for a new note. *)
Theorem note_is_updated_when_found_else_added
    (verb_data : VerbPairRecord) (s s' : Session) (is_new : bool) :
  add_or_update_note verb_data s = (Returned is_new, s') ->
  exists existing new,
    ankiconnect _ (log s) (findNotes (find_query (id verb_data)))
    = Result existing /\
    log s' = new ++ log s /\
    writes new = 1%nat /\
    is_new = null existing /\
    match existing with
    | [] =>
      exists fields,
        In (Sent (addNote DECK_NAME MODEL_NAME fields (note_tags verb_data))) new
    | note_id :: _ =>
      exists fields, In (Sent (updateNoteFields note_id fields)) new
    end.
Proof.
  intros H. destruct (add_or_update_note_run _ _ _ _ H)
    as (existing & media & image_field & line & e & Hfind & Hlog & Hmedia & _ & He).
  exists existing, (Printed line :: e :: media
                    ++ [Sent (findNotes (find_query (id verb_data)))]).
  split; [exact Hfind|].
  split; [rewrite Hlog; simpl; now rewrite <- app_assoc|].
  assert (Hw : writes media = 0%nat).
  { destruct Hmedia as [-> | (name & data & ->)]; reflexivity. }
  destruct existing as [|note_id rest]; destruct He as [-> ->].
  - split; [|split; [reflexivity|]].
    + change (writes (?a :: ?b :: ?l)) with (writes [a; b] + writes l)%nat.
      rewrite writes_app, Hw. reflexivity.
    + eexists. right. now left.
  - split; [|split; [reflexivity|]].
    + change (writes (?a :: ?b :: ?l)) with (writes [a; b] + writes l)%nat.
      rewrite writes_app, Hw. reflexivity.
    + eexists. right. now left.
Qed.

(** X12: when the record has no image, or the file of its first image is not
    in the image directory, nothing is stored in Anki's media folder and the
    Image field of the note is empty. *)
Theorem note_without_image_file_has_empty_image
    (verb_data : VerbPairRecord) (s s' : Session) (is_new : bool) :
  add_or_update_note verb_data s = (Returned is_new, s') ->
  match images verb_data with
  | [] => True
  | first_image :: _ => images_dir !! filename first_image = None
  end ->
  exists line e fields,
    log s' = Printed line :: e
             :: Sent (findNotes (find_query (id verb_data))) :: log s /\
    note_sent e = Some fields /\
    field Image fields = Some [].
Proof.
  intros H Hmissing. destruct (add_or_update_note_run _ _ _ _ H)
    as (existing & media & image_field & line & e & _ & Hlog & _ & Hm & He).
  destruct (Hm Hmissing) as [-> ->].
  destruct existing as [|note_id rest]; destruct He as [_ ->];
    eexists line, _, _; (split; [exact Hlog|]); split; reflexivity.
Qed.

(** X13: when the file of the first image of the record is there, it is
    stored in Anki's media folder right after the look-up of the note, and
    the Image field of the note is an [<img>] tag on the name that Anki
    answers, or on the file name when it answers none. *)
Theorem note_shows_the_stored_image
    (verb_data : VerbPairRecord) (s s' : Session) (is_new : bool)
    (first_image : ImageEntry) (others : list ImageEntry) (content : list N) :
  add_or_update_note verb_data s = (Returned is_new, s') ->
  images verb_data = first_image :: others ->
  images_dir !! filename first_image = Some content ->
  null (filename first_image) = false ->
  exists stored line e fields,
    ankiconnect _ (Sent (findNotes (find_query (id verb_data))) :: log s)
      (storeMediaFile (filename first_image) (b64encode content))
    = Result stored /\
    log s' = Printed line :: e
             :: Sent (storeMediaFile (filename first_image) (b64encode content))
             :: Sent (findNotes (find_query (id verb_data))) :: log s /\
    note_sent e = Some fields /\
    field Image fields
    = Some (image_tag match stored with
                      | Some name =>
                        if null name then filename first_image else name
                      | None => filename first_image
                      end).
Proof.
  intros H Himages Hfile Hname. revert H.
  unfold AnkiSync.add_or_update_note. unfold bind at 1.
  rewrite anki_request_eq.
  change ([QUOTE] ++ u "deck:" ++ DECK_NAME ++ [QUOTE] ++ u " " ++
          [QUOTE] ++ u "VerbPairID:" ++ id verb_data ++ [QUOTE])
    with (find_query (id verb_data)).
  destruct (ankiconnect _ (log s) (findNotes _)) as [| |existing];
    try discriminate.
  rewrite Himages. unfold bind at 1. unfold bind at 1.
  rewrite store_image_eq, Hfile. cbn [log].
  destruct (ankiconnect _ _ (storeMediaFile _ _)) as [| |stored];
    try discriminate.
  assert (Hstored : null match stored with
                         | Some name =>
                           if null name then filename first_image else name
                         | None => filename first_image
                         end = false).
  { destruct stored as [name|]; [|exact Hname].
    destruct (null name) eqn:E; [exact Hname | exact E]. }
  rewrite Hstored. unfold ret at 1.
  destruct existing as [|note_id rest];
    unfold bind at 1; rewrite anki_request_eq;
    match goal with
    | |- context [ankiconnect ?A ?h ?a] => destruct (ankiconnect A h a)
    end; try discriminate;
    intros H; injection H as <- <-;
    eexists stored, _, _, _;
    (split; [reflexivity|]); (split; [reflexivity|]); split; reflexivity.
Qed.

(** X14: the note that is written carries exactly the fields of the note
    type that [ensure_model_exists] creates, in their order, and its
    [VerbPairID] is the id of the record, by which it is found again. *)
Theorem note_has_the_fields_of_the_model
    (verb_data : VerbPairRecord) (s s' : Session) (is_new : bool) :
  add_or_update_note verb_data s = (Returned is_new, s') ->
  exists line e rest fields,
    log s' = Printed line :: e :: rest /\
    note_sent e = Some fields /\
    List.map fst fields = MODEL_FIELDS /\
    field VerbPairID fields = Some (id verb_data).
Proof.
  intros H. destruct (add_or_update_note_run _ _ _ _ H)
    as (existing & media & image_field & line & e & _ & Hlog & _ & _ & He).
  destruct existing as [|note_id rest]; destruct He as [_ ->];
    eexists line, _, _, _; (split; [exact Hlog|]); repeat split.
Qed.

(** *** The whole run *)

Lemma ensure_deck_quiet (s s' : Session) (out : Outcome unit) :
  ensure_deck_exists s = (out, s') ->
  exists new, log s' = new ++ log s /\ writes new = 0%nat.
Proof.
  unfold AnkiSync.ensure_deck_exists. unfold bind at 1. rewrite anki_request_eq.
  destruct (ankiconnect _ (log s) deckNames) as [| |decks].
  - intros H. injection H as _ <-. now exists [Sent deckNames].
  - intros H. injection H as _ <-. now exists [Sent deckNames].
  - destruct (negb _).
    + unfold bind at 1. rewrite anki_request_eq.
      destruct (ankiconnect _ _ (createDeck _)); intros H; injection H as _ <-;
        [now exists [Sent (createDeck DECK_NAME); Sent deckNames]
        |now exists [Sent (createDeck DECK_NAME); Sent deckNames]
        |now eexists [_; Sent (createDeck DECK_NAME); Sent deckNames]].
    + intros H. injection H as _ <-. now eexists [_; Sent deckNames].
Qed.

Lemma ensure_model_quiet (s s' : Session) (out : Outcome unit) :
  ensure_model_exists s = (out, s') ->
  exists new, log s' = new ++ log s /\ writes new = 0%nat.
Proof.
  unfold AnkiSync.ensure_model_exists. unfold bind at 1. rewrite anki_request_eq.
  destruct (ankiconnect _ (log s) modelNames) as [| |models].
  - intros H. injection H as _ <-. now exists [Sent modelNames].
  - intros H. injection H as _ <-. now exists [Sent modelNames].
  - destruct (negb _).
    + unfold bind at 1. rewrite anki_request_eq.
      destruct (ankiconnect _ _ (createModel _ _)); intros H;
        injection H as _ <-;
        [now exists [Sent (createModel MODEL_NAME MODEL_FIELDS); Sent modelNames]
        |now exists [Sent (createModel MODEL_NAME MODEL_FIELDS); Sent modelNames]
        |now eexists [_; Sent (createModel MODEL_NAME MODEL_FIELDS);
                      Sent modelNames]].
    + intros H. injection H as _ <-. now eexists [_; Sent modelNames].
Qed.

(** The loop counts one note for every document, and writes one. *)
Lemma sync_loop_run (docs : list JsonDoc) :
  forall added updated s added' updated' s',
    sync_loop docs added updated s = (Returned (added', updated'), s') ->
    (added' + updated' = added + updated + length docs)%nat /\
    exists new, log s' = new ++ log s /\ writes new = length docs.
Proof.
  induction docs as [|doc docs IH]; intros added updated s added' updated' s' H.
  - simpl in H. injection H as <- <- <-. split; [simpl; lia|]. now exists [].
  - simpl in H. unfold bind at 1 in H.
    destruct (add_or_update_doc doc s) as [[is_new|e] s1] eqn:E; [|discriminate].
    assert (Hnote : exists new1, log s1 = new1 ++ log s /\ writes new1 = 1%nat).
    { destruct doc as [r| |]; simpl in E; try discriminate.
      destruct (add_or_update_note_run _ _ _ _ E)
        as (existing & media & image_field & line & ev & _ & Hlog & Hmedia & _ & He).
      exists (Printed line :: ev :: media
              ++ [Sent (findNotes (find_query (id r)))]).
      split; [rewrite Hlog; simpl; now rewrite <- app_assoc|].
      assert (Hw : writes media = 0%nat).
      { destruct Hmedia as [-> | (name & data & ->)]; reflexivity. }
      destruct existing; destruct He as [_ ->];
        change (writes (?a :: ?b :: ?l)) with (writes [a; b] + writes l)%nat;
        rewrite writes_app, Hw; reflexivity. }
    destruct Hnote as (new1 & Hlog1 & Hw1).
    destruct is_new;
      destruct (IH _ _ _ _ _ _ H) as (Hcount & new & Hlog & Hw);
      (split; [simpl; lia|]); exists (new ++ new1);
      (split; [now rewrite Hlog, Hlog1, app_assoc|]);
      rewrite writes_app, Hw, Hw1; simpl; lia.
Qed.

(** X15: a sync run that passes its check and returns has written one note
    for every record file, and the total it prints last is that number, the
    sum of the notes it reports as added and as updated. *)
Theorem completed_sync_reports_every_record
    (s s' : Session) (v : Z) :
  ankiconnect Z (log s) version = Result v ->
  sync_all_verb_pairs s = (Returned tt, s') ->
  exists added updated new,
    (added + updated = length (json_files data_dir))%nat /\
    log s' = Printed [u "Total:"; str_of_nat (length (json_files data_dir))]
             :: Printed [u "Updated:"; str_of_nat updated]
             :: Printed [u "Added:"; str_of_nat added]
             :: Printed [u "Sync complete!"] :: new ++ log s /\
    writes new = length (json_files data_dir).
Proof.
  intros Hv. unfold AnkiSync.sync_all_verb_pairs. unfold bind at 1.
  rewrite check_anki_connection_eq, Hv. cbn [negb].
  unfold bind at 1.
  destruct (ensure_deck_exists _) as [[[]|e] s1] eqn:E1; [|discriminate].
  destruct (ensure_deck_quiet _ _ _ E1) as (new1 & L1 & W1).
  unfold bind at 1.
  destruct (ensure_model_exists s1) as [[[]|e] s2] eqn:E2; [|discriminate].
  destruct (ensure_model_quiet _ _ _ E2) as (new2 & L2 & W2).
  unfold bind at 1. unfold record at 1, modify. unfold bind at 1.
  destruct (sync_loop _ _ _ _) as [[[added updated]|e] s3] eqn:E3; [|discriminate].
  destruct (sync_loop_run _ _ _ _ _ _ _ E3) as (Hcount & new3 & L3 & W3).
  rewrite length_map in Hcount, W3.
  unfold bind, record, modify, ret. intros H. injection H as <-.
  exists added, updated,
    (new3 ++ Printed [u "Syncing"; str_of_nat (length (json_files data_dir))]
          :: new2 ++ new1
          ++ [Printed [u "Connected to AnkiConnect version"; str_of_Z v];
              Sent version]).
  split; [simpl in Hcount; lia|]. split.
  - simpl. rewrite L3. simpl. rewrite L2, L1. simpl.
    rewrite Hcount. simpl.
    now rewrite <- !app_assoc, <- app_comm_cons, <- !app_assoc.
  - rewrite writes_app, W3.
    change (writes (?a :: ?l)) with (writes [a] + writes l)%nat.
    rewrite !writes_app, W2, W1.
    change (writes [Printed _]) with 0%nat.
    change (writes [Printed _; Sent version]) with 0%nat. lia.
Qed.

(** A loop that returns has met records only. *)
Lemma sync_loop_records (docs : list JsonDoc) :
  forall added updated s counts s',
    sync_loop docs added updated s = (Returned counts, s') ->
    forall doc, In doc docs -> exists verb_data, doc = DocRecord verb_data.
Proof.
  induction docs as [|d docs IH]; intros added updated s counts s' H doc Hin.
  - destruct Hin.
  - simpl in H. unfold bind at 1 in H.
    destruct (add_or_update_doc d s) as [[is_new|e] s1] eqn:E; [|discriminate].
    destruct Hin as [<- | Hin].
    + destruct d as [r| |]; try discriminate E. now exists r.
    + destruct is_new; exact (IH _ _ _ _ _ H doc Hin).
Qed.

(** X16: a file of the data directory that the run lists but that is not
    one record (a list, say, under a name that does not end in
    [_verb_pairs.json]) ends the run with an exception: a run that passes
    its check and returns has found a record in every file it listed. *)
Theorem completed_sync_read_records_only
    (s s' : Session) (v : Z) (name : str) (doc : JsonDoc) :
  ankiconnect Z (log s) version = Result v ->
  sync_all_verb_pairs s = (Returned tt, s') ->
  In (name, doc) (json_files data_dir) ->
  exists verb_data, doc = DocRecord verb_data.
Proof.
  intros Hv. unfold AnkiSync.sync_all_verb_pairs. unfold bind at 1.
  rewrite check_anki_connection_eq, Hv. cbn [negb].
  unfold bind at 1.
  destruct (ensure_deck_exists _) as [[[]|e] s1]; [|discriminate].
  unfold bind at 1.
  destruct (ensure_model_exists s1) as [[[]|e] s2]; [|discriminate].
  unfold bind at 1. unfold record at 1, modify. unfold bind at 1.
  destruct (sync_loop _ _ _ _) as [[counts|e] s3] eqn:E3; [|discriminate].
  intros _ Hin. apply (sync_loop_records _ _ _ _ _ _ E3).
  apply in_map_iff. now exists (name, doc).
Qed.

(** *** An AnkiConnect that answers *)

Lemma bind_returns {A B} (c : M Session A) (k : A -> M Session B) :
  (forall s, exists a s', c s = (Returned a, s')) ->
  (forall a s, exists b s', k a s = (Returned b, s')) ->
  forall s, exists b s', bind c k s = (Returned b, s').
Proof.
  intros Hc Hk s. unfold bind. destruct (Hc s) as (a & s1 & ->). apply Hk.
Qed.

Lemma ret_returns {A} (a : A) (s : Session) :
  exists b s', ret a s = (Returned b, s').
Proof. now exists a, s. Qed.

Lemma record_returns (e : SyncEvent) (s : Session) :
  exists b s', record e s = (Returned b, s').
Proof. now eexists _, _. Qed.

Section Obliging.
Hypothesis answers : obliging ankiconnect.

Lemma request_returns {A} (action : Action A) (s : Session) :
  exists a s', anki_request action s = (Returned a, s').
Proof.
  rewrite anki_request_eq. destruct (answers A (log s) action) as [r ->].
  now eexists _, _.
Qed.

Lemma store_image_returns (name : str) (s : Session) :
  match images_dir !! name with
  | Some _ => true
  | None => negb (unreadable name)
  end = true ->
  exists a s', store_image name s = (Returned a, s').
Proof.
  rewrite store_image_eq. destruct (images_dir !! name) as [content|].
  - intros _.
    destruct (answers _ (log s) (storeMediaFile name (b64encode content)))
      as [r ->].
    now eexists _, _.
  - intros H. apply negb_true_iff in H. rewrite H. now eexists _, _.
Qed.

Lemma add_or_update_note_returns (verb_data : VerbPairRecord) (s : Session) :
  image_opens images_dir unreadable verb_data = true ->
  exists is_new s', add_or_update_note verb_data s = (Returned is_new, s').
Proof.
  intros Hopens. revert s. unfold AnkiSync.add_or_update_note.
  apply bind_returns; [apply request_returns|]. intros existing.
  apply bind_returns.
  - unfold image_opens in Hopens.
    destruct (images verb_data) as [|first_image others];
      [apply ret_returns|].
    apply bind_returns; [intros s; now apply store_image_returns|].
    intros [name|]; [destruct (null name)|]; apply ret_returns.
  - intros image_field. destruct existing as [|note_id rest];
      (apply bind_returns; [apply request_returns|]); intros _;
      (apply bind_returns; [apply record_returns|]); intros _;
      apply ret_returns.
Qed.

Lemma ensure_deck_returns (s : Session) :
  exists a s', ensure_deck_exists s = (Returned a, s').
Proof.
  revert s. unfold AnkiSync.ensure_deck_exists.
  apply bind_returns; [apply request_returns|]. intros decks.
  destruct (negb _).
  - apply bind_returns; [apply request_returns|]. intros _.
    apply record_returns.
  - apply record_returns.
Qed.

Lemma ensure_model_returns (s : Session) :
  exists a s', ensure_model_exists s = (Returned a, s').
Proof.
  revert s. unfold AnkiSync.ensure_model_exists.
  apply bind_returns; [apply request_returns|]. intros models.
  destruct (negb _).
  - apply bind_returns; [apply request_returns|]. intros _.
    apply record_returns.
  - apply record_returns.
Qed.

Lemma sync_loop_returns (docs : list JsonDoc) :
  (forall doc, In doc docs ->
     exists verb_data, doc = DocRecord verb_data /\
                       image_opens images_dir unreadable verb_data = true) ->
  forall added updated s,
    exists counts s', sync_loop docs added updated s = (Returned counts, s').
Proof.
  induction docs as [|d docs IH]; intros Hdocs added updated.
  - apply ret_returns.
  - simpl. apply bind_returns.
    + destruct (Hdocs d (or_introl eq_refl)) as (r & -> & Hopens).
      intros s. now apply add_or_update_note_returns.
    + intros [|]; apply IH; intros doc Hin; apply Hdocs; now right.
Qed.

End Obliging.

(** X17: with an AnkiConnect that answers every request with a result, and
    a data directory whose listed files hold one record each, the first
    image of which, if its file is there, is a file that can be read and not
    a directory, the run returns; it raises nothing. *)
Theorem sync_returns_when_anki_answers (s : Session) :
  obliging ankiconnect ->
  (forall name doc, In (name, doc) (json_files data_dir) ->
     exists verb_data, doc = DocRecord verb_data /\
                       image_opens images_dir unreadable verb_data = true) ->
  exists s', sync_all_verb_pairs s = (Returned tt, s').
Proof.
  intros Hob Hdocs.
  assert (H : exists a s', sync_all_verb_pairs s = (Returned a, s')).
  { revert s. unfold AnkiSync.sync_all_verb_pairs.
    apply bind_returns.
    - intros s. rewrite check_anki_connection_eq.
      destruct (Hob _ (log s) version) as [v ->]. now eexists _, _.
    - intros ok. destruct (negb ok); [apply ret_returns|].
      apply bind_returns; [apply (ensure_deck_returns Hob)|]. intros _.
      apply bind_returns; [apply (ensure_model_returns Hob)|]. intros _.
      apply bind_returns; [apply record_returns|]. intros _.
      apply bind_returns.
      + apply (sync_loop_returns Hob). intros doc Hin.
        apply in_map_iff in Hin. destruct Hin as ([name d] & <- & Hin).
        exact (Hdocs name d Hin).
      + intros counts.
        apply bind_returns; [apply record_returns|]. intros _.
        apply bind_returns; [apply record_returns|]. intros _.
        apply bind_returns; [apply record_returns|]. intros _.
        apply record_returns. }
  destruct H as ([] & s' & H). now exists s'.
Qed.

(** X18: [sync_level] for a level without a combined file writes no note,
    whatever AnkiConnect answers and however the run ends. *)
Theorem level_without_file_writes_no_note
    (level : str) (s s' : Session) (out : Outcome unit) :
  data_dir !! (level ++ VERB_PAIRS_JSON) = None ->
  sync_level level s = (out, s') ->
  exists new, log s' = new ++ log s /\ writes new = 0%nat.
Proof.
  intros Hfile. unfold AnkiSync.sync_level. rewrite Hfile.
  unfold bind at 1. rewrite check_anki_connection_eq.
  destruct (ankiconnect Z (log s) version) as [|error|v].
  - intros H. injection H as _ <-.
    exists (diagnostic CANNOT_CONNECT ++ [Sent version]). split.
    + simpl. reflexivity.
    + reflexivity.
  - intros H. injection H as _ <-.
    exists (diagnostic (u "AnkiConnect error: " ++ error) ++ [Sent version]).
    split.
    + simpl. reflexivity.
    + reflexivity.
  - cbn [negb]. unfold bind at 1.
    destruct (ensure_deck_exists _) as [[[]|e] s1] eqn:E1.
    + destruct (ensure_deck_quiet _ _ _ E1) as (new1 & L1 & W1).
      unfold bind at 1.
      destruct (ensure_model_exists s1) as [[[]|e] s2] eqn:E2;
        destruct (ensure_model_quiet _ _ _ E2) as (new2 & L2 & W2);
        intros H; injection H as _ <-.
      * exists (Printed [u "Level file not found:"; level] :: new2 ++ new1
                ++ [Printed [u "Connected to AnkiConnect version"; str_of_Z v];
                    Sent version]).
        split; [simpl; rewrite L2, L1; simpl; now rewrite <- !app_assoc|].
        change (writes (?a :: ?l)) with (writes l).
        rewrite !writes_app, W2, W1. reflexivity.
      * exists (new2 ++ new1
                ++ [Printed [u "Connected to AnkiConnect version"; str_of_Z v];
                    Sent version]).
        split; [rewrite L2, L1; simpl; now rewrite <- !app_assoc|].
        rewrite !writes_app, W2, W1. reflexivity.
    + destruct (ensure_deck_quiet _ _ _ E1) as (new1 & L1 & W1).
      intros H; injection H as _ <-.
      exists (new1
              ++ [Printed [u "Connected to AnkiConnect version"; str_of_Z v];
                  Sent version]).
      split; [rewrite L1; simpl; now rewrite <- !app_assoc|].
      rewrite !writes_app, W1. reflexivity.
Qed.

(** [sync_level] on the combined file of a level, with an AnkiConnect that
    answers and images that can be opened: it returns, and has written one
    note for every record of the file. *)
Lemma sync_level_run (level : str) (data : list VerbPairRecord) (s : Session) :
  obliging ankiconnect ->
  data_dir !! (level ++ VERB_PAIRS_JSON) = Some (DocLevel data) ->
  (forall r, In r data -> image_opens images_dir unreadable r = true) ->
  exists s' new,
    sync_level level s = (Returned tt, s') /\
    log s' = new ++ log s /\ writes new = length data.
Proof.
  intros Hob Hfile Hopens. unfold AnkiSync.sync_level. rewrite Hfile.
  unfold bind at 1. rewrite check_anki_connection_eq.
  destruct (Hob _ (log s) version) as [v ->]. cbn [negb].
  unfold bind at 1.
  match goal with
  | |- context [AnkiSync.ensure_deck_exists _ ?s0] =>
    destruct (ensure_deck_returns Hob s0) as ([] & s1 & E1)
  end.
  rewrite E1. destruct (ensure_deck_quiet _ _ _ E1) as (new1 & L1 & W1).
  unfold bind at 1.
  destruct (ensure_model_returns Hob s1) as ([] & s2 & E2).
  rewrite E2. destruct (ensure_model_quiet _ _ _ E2) as (new2 & L2 & W2).
  unfold bind at 1. unfold record at 1, modify. unfold bind at 1.
  match goal with
  | |- context [AnkiSync.sync_loop _ _ _ _ ?docs ?a ?b ?s0] =>
    destruct (sync_loop_returns Hob docs) with (added := a) (updated := b)
                                               (s := s0)
      as ([added updated] & s3 & E3)
  end.
  { intros doc Hin. apply in_map_iff in Hin as (r & <- & Hr).
    exists r. split; [reflexivity | now apply Hopens]. }
  rewrite E3. destruct (sync_loop_run _ _ _ _ _ _ _ E3) as (_ & new3 & L3 & W3).
  rewrite length_map in W3.
  unfold bind, record, modify, ret. eexists _, _. split; [reflexivity|].
  split.
  - simpl. rewrite L3. simpl. rewrite L2, L1. simpl.
    instantiate (1 := _ :: _ :: _ :: new3
                      ++ Printed [u "Syncing"; str_of_nat (length data); level]
                      :: new2 ++ new1
                      ++ [Printed [u "Connected to AnkiConnect version";
                                   str_of_Z v];
                          Sent version]).
    simpl. now rewrite <- !app_assoc, <- app_comm_cons, <- !app_assoc.
  - change (writes (Printed ?a :: Printed ?b :: Printed ?c :: ?l))
      with (writes l).
    rewrite writes_app, W3.
    change (writes (Printed ?a :: ?l)) with (writes l).
    rewrite !writes_app, W2, W1.
    change (writes [Printed _; Sent version]) with 0%nat. lia.
Qed.

End Environment.

Import Examples.

Lemma note_is_updated_when_found_else_added_witness :
  exists new,
    log (snd (add_or_update_note ∅ only_the_directory b64encode accepting quiz_record
                fresh_session)) = new ++ [] /\
    writes new = 1%nat.
Proof.
  destruct (note_is_updated_when_found_else_added
              ∅ only_the_directory b64encode accepting quiz_record fresh_session
              (snd (add_or_update_note ∅ only_the_directory b64encode accepting quiz_record
                      fresh_session)) true)
    as (existing & new & _ & Hlog & Hw & _).
  - vm_compute. reflexivity.
  - exists new. split; assumption.
Defined.

Lemma note_without_image_file_has_empty_image_witness :
  exists line e fields,
    log (snd (add_or_update_note ∅ only_the_directory b64encode accepting door_record
                fresh_session))
    = [Printed line; e; Sent (findNotes (find_query (id door_record)))] /\
    note_sent e = Some fields /\
    field Image fields = Some [].
Proof.
  apply (note_without_image_file_has_empty_image
           ∅ only_the_directory b64encode accepting door_record fresh_session
           (snd (add_or_update_note ∅ only_the_directory b64encode accepting door_record
                   fresh_session)) true).
  - vm_compute. reflexivity.
  - vm_compute. reflexivity.
Defined.

Lemma note_shows_the_stored_image_witness :
  exists stored line e fields,
    accepting _ [Sent (findNotes (find_query (id door_record)))]
      (storeMediaFile DOOR_IMAGE (b64encode IMAGE_BYTES))
    = Result stored /\
    log (snd (add_or_update_note {[ DOOR_IMAGE := IMAGE_BYTES ]} only_the_directory b64encode
                accepting door_record fresh_session))
    = [Printed line; e;
       Sent (storeMediaFile DOOR_IMAGE (b64encode IMAGE_BYTES));
       Sent (findNotes (find_query (id door_record)))] /\
    note_sent e = Some fields /\
    field Image fields
    = Some (image_tag match stored with
                      | Some name => if null name then DOOR_IMAGE else name
                      | None => DOOR_IMAGE
                      end).
Proof.
  apply (note_shows_the_stored_image
           {[ DOOR_IMAGE := IMAGE_BYTES ]} only_the_directory b64encode accepting door_record
           fresh_session
           (snd (add_or_update_note {[ DOOR_IMAGE := IMAGE_BYTES ]} only_the_directory b64encode
                   accepting door_record fresh_session)) true
           {| filename := DOOR_IMAGE; original_url := IMAGE_URL;
              alt := u "door" |} [] IMAGE_BYTES).
  - vm_compute. reflexivity.
  - reflexivity.
  - vm_compute. reflexivity.
  - reflexivity.
Defined.

Lemma note_has_the_fields_of_the_model_witness :
  exists line e rest fields,
    log (snd (add_or_update_note ∅ only_the_directory b64encode accepting quiz_record
                fresh_session))
    = Printed line :: e :: rest /\
    note_sent e = Some fields /\
    List.map fst fields = MODEL_FIELDS /\
    field VerbPairID fields = Some (u "消える_消す").
Proof.
  apply (note_has_the_fields_of_the_model
           ∅ only_the_directory b64encode accepting quiz_record fresh_session
           (snd (add_or_update_note ∅ only_the_directory b64encode accepting quiz_record
                   fresh_session)) true).
  vm_compute. reflexivity.
Defined.

Lemma completed_sync_reports_every_record_witness :
  exists added updated new,
    (added + updated = 2)%nat /\
    log (snd (sync_all_verb_pairs ∅ only_the_directory two_records b64encode accepting
                fresh_session))
    = Printed [u "Total:"; u "2"]
      :: Printed [u "Updated:"; str_of_nat updated]
      :: Printed [u "Added:"; str_of_nat added]
      :: Printed [u "Sync complete!"] :: new ++ [] /\
    writes new = 2%nat.
Proof.
  apply (completed_sync_reports_every_record
           ∅ only_the_directory two_records b64encode accepting fresh_session
           (snd (sync_all_verb_pairs ∅ only_the_directory two_records b64encode accepting
                   fresh_session)) 6%Z).
  - reflexivity.
  - vm_compute. reflexivity.
Defined.

Lemma completed_sync_read_records_only_witness :
  exists verb_data, DocRecord quiz_record = DocRecord verb_data.
Proof.
  apply (completed_sync_read_records_only
           ∅ only_the_directory two_records b64encode accepting fresh_session
           (snd (sync_all_verb_pairs ∅ only_the_directory two_records b64encode accepting
                   fresh_session)) 6%Z (u "消える_消す.json")).
  - reflexivity.
  - vm_compute. reflexivity.
  - vm_compute. left. reflexivity.
Defined.

Lemma accepting_obliging : obliging accepting.
Proof. intros A history action. destruct action; eexists; reflexivity. Qed.

Lemma sync_returns_when_anki_answers_witness :
  exists s',
    sync_all_verb_pairs ∅ only_the_directory two_records b64encode accepting fresh_session
    = (Returned tt, s').
Proof.
  apply (sync_returns_when_anki_answers ∅ only_the_directory two_records b64encode accepting
           fresh_session).
  - exact accepting_obliging.
  - intros name doc H. vm_compute in H.
    destruct H as [H | [H | []]]; injection H as _ <-; eexists;
      split; reflexivity.
Defined.

Lemma level_without_file_writes_no_note_witness :
  exists new,
    log (snd (sync_level ∅ only_the_directory two_records b64encode accepting (u "advanced")
                fresh_session)) = new ++ [] /\
    writes new = 0%nat.
Proof.
  apply (level_without_file_writes_no_note
           ∅ only_the_directory two_records b64encode accepting (u "advanced") fresh_session
           (snd (sync_level ∅ only_the_directory two_records b64encode accepting (u "advanced")
                   fresh_session))
           (fst (sync_level ∅ only_the_directory two_records b64encode accepting (u "advanced")
                   fresh_session))).
  - vm_compute. reflexivity.
  - vm_compute. reflexivity.
Defined.

End SyncRunFacts.
(** ** The category pages and the entry points *)

Module CrawlFacts.
Import Scraper Crawl Observed PyStrFacts ScraperFacts RunFacts.

Section Environment.

Variable md5_hexdigest : str -> str.
Variable url_path_suffix : str -> str.
Variable web_page : list Event -> str -> option Page.
Variable web_image : list Event -> str -> option (list N).
Variable writable : World -> Folder -> str -> bool.
Variable urljoin : str -> str -> option str.
Variable py_int : str -> option Z.
Variable article_hrefs : Page -> list str.
Variable next_link : Page -> option str.
Variable pager : Page -> list PagerLink.

Local Abbreviation collect_article_urls := (collect_article_urls urljoin).
Local Abbreviation following_href := (following_href py_int next_link pager).
Local Abbreviation category_pages :=
  (category_pages web_page urljoin py_int article_hrefs next_link pager).
Local Abbreviation get_article_urls_from_category :=
  (get_article_urls_from_category web_page urljoin py_int article_hrefs
     next_link pager).
Local Abbreviation scrape_level :=
  (Crawl.scrape_level md5_hexdigest url_path_suffix web_page web_image
     writable urljoin py_int article_hrefs next_link pager).
Local Abbreviation scrape_levels :=
  (scrape_levels md5_hexdigest url_path_suffix web_page web_image writable
     urljoin py_int article_hrefs next_link pager).
Local Abbreviation scrape_all :=
  (scrape_all md5_hexdigest url_path_suffix web_page web_image writable
     urljoin py_int article_hrefs next_link pager).
Local Abbreviation scrape_beginner_only :=
  (scrape_beginner_only md5_hexdigest url_path_suffix web_page web_image
     writable urljoin py_int article_hrefs next_link pager).

(** When the article loop ends without an exception, it has added the links
    it accepts, each once, at the end. *)
Lemma collect_article_urls_spec (hrefs : list str) :
  forall urls result,
    collect_article_urls hrefs urls = Some result ->
    exists added,
      result = urls ++ added /\
      (List.NoDup urls -> List.NoDup result) /\
      (forall x, In x added ->
         exists href, In href hrefs /\ article_link href = true /\
                      urljoin BASE_URL href = Some x) /\
      (forall href, In href hrefs -> article_link href = true ->
         exists x, urljoin BASE_URL href = Some x /\ In x result).
Proof.
  induction hrefs as [|href rest IH]; intros urls result H.
  - simpl in H. injection H as <-. exists []. rewrite app_nil_r.
    repeat split; auto; intros ? [].
  - cbn [Crawl.collect_article_urls] in H.
    change (isin ARCHIVES href && endswith href DOT_HTML && negb (isin CAT href))
      with (article_link href) in H.
    destruct (article_link href) eqn:Hlink.
    + destruct (urljoin BASE_URL href) as [full_url|] eqn:Hjoin;
        [|discriminate].
      destruct (bool_decide _) eqn:Hseen.
      * apply bool_decide_eq_true in Hseen. apply list_elem_of_In in Hseen.
        destruct (IH urls result H) as (added & E & Hnd & Hfrom & Hall).
        exists added. split; [exact E|]. split; [exact Hnd|]. split.
        -- intros x Hx. destruct (Hfrom x Hx) as (h & Hh & Hl & Ex).
           exists h. split; [now right|]. now split.
        -- intros h [<- | Hh] Hl; [|now apply Hall].
           exists full_url. split; [exact Hjoin|].
           rewrite E. apply in_or_app. now left.
      * apply bool_decide_eq_false in Hseen.
        destruct (IH (urls ++ [full_url]) result H)
          as (added & E & Hnd & Hfrom & Hall).
        exists (full_url :: added).
        split; [rewrite E; now rewrite <- app_assoc|]. split; [|split].
        -- intros Hu. apply Hnd. apply NoDup_ListNoDup. apply NoDup_app.
           split; [now apply NoDup_ListNoDup|]. split.
           ++ intros x Hx Hx'. apply list_elem_of_singleton in Hx'. subst x.
              exact (Hseen Hx).
           ++ apply NoDup_singleton.
        -- intros x [<- | Hx].
           ++ exists href. split; [now left|]. now split.
           ++ destruct (Hfrom x Hx) as (h & Hh & Hl & Ex).
              exists h. split; [now right|]. now split.
        -- intros h [<- | Hh] Hl; [|now apply Hall].
           exists full_url. split; [exact Hjoin|].
           rewrite E. apply in_or_app. left. apply in_or_app. right. now left.
    + destruct (IH urls result H) as (added & E & Hnd & Hfrom & Hall).
      exists added. split; [exact E|]. split; [exact Hnd|]. split.
      * intros x Hx. destruct (Hfrom x Hx) as (h & Hh & Hl & Ex).
        exists h. split; [now right|]. now split.
      * intros h [<- | Hh] Hl; [congruence | now apply Hall].
Qed.

(** The article loop raises only where [urljoin] does on an accepted link. *)
Lemma collect_article_urls_some (hrefs : list str) :
  (forall href, In href hrefs -> article_link href = true ->
                urljoin BASE_URL href <> None) ->
  forall urls, exists result, collect_article_urls hrefs urls = Some result.
Proof.
  induction hrefs as [|href rest IH]; intros Hjoin urls.
  - now exists urls.
  - cbn [Crawl.collect_article_urls].
    change (isin ARCHIVES href && endswith href DOT_HTML && negb (isin CAT href))
      with (article_link href).
    assert (Hrest : forall h, In h rest -> article_link h = true ->
                              urljoin BASE_URL h <> None).
    { intros h Hh. apply Hjoin. now right. }
    destruct (article_link href) eqn:Hlink; [|now apply IH].
    destruct (urljoin BASE_URL href) as [full_url|] eqn:E.
    + destruct (bool_decide _); now apply IH.
    + now destruct (Hjoin href (or_introl eq_refl) Hlink).
Qed.

(** The loop over the category pages, however it ends: its requests are
    delayed and it leaves the files alone; the urls it returns are accepted
    links of pages that were served, without repetition. *)
Lemma category_pages_run (fuel : nat) :
  forall current_url urls w, exists out w' new,
    category_pages fuel current_url urls w = (out, w') /\
    trace w' = new ++ trace w /\ delayed new = true /\
    IMAGES_DIR w' = IMAGES_DIR w /\ DATA_DIR w' = DATA_DIR w /\
    forall result, out = Returned (Some result) ->
      exists added, result = urls ++ added /\
        (List.NoDup urls -> List.NoDup result) /\
        forall x, In x added ->
          exists history page_url soup href,
            web_page history page_url = Some soup /\
            In href (article_hrefs soup) /\ article_link href = true /\
            urljoin BASE_URL href = Some x.
Proof.
  assert (Hstop : forall urls w, exists out w' new,
    (Returned (Some urls), w) = (out, w') /\
    trace w' = new ++ trace w /\ delayed new = true /\
    IMAGES_DIR w' = IMAGES_DIR w /\ DATA_DIR w' = DATA_DIR w /\
    forall result, out = Returned (Some result) ->
      exists added, result = urls ++ added /\
        (List.NoDup urls -> List.NoDup result) /\
        forall x, In x added ->
          exists history page_url soup href,
            web_page history page_url = Some soup /\
            In href (article_hrefs soup) /\ article_link href = true /\
            urljoin BASE_URL href = Some x).
  { intros urls w. exists (Returned (Some urls)), w, [].
    repeat (split; [reflexivity|]). intros result H. injection H as <-.
    exists []. rewrite app_nil_r. repeat split; auto. intros ? []. }
  induction fuel as [|fuel IH]; intros current_url urls w.
  - destruct current_url as [url|]; [|apply Hstop].
    cbn [Crawl.category_pages]. destruct (null url); [apply Hstop|].
    exists (Returned None), w, []. repeat (split; [reflexivity|]). discriminate.
  - destruct current_url as [url|]; [|apply Hstop].
    cbn [Crawl.category_pages]. destruct (null url); [apply Hstop|].
    unfold bind at 1, emit at 1, modify at 1. unfold bind at 1.
    rewrite fetch_page_eq.
    destruct (web_page _ url) as [soup|] eqn:Hweb.
    + destruct (Crawl.collect_article_urls urljoin (article_hrefs soup) urls)
        as [urls1|] eqn:E1.
      2:{ eexists _, _, [_; _; _]. split; [reflexivity|].
          repeat (split; [reflexivity|]). discriminate. }
      destruct (collect_article_urls_spec _ _ _ E1)
        as (added1 & -> & Hnd1 & Hfrom1 & _).
      destruct (following_href soup) as [href|].
      2:{ eexists _, _, [_; _; _]. split; [reflexivity|].
          repeat (split; [reflexivity|]).
          intros result H. injection H as <-. exists added1.
          split; [reflexivity|]. split; [exact Hnd1|].
          intros x Hx. destruct (Hfrom1 x Hx) as (h & Hh & Hl & Ex).
          now exists (Sleep REQUEST_DELAY
                      :: Output [u "Fetching category page:"; url] :: trace w),
                     url, soup, h. }
      destruct (urljoin BASE_URL href) as [next_url|].
      2:{ eexists _, _, [_; _; _]. split; [reflexivity|].
          repeat (split; [reflexivity|]). discriminate. }
      match goal with
      | |- context [Crawl.category_pages _ _ _ _ _ _ _ ?c ?us ?w1] =>
        destruct (IH c us w1) as (out & w' & new & E & Ht & Hd & Hi & Hdata & Hres)
      end.
      exists out, w', (new ++ [HttpGet url; Sleep REQUEST_DELAY;
                               Output [u "Fetching category page:"; url]]).
      split; [exact E|].
      split; [rewrite Ht; simpl; now rewrite <- app_assoc|].
      split; [now apply delayed_app|].
      split; [exact Hi|]. split; [exact Hdata|].
      intros result Hout. destruct (Hres result Hout) as (added & Er & Hnd & Hfrom).
      exists (added1 ++ added).
      split; [rewrite Er; now rewrite <- app_assoc|]. split.
      * intros Hu. apply Hnd. now apply Hnd1.
      * intros x Hx. apply in_app_or in Hx as [Hx | Hx]; [|now apply Hfrom].
        destruct (Hfrom1 x Hx) as (h & Hh & Hl & Ex).
        now exists (Sleep REQUEST_DELAY
                    :: Output [u "Fetching category page:"; url] :: trace w),
                   url, soup, h.
    + eexists (Returned (Some urls)), _, [_; _; _; _].
      repeat (split; [reflexivity|]). intros result H. injection H as <-.
      exists []. rewrite app_nil_r. repeat split; auto. intros ? [].
Qed.

(** X19: the urls that [get_article_urls_from_category] returns are all
    different, and each is [urljoin(BASE_URL, href)] for a link of a page
    that was served whose [href] contains [/archives/], ends in [.html] and
    does not contain [cat_]; the function writes no file. *)
Theorem article_urls_are_distinct_article_links
    (fuel : nat) (category_url : str) (w w' : World) (urls : list str) :
  get_article_urls_from_category fuel category_url w
  = (Returned (Some urls), w') ->
  List.NoDup urls /\
  (forall x, In x urls ->
     exists history page_url soup href,
       web_page history page_url = Some soup /\
       In href (article_hrefs soup) /\ article_link href = true /\
       urljoin BASE_URL href = Some x) /\
  IMAGES_DIR w' = IMAGES_DIR w /\ DATA_DIR w' = DATA_DIR w.
Proof.
  intros H. unfold Crawl.get_article_urls_from_category in H.
  destruct (category_pages_run fuel (Some category_url) [] w)
    as (out & w1 & new & E & _ & _ & Hi & Hdata & Hres).
  rewrite E in H. injection H as -> <-.
  destruct (Hres urls eq_refl) as (added & -> & Hnd & Hfrom).
  split; [apply Hnd; constructor|]. split; [exact Hfrom|]. now split.
Qed.

(** *** The pager *)

Lemma find_current_page_app (l1 l2 : list PagerLink) (c : option Z) :
  find_current_page py_int (l1 ++ l2) c
  = find_current_page py_int l2 (find_current_page py_int l1 c).
Proof.
  revert c. induction l1 as [|p l1 IH]; intros c; [reflexivity|].
  cbn [app Crawl.find_current_page].
  destruct (is_current p); [|apply IH].
  destruct (py_int (strip (link_text p))); apply IH.
Qed.

Lemma find_current_page_passes (l : list PagerLink) (c : option Z) :
  (forall p, In p l -> is_current p = true ->
             py_int (strip (link_text p)) = None) ->
  find_current_page py_int l c = c.
Proof.
  induction l as [|p l IH]; intros H; [reflexivity|].
  cbn [Crawl.find_current_page].
  assert (Hl : forall q, In q l -> is_current q = true ->
                         py_int (strip (link_text q)) = None).
  { intros q Hq. apply H. now right. }
  destruct (is_current p) eqn:Hc; [|now apply IH].
  rewrite (H p (or_introl eq_refl) Hc). now apply IH.
Qed.

(** The first pager loop gives the number of the last current anchor whose
    text is a number. *)
Lemma find_current_page_last (l : list PagerLink) (n : Z) :
  find_current_page py_int l None = Some n <->
  exists l1 current l2,
    l = l1 ++ current :: l2 /\ is_current current = true /\
    py_int (strip (link_text current)) = Some n /\
    forall p, In p l2 -> is_current p = true ->
              py_int (strip (link_text p)) = None.
Proof.
  split.
  - induction l as [|p l IH] using rev_ind; [discriminate|].
    rewrite find_current_page_app. cbn [Crawl.find_current_page].
    destruct (is_current p) eqn:Hc.
    + destruct (py_int (strip (link_text p))) as [m|] eqn:Hm.
      * intros H. injection H as ->. exists l, p, []. now repeat split.
      * intros H. destruct (IH H) as (l1 & cur & l2 & -> & Hcur & Hn & Hl2).
        exists l1, cur, (l2 ++ [p]).
        split; [now rewrite <- app_assoc|]. split; [exact Hcur|].
        split; [exact Hn|].
        intros q Hq Hqc. apply in_app_or in Hq as [Hq | [<- | []]];
          [now apply Hl2 | exact Hm].
    + intros H. destruct (IH H) as (l1 & cur & l2 & -> & Hcur & Hn & Hl2).
      exists l1, cur, (l2 ++ [p]).
      split; [now rewrite <- app_assoc|]. split; [exact Hcur|].
      split; [exact Hn|].
      intros q Hq Hqc. apply in_app_or in Hq as [Hq | [<- | []]];
        [now apply Hl2 | congruence].
  - intros (l1 & cur & l2 & -> & Hcur & Hn & Hl2).
    rewrite find_current_page_app. cbn [Crawl.find_current_page].
    rewrite Hcur, Hn. now apply find_current_page_passes.
Qed.

(** The second pager loop stops at the first anchor with the number after
    [current_page], whatever its [href]. *)
Lemma find_next_page_link_first (before after : list PagerLink)
    (next : PagerLink) (current_page : Z) :
  (forall p, In p before ->
             py_int (strip (link_text p)) <> Some (current_page + 1)%Z) ->
  py_int (strip (link_text next)) = Some (current_page + 1)%Z ->
  find_next_page_link py_int (before ++ next :: after) current_page
  = link_href next.
Proof.
  intros Hbefore Hnext. induction before as [|p before IH].
  - cbn [app Crawl.find_next_page_link]. now rewrite Hnext, Z.eqb_refl.
  - cbn [app Crawl.find_next_page_link].
    assert (Hp := Hbefore p (or_introl eq_refl)).
    assert (IH' := IH (fun q Hq => Hbefore q (or_intror Hq))).
    destruct (py_int (strip (link_text p))) as [n|]; [|exact IH'].
    destruct (n =? current_page + 1)%Z eqn:E; [|exact IH'].
    apply Z.eqb_eq in E. subst n. now contradict Hp.
Qed.

Lemma find_next_page_link_some (links : list PagerLink) (current_page : Z)
    (href : str) :
  find_next_page_link py_int links current_page = Some href ->
  exists before next after,
    links = before ++ next :: after /\
    (forall p, In p before ->
               py_int (strip (link_text p)) <> Some (current_page + 1)%Z) /\
    py_int (strip (link_text next)) = Some (current_page + 1)%Z /\
    link_href next = Some href.
Proof.
  induction links as [|p rest IH]; intros H; [discriminate|].
  cbn [Crawl.find_next_page_link] in H.
  assert (Hskip : py_int (strip (link_text p)) <> Some (current_page + 1)%Z ->
                  find_next_page_link py_int rest current_page = Some href ->
                  exists before next after,
                    p :: rest = before ++ next :: after /\
                    (forall q, In q before ->
                       py_int (strip (link_text q))
                       <> Some (current_page + 1)%Z) /\
                    py_int (strip (link_text next))
                    = Some (current_page + 1)%Z /\
                    link_href next = Some href).
  { intros Hp Hrest. destruct (IH Hrest) as (b & nx & a & -> & Hb & Hn & Hh).
    exists (p :: b), nx, a. split; [reflexivity|]. split; [|now split].
    intros q [<- | Hq]; [exact Hp | now apply Hb]. }
  destruct (py_int (strip (link_text p))) as [n|] eqn:Hn.
  - destruct (n =? current_page + 1)%Z eqn:E.
    + apply Z.eqb_eq in E. subst n. exists [], p, rest.
      split; [reflexivity|]. split; [intros ? []|]. now split.
    + apply Hskip; [|exact H]. intros Heq. injection Heq as ->.
      now rewrite Z.eqb_refl in E.
  - apply Hskip; [discriminate | exact H].
Qed.

(** X20: a category page that is served, has no link to a next page and no
    current anchor with a number in its pager ends the loop: whatever turns
    are left, the function returns the accepted links of that page after one
    request, or raises the [ValueError] of [urljoin] on one of them. *)
Theorem category_of_one_page_is_read_once
    (fuel : nat) (category_url : str) (w : World) (soup : Page) :
  null category_url = false ->
  web_page (Sleep REQUEST_DELAY
            :: Output [u "Fetching category page:"; category_url] :: trace w)
           category_url = Some soup ->
  next_link soup = None ->
  (forall p, In p (pager soup) -> is_current p = true ->
             py_int (strip (link_text p)) = None) ->
  get_article_urls_from_category (S fuel) category_url w
  = (match collect_article_urls (article_hrefs soup) [] with
     | Some urls => Returned (Some urls)
     | None => Raised (PyException (u "ValueError"))
     end,
     after [HttpGet category_url; Sleep REQUEST_DELAY;
            Output [u "Fetching category page:"; category_url]] w).
Proof.
  intros Hurl Hweb Hnext Hpager.
  assert (Hfollow : following_href soup = None).
  { unfold Crawl.following_href. rewrite Hnext. cbv zeta.
    now rewrite find_current_page_passes. }
  unfold Crawl.get_article_urls_from_category.
  cbn [Crawl.category_pages]. rewrite Hurl.
  unfold bind at 1, emit at 1, modify at 1. unfold bind at 1.
  rewrite fetch_page_eq. cbn [trace after app]. rewrite Hweb, Hfollow.
  now destruct (Crawl.collect_article_urls _ _ _).
Qed.

(** X21: without a link to a next page, the address of the following page
    is the [href] of the first pager anchor whose number is one more than the
    number of the last current anchor with a number: there is a following
    page only if that number is not 0 and that first anchor has an [href]
    that is not empty, and then it is that [href]; an anchor further on with
    the same number is never followed. *)
Theorem pager_leads_to_the_next_number (soup : Page) :
  next_link soup = None ->
  (forall href, following_href soup = Some href ->
     exists before_current current after_current current_page
            before next after,
       pager soup = before_current ++ current :: after_current /\
       is_current current = true /\
       py_int (strip (link_text current)) = Some current_page /\
       (forall p, In p after_current -> is_current p = true ->
                  py_int (strip (link_text p)) = None) /\
       current_page <> 0%Z /\
       pager soup = before ++ next :: after /\
       (forall p, In p before ->
                  py_int (strip (link_text p)) <> Some (current_page + 1)%Z) /\
       py_int (strip (link_text next)) = Some (current_page + 1)%Z /\
       link_href next = Some href /\ null href = false) /\
  (forall before_current current after_current current_page
          before next after,
     pager soup = before_current ++ current :: after_current ->
     is_current current = true ->
     py_int (strip (link_text current)) = Some current_page ->
     (forall p, In p after_current -> is_current p = true ->
                py_int (strip (link_text p)) = None) ->
     pager soup = before ++ next :: after ->
     (forall p, In p before ->
                py_int (strip (link_text p)) <> Some (current_page + 1)%Z) ->
     py_int (strip (link_text next)) = Some (current_page + 1)%Z ->
     following_href soup
     = if (current_page =? 0)%Z then None
       else match link_href next with
            | Some href => if null href then None else Some href
            | None => None
            end).
Proof.
  intros Hnext. split.
  - intros href. unfold Crawl.following_href. rewrite Hnext. cbv zeta.
    destruct (find_current_page py_int (pager soup) None) as [n|] eqn:Hc;
      [|discriminate].
    destruct (n =? 0)%Z eqn:Hz; [discriminate|].
    destruct (find_next_page_link py_int (pager soup) n) as [h|] eqn:Hl;
      [|discriminate].
    destruct (null h) eqn:Hh; [discriminate|].
    intros H. injection H as <-.
    apply find_current_page_last in Hc
      as (l1 & cur & l2 & E1 & Hcur & Hn & Hl2).
    destruct (find_next_page_link_some _ _ _ Hl)
      as (b & nx & a & E2 & Hb & Hnx & Hhref).
    exists l1, cur, l2, n, b, nx, a. apply Z.eqb_neq in Hz.
    now repeat split.
  - intros l1 cur l2 n b nx a E1 Hcur Hn Hl2 E2 Hb Hnx.
    unfold Crawl.following_href. rewrite Hnext. cbv zeta.
    assert (Hc : find_current_page py_int (pager soup) None = Some n).
    { apply find_current_page_last. now exists l1, cur, l2. }
    rewrite Hc. destruct (n =? 0)%Z; [reflexivity|].
    rewrite E2, find_next_page_link_first by assumption.
    reflexivity.
Qed.

(** X22: the loop over the category pages need not end: on a page that is
    always served, on whose links [urljoin] does not raise, and whose
    following page is the page itself, no number of turns is enough. *)
Theorem category_that_follows_itself_never_ends
    (url href : str) (soup : Page) :
  null url = false ->
  (forall history, web_page history url = Some soup) ->
  (forall h, In h (article_hrefs soup) -> article_link h = true ->
             urljoin BASE_URL h <> None) ->
  following_href soup = Some href ->
  urljoin BASE_URL href = Some url ->
  forall fuel urls w,
    fst (category_pages fuel (Some url) urls w) = Returned None.
Proof.
  intros Hurl Hweb Hlinks Hnext Hjoin.
  induction fuel as [|fuel IH]; intros urls w.
  - cbn [Crawl.category_pages]. now rewrite Hurl.
  - cbn [Crawl.category_pages]. rewrite Hurl.
    unfold bind at 1, emit at 1, modify at 1. unfold bind at 1.
    rewrite fetch_page_eq, Hweb.
    destruct (collect_article_urls_some _ Hlinks urls) as [urls1 ->].
    rewrite Hnext, Hjoin. apply IH.
Qed.

(** *** The entry points *)

(** [scrape_level], whole, however it ends: its requests are delayed, the
    image files stay, and every file under [DATA_DIR] was there or holds one
    record; when it returns after the category loop has ended, the records
    are extracted ones of the level, their files are there, and the image
    files of the records are there. *)
Lemma scrape_level_run (fuel : nat) (level category_url : str) (w : World) :
  exists out w' new,
    scrape_level fuel level category_url w = (out, w') /\
    trace w' = new ++ trace w /\ delayed new = true /\
    IMAGES_DIR w ⊆ IMAGES_DIR w' /\
    (forall name doc, DATA_DIR w' !! name = Some doc ->
       DATA_DIR w !! name = Some doc \/ exists r, doc = DocRecord r) /\
    forall results, out = Returned (Some results) ->
      (forall r, In r results -> extracted level r) /\
      (forall r e, In r results -> In e (images r) ->
         is_Some (IMAGES_DIR w' !! filename e)).
Proof.
  unfold Crawl.scrape_level.
  unfold bind at 1, emit at 1, modify at 1. unfold bind at 1.
  unfold Crawl.get_article_urls_from_category.
  match goal with
  | |- context [Crawl.category_pages _ _ _ _ _ _ ?f ?c ?us ?w0] =>
    destruct (category_pages_run f c us w0)
      as (out & w1 & new1 & E1 & Ht1 & Hd1 & Hi1 & Hdata1 & _)
  end.
  rewrite E1. destruct out as [[urls|]|e].
  - unfold bind at 1, emit at 1, modify at 1. unfold bind at 1.
    unfold Scraper.scrape_level.
    match goal with
    | |- context [Scraper.scrape_articles _ _ _ _ _ ?l ?us ?a ?w0] =>
      destruct (scrape_articles_run md5_hexdigest url_path_suffix web_page
                  web_image writable l us a w0)
        as (out2 & w2 & new2 & E2 & Ht2 & Hd2 & Hi2 & Hres);
      pose proof (scrape_articles_files md5_hexdigest url_path_suffix web_page
                    web_image writable l us a w0 out2 w2 E2)
        as (Hex & _ & Hfiles)
    end.
    rewrite E2.
    exists (match out2 with
            | Returned results => Returned (Some results)
            | Raised e => Raised e
            end), w2,
      (new2 ++ Output [u "Found"; AnkiSync.str_of_nat (length urls); u "articles"]
            :: new1 ++ [Output [u "Scraping"; level; u "level from"; category_url]]).
    split; [now destruct out2|].
    split; [rewrite Ht2; simpl; rewrite Ht1; simpl;
            now rewrite <- !app_assoc, <- app_comm_cons, <- app_assoc|].
    split; [apply delayed_app; [exact Hd2|];
            cbn [delayed app]; apply delayed_app; [exact Hd1 | reflexivity]|].
    split; [simpl in Hi2; rewrite Hi1 in Hi2; exact Hi2|].
    split.
    + intros name doc Hdoc. destruct (Hfiles name doc Hdoc) as [Hold | Hnew].
      * left. simpl in Hold. now rewrite Hdata1 in Hold.
      * right. destruct Hnew as (r & Hr & _). now exists r.
    + intros results Eo. destruct out2 as [results2|e]; [|discriminate].
      injection Eo as ->.
      destruct (Hres results eq_refl) as (added & Eadded & _ & _ & Himg).
      simpl in Eadded. subst added. split; [|exact Himg].
      intros r Hr. destruct (Hex results eq_refl r Hr) as [[] | H]. exact H.
  - exists (Returned None), w1,
      (new1 ++ [Output [u "Scraping"; level; u "level from"; category_url]]).
    split; [reflexivity|].
    split; [rewrite Ht1; simpl; now rewrite <- app_assoc|].
    split; [apply delayed_app; [exact Hd1 | reflexivity]|].
    split; [simpl in Hi1; now rewrite Hi1|].
    split; [|discriminate].
    intros name doc Hdoc. left. simpl in Hdata1. now rewrite <- Hdata1.
  - exists (Raised e), w1,
      (new1 ++ [Output [u "Scraping"; level; u "level from"; category_url]]).
    split; [reflexivity|].
    split; [rewrite Ht1; simpl; now rewrite <- app_assoc|].
    split; [apply delayed_app; [exact Hd1 | reflexivity]|].
    split; [simpl in Hi1; now rewrite Hi1|].
    split; [|discriminate].
    intros name doc Hdoc. left. simpl in Hdata1. now rewrite <- Hdata1.
Qed.

(** The loop over the levels. *)
Lemma scrape_levels_run (fuel : nat) (categories : list (str * str)) :
  forall all_data w, exists out w' new,
    scrape_levels fuel categories all_data w = (out, w') /\
    trace w' = new ++ trace w /\ delayed new = true /\
    IMAGES_DIR w ⊆ IMAGES_DIR w' /\
    (forall name doc, DATA_DIR w' !! name = Some doc ->
       DATA_DIR w !! name = Some doc \/ exists r, doc = DocRecord r) /\
    forall result, out = Returned (Some result) ->
      exists added, result = all_data ++ added /\
        List.map fst added = List.map fst categories /\
        forall level data r, In (level, data) added -> In r data ->
                             extracted level r.
Proof.
  induction categories as [|[level url] rest IH]; intros all_data w.
  - exists (Returned (Some all_data)), w, []. repeat (split; [reflexivity|]).
    split; [now left|]. intros result H. injection H as <-.
    exists []. rewrite app_nil_r. repeat split. intros ? ? ? [].
  - cbn [Crawl.scrape_levels]. unfold bind at 1.
    destruct (scrape_level_run fuel level url w)
      as (out1 & w1 & new1 & E1 & Ht1 & Hd1 & Hi1 & Hfiles1 & Hout1).
    rewrite E1. destruct out1 as [[data|]|e].
    + destruct (Hout1 data eq_refl) as (Hex1 & _).
      destruct (IH (all_data ++ [(level, data)]) w1)
        as (out & w' & new & E & Ht & Hd & Hi & Hfiles & Hres).
      exists out, w', (new ++ new1). split; [exact E|].
      split; [rewrite Ht, Ht1; now rewrite <- app_assoc|].
      split; [now apply delayed_app|].
      split; [now transitivity (IMAGES_DIR w1)|].
      split.
      * intros name doc Hdoc. destruct (Hfiles name doc Hdoc) as [Hold | Hnew];
          [|now right].
        exact (Hfiles1 name doc Hold).
      * intros result Hout.
        destruct (Hres result Hout) as (added & -> & Hlevels & Hex).
        exists ((level, data) :: added).
        split; [now rewrite <- app_assoc|].
        split; [simpl; now rewrite Hlevels|].
        intros lv d r [H | H] Hr.
        -- injection H as <- <-. now apply Hex1.
        -- exact (Hex lv d r H Hr).
    + exists (Returned None), w1, new1. split; [reflexivity|].
      split; [exact Ht1|]. split; [exact Hd1|]. split; [exact Hi1|].
      split; [exact Hfiles1 | discriminate].
    + exists (Raised e), w1, new1. split; [reflexivity|].
      split; [exact Ht1|]. split; [exact Hd1|]. split; [exact Hi1|].
      split; [exact Hfiles1 | discriminate].
Qed.


(** What [scrape_all] leaves under [DATA_DIR]. *)
Lemma scrape_all_files (fuel : nat) (w w' : World) :
  scrape_all fuel w = (Returned (Some tt), w') ->
  exists all_data,
    DATA_DIR w' !! ALL_VERB_PAIRS_JSON = Some (DocAll all_data) /\
    List.map fst all_data = [BEGINNER; INTERMEDIATE; ADVANCED] /\
    (forall level data r, In (level, data) all_data -> In r data ->
                          extracted level r) /\
    forall name doc, DATA_DIR w' !! name = Some doc ->
      name = ALL_VERB_PAIRS_JSON \/ DATA_DIR w !! name = Some doc \/
      exists r, doc = DocRecord r.
Proof.
  unfold Crawl.scrape_all. unfold bind at 1.
  destruct (scrape_levels_run fuel CATEGORY_URLS [] w)
    as (out & w1 & new1 & E & _ & _ & _ & Hfiles & Hres).
  rewrite E. destruct out as [[all_data|]|e]; try discriminate.
  destruct (Hres all_data eq_refl) as (added & -> & Hlevels & Hex).
  unfold write_json, bind, gets, emit, modify, ret, raise.
  destruct (writable w1 Data _); [|discriminate].
  intros H. injection H as <-.
  cbn [DATA_DIR after with_json]. exists added.
  split; [apply lookup_insert_eq|]. split; [exact Hlevels|].
  split; [exact Hex|].
  intros name doc Hdoc.
  apply lookup_insert_Some in Hdoc as [[<- _] | [_ Hdoc]]; [now left|].
  right. exact (Hfiles name doc Hdoc).
Qed.


End Environment.

Import Examples CrawlExamples.

Lemma article_urls_are_distinct_article_links_witness :
  List.NoDup [ARTICLE_URL] /\ DATA_DIR (snd crawl_beginner) = ∅.
Proof.
  assert (E : crawl_beginner = (Returned (Some [ARTICLE_URL]), snd crawl_beginner))
    by (vm_compute; reflexivity).
  destruct (article_urls_are_distinct_article_links _ _ _ _ _ _ _ _ _ _ _ E)
    as (Hnd & _ & _ & Hdata).
  split; [exact Hnd | exact Hdata].
Defined.

Lemma category_of_one_page_is_read_once_witness :
  fst crawl_beginner = Returned (Some [ARTICLE_URL]).
Proof.
  unfold crawl_beginner.
  rewrite (category_of_one_page_is_read_once site urljoin py_int article_hrefs
             no_next_link no_pager 2 BEGINNER_URL empty_world LISTING).
  - vm_compute. reflexivity.
  - reflexivity.
  - reflexivity.
  - reflexivity.
  - intros p [].
Defined.

Lemma pager_leads_to_the_next_number_witness :
  following_href py_int no_next_link numbered_pager LISTING = Some SECOND_PAGE.
Proof.
  destruct (pager_leads_to_the_next_number py_int no_next_link numbered_pager
              LISTING eq_refl) as [_ H].
  rewrite (H [] {| link_class := [u "current"]; parent_class := [];
                   link_text := u " 1 "; link_href := None |}
             [{| link_class := []; parent_class := []; link_text := u "2";
                 link_href := Some SECOND_PAGE |}]
             1%Z
             [{| link_class := [u "current"]; parent_class := [];
                 link_text := u " 1 "; link_href := None |}]
             {| link_class := []; parent_class := []; link_text := u "2";
                link_href := Some SECOND_PAGE |}
             []).
  - reflexivity.
  - reflexivity.
  - reflexivity.
  - reflexivity.
  - intros p [<- | []]. discriminate.
  - reflexivity.
  - intros p [<- | []]. vm_compute. discriminate.
  - reflexivity.
Defined.

Lemma category_that_follows_itself_never_ends_witness :
  fst (category_pages (serving LISTING) urljoin py_int article_hrefs
         next_is_beginner no_pager 5 (Some BEGINNER_URL) [] empty_world)
  = Returned None.
Proof.
  apply (category_that_follows_itself_never_ends (serving LISTING) urljoin
           py_int article_hrefs next_is_beginner no_pager BEGINNER_URL
           (u "/archives/cat_116824.html") LISTING).
  - reflexivity.
  - intros history. reflexivity.
  - intros h [<- | [<- | [<- | [<- | []]]]]; vm_compute; discriminate.
  - reflexivity.
  - vm_compute. reflexivity.
Defined.


End CrawlFacts.

(** ** From the scraper to the sync *)

Module PipelineFacts.
Import Scraper AnkiSync Crawl Observed SyncObserved PyStrFacts.

Section Environment.

Variable md5_hexdigest : str -> str.
Variable url_path_suffix : str -> str.
Variable web_page : list Event -> str -> option Page.
Variable web_image : list Event -> str -> option (list N).
Variable writable : World -> Folder -> str -> bool.
Variable urljoin : str -> str -> option str.
Variable py_int : str -> option Z.
Variable article_hrefs : Page -> list str.
Variable next_link : Page -> option str.
Variable pager : Page -> list PagerLink.
Variable unreadable : str -> bool.
Variable b64encode : list N -> str.
Variable ankiconnect : forall A, list SyncEvent -> Action A -> Reply A.

Local Abbreviation scrape_all :=
  (scrape_all md5_hexdigest url_path_suffix web_page web_image writable
     urljoin py_int article_hrefs next_link pager).
Local Abbreviation scrape_beginner_only :=
  (scrape_beginner_only md5_hexdigest url_path_suffix web_page web_image
     writable urljoin py_int article_hrefs next_link pager).

(** What [scrape_beginner_only] leaves under [DATA_DIR], and the image
    files of its records. *)
Lemma scrape_beginner_only_files (fuel : nat) (w w' : World) :
  scrape_beginner_only fuel w = (Returned (Some tt), w') ->
  exists data,
    DATA_DIR w' !! BEGINNER_VERB_PAIRS_JSON = Some (DocLevel data) /\
    (forall r, In r data -> extracted BEGINNER r) /\
    (forall r e, In r data -> In e (images r) ->
       is_Some (IMAGES_DIR w' !! filename e)) /\
    forall name doc, DATA_DIR w' !! name = Some doc ->
      name = BEGINNER_VERB_PAIRS_JSON \/ DATA_DIR w !! name = Some doc \/
      exists r, doc = DocRecord r.
Proof.
  unfold Crawl.scrape_beginner_only. unfold bind at 1.
  destruct (CrawlFacts.scrape_level_run md5_hexdigest url_path_suffix web_page
              web_image writable urljoin py_int article_hrefs next_link pager
              fuel BEGINNER BEGINNER_URL w)
    as (out & w1 & new1 & E & _ & _ & _ & Hfiles & Hout).
  rewrite E. destruct out as [[data|]|e]; try discriminate.
  destruct (Hout data eq_refl) as (Hex & Himg).
  unfold write_json, bind, gets, emit, modify, ret, raise.
  destruct (writable w1 Data _); [|discriminate].
  intros H. injection H as <-.
  cbn [DATA_DIR IMAGES_DIR after with_json]. exists data.
  split; [apply lookup_insert_eq|]. split; [exact Hex|].
  split; [exact Himg|].
  intros name doc Hdoc.
  apply lookup_insert_Some in Hdoc as [[<- _] | [_ Hdoc]]; [now left|].
  right. exact (Hfiles name doc Hdoc).
Qed.


(** X26: [scrape_beginner_only] feeds [sync_level]: when it has returned,
    [beginner_verb_pairs.json] holds the list of its records, extracted for
    the beginner level, and [sync_level] for that level, with an
    AnkiConnect that answers, returns after writing one note for each of
    them; the image files of the records are files that the run has left, so
    that [store_image] opens them. *)
Theorem beginner_scrape_feeds_the_level_sync
    (fuel : nat) (w w' : World) (s : Session) :
  scrape_beginner_only fuel w = (Returned (Some tt), w') ->
  obliging ankiconnect ->
  exists data s' new,
    DATA_DIR w' !! (BEGINNER ++ VERB_PAIRS_JSON) = Some (DocLevel data) /\
    (forall r, In r data -> extracted BEGINNER r) /\
    sync_level (IMAGES_DIR w') unreadable (DATA_DIR w') b64encode ankiconnect
               BEGINNER s
    = (Returned tt, s') /\
    log s' = new ++ log s /\ writes new = length data.
Proof.
  intros Hrun Hob.
  destruct (scrape_beginner_only_files _ _ _ Hrun)
    as (data & Hfile & Hex & Himg & _).
  destruct (SyncRunFacts.sync_level_run (IMAGES_DIR w') unreadable
              (DATA_DIR w') b64encode ankiconnect BEGINNER data s Hob Hfile)
    as (s' & new & E & Hlog & Hw).
  { intros r Hr. unfold image_opens.
    destruct (images r) as [|first_image others] eqn:Hi; [reflexivity|].
    destruct (Himg r first_image Hr) as [content ->]; [|reflexivity].
    rewrite Hi. now left. }
  exists data, s', new. repeat split; assumption.
Qed.

End Environment.

Import Examples CrawlExamples.


Lemma beginner_scrape_feeds_the_level_sync_witness :
  exists data s' new,
    DATA_DIR (snd scrape_beginner_site) !! (Crawl.BEGINNER ++ VERB_PAIRS_JSON)
    = Some (DocLevel data) /\
    (forall r, In r data -> extracted Crawl.BEGINNER r) /\
    sync_level (IMAGES_DIR (snd scrape_beginner_site)) only_the_directory
               (DATA_DIR (snd scrape_beginner_site)) b64encode accepting
               Crawl.BEGINNER fresh_session
    = (Returned tt, s') /\
    log s' = new ++ [] /\ writes new = length data.
Proof.
  assert (E : scrape_beginner_site
              = (Returned (Some tt), snd scrape_beginner_site))
    by (vm_compute; reflexivity).
  apply (beginner_scrape_feeds_the_level_sync md5_hexdigest url_path_suffix
           site (serving IMAGE_BYTES) flat urljoin py_int article_hrefs
           no_next_link no_pager only_the_directory b64encode accepting 3
           empty_world (snd scrape_beginner_site) fresh_session E).
  exact SyncRunFacts.accepting_obliging.
Defined.

End PipelineFacts.
